(** * SimpleMail: the mail store and its protocol adapters

    A shallow embedding of [storage/sqlite.go], [storage/postgres.go],
    [server/imap.go], [server/smtp.go] and [server/pop3.go].

    - Go integers are [Z]; a conversion [uint32(x)] is written out as
      [x mod 2^32].
    - [[]byte] is [list byte]; Go strings are [string].
    - A [*sql.DB] handle is a value of type [DB]: the four tables as lists
      of rows in insertion order, the four id sequences, and the state of
      the connection.  The storage methods are computations in a
      state-and-error monad over [DB]; a failed statement returns the
      error together with the store as it then is, since the code never
      opens a transaction.
    - [time.Now()] is an argument of the operation that calls it. *)

From Stdlib Require Import ZArith List String Ascii Bool Lia Sorted Permutation.
From Stdlib Require Import Strings.Byte DecimalString.
Import ListNotations.

Open Scope string_scope.
Open Scope list_scope.
Open Scope Z_scope.

(** ** Go values *)

Module Go.

Definition uint32 (x : Z) : Z := x mod 2 ^ 32.

(** [len(xs)] as a Go [int]. *)
Definition len {A : Type} (xs : list A) : Z := Z.of_nat (List.length xs).

(** [string(b)] for [b []byte]. *)
Definition string_of_bytes (b : list byte) : string := string_of_list_byte b.

(** [strings.Join(xs, sep)]. *)
Fixpoint Join (xs : list string) (sep : string) : string :=
  match xs with
  | [] => ""
  | [x] => x
  | x :: rest => String.append x (String.append sep (Join rest sep))
  end.

(** Membership of a string in a slice, the effect of a
    [for _, f := range flags { switch f { case c: ... } }] on one case. *)
Definition named (c : string) (flags : list string) : bool :=
  existsb (String.eqb c) flags.

End Go.

(** ** [time.Time]

    A [time.Time] is an instant together with a location pointer.  [Before]
    and [After] compare instants; [==] on the struct compares both fields.
    The zero value [time.Time{}] is instant 0 with a nil location. *)

Module time.

Record Time : Type := mkTime { instant : Z; location : option string }.

Definition zero : Time := mkTime 0 None.

Definition Before (t u : Time) : bool := instant t <? instant u.
Definition After (t u : Time) : bool := instant u <? instant t.

Definition loc_eqb (a b : option string) : bool :=
  match a, b with
  | None, None => true
  | Some x, Some y => String.eqb x y
  | _, _ => false
  end.

(** [t == u] on the struct. *)
Definition eqb (t u : Time) : bool :=
  (instant t =? instant u) && loc_eqb (location t) (location u).

Definition UTC (i : Z) : Time := mkTime i None.

End time.

(** ** Errors

    [fmt.Errorf("...: %w", err)] is [Wrap]; the three sentinel errors of
    [storage/storage.go] and the errors reported by the database engine and
    by the SMTP library are constructors of their own. *)

Inductive error : Type :=
| ErrUserNotFound
| ErrMailboxNotFound
| ErrMessageNotFound
| Errorf (msg : string)
| Wrap (msg : string) (cause : error)
| UniqueViolation (constraint : string)
| ForeignKeyViolation (constraint : string)
| ConnectionFailure
| ErrDataTooLarge.

Fixpoint root_cause (e : error) : error :=
  match e with
  | Wrap _ c => root_cause c
  | _ => e
  end.

Inductive res (A : Type) : Type :=
| Ok (a : A)
| Err (e : error).
Arguments Ok {A} a.
Arguments Err {A} e.

Definition is_ok {A : Type} (r : res A) : bool :=
  match r with Ok _ => true | Err _ => false end.

(** ** storage/models.go *)

Module storage.

Record User : Type := mkUser {
  User_ID : Z;
  Username : string;
  Password : string;
  User_Name : string;
  Email : string;
  User_Created : time.Time;
  Updated : time.Time
}.

Record Mailbox : Type := mkMailbox {
  Mailbox_ID : Z;
  UserID : Z;
  Name : string;
  Path : string
}.

Record Message : Type := mkMessage {
  ID : Z;
  MailboxID : Z;
  UID : Z;
  From : string;
  To : string;
  Cc : string;
  Subject : string;
  Date : time.Time;
  Body : string;
  RawData : list byte;
  Flags : string;
  Size : Z;
  Seen : bool;
  Deleted : bool;
  Draft : bool;
  Created : time.Time
}.

Record Attachment : Type := mkAttachment {
  Attachment_ID : Z;
  MessageID : Z;
  Filename : string;
  MimeType : string;
  Data : list byte;
  Attachment_Size : Z;
  Attachment_Created : time.Time
}.

(** Field assignments [x.F = v]. *)

Definition User_set_ID (v : Z) (u : User) : User :=
  mkUser v (Username u) (Password u) (User_Name u) (Email u)
         (User_Created u) (Updated u).

Definition User_set_times (now : time.Time) (u : User) : User :=
  mkUser (User_ID u) (Username u) (Password u) (User_Name u) (Email u)
         now now.

Definition Mailbox_set_ID (v : Z) (m : Mailbox) : Mailbox :=
  mkMailbox v (UserID m) (Name m) (Path m).

Definition Message_set_ID (v : Z) (m : Message) : Message :=
  mkMessage v (MailboxID m) (UID m) (From m) (To m) (Cc m) (Subject m)
            (Date m) (Body m) (RawData m) (Flags m) (Size m)
            (Seen m) (Deleted m) (Draft m) (Created m).

Definition Message_set_Created (now : time.Time) (m : Message) : Message :=
  mkMessage (ID m) (MailboxID m) (UID m) (From m) (To m) (Cc m) (Subject m)
            (Date m) (Body m) (RawData m) (Flags m) (Size m)
            (Seen m) (Deleted m) (Draft m) now.

(** The row written by
    [UPDATE messages SET flags = ?, seen = ?, deleted = ?, draft = ?]. *)
Definition Message_set_flags (flags : string) (seen deleted draft : bool)
           (m : Message) : Message :=
  mkMessage (ID m) (MailboxID m) (UID m) (From m) (To m) (Cc m) (Subject m)
            (Date m) (Body m) (RawData m) flags (Size m)
            seen deleted draft (Created m).

Definition Attachment_set_ID (v : Z) (a : Attachment) : Attachment :=
  mkAttachment v (MessageID a) (Filename a) (MimeType a) (Data a)
               (Attachment_Size a) (Attachment_Created a).

Definition Attachment_set_Created (now : time.Time) (a : Attachment)
  : Attachment :=
  mkAttachment (Attachment_ID a) (MessageID a) (Filename a) (MimeType a)
               (Data a) (Attachment_Size a) now.

(** ** The database behind [*sql.DB]

    The schema of [createSchema] is the same for both engines: an
    autoincremented primary key per table, [UNIQUE] on [users.username],
    [users.email], [mailboxes(user_id, name)] and [messages(mailbox_id,
    uid)], and a foreign key with [ON DELETE CASCADE] from each table to
    its owner.

    The two engines differ in four points that the storage code meets:
    - PostgreSQL always enforces foreign keys.  SQLite enforces them on a
      connection only after [PRAGMA foreign_keys = ON] (or the
      [_foreign_keys] parameter of the data source name); otherwise the
      [REFERENCES] clauses are parsed and ignored.  [pragma_foreign_keys]
      is that switch.
    - A PostgreSQL [SERIAL] value is consumed by an [INSERT] that then
      fails; an SQLite [AUTOINCREMENT] value is not.
    - A query without [ORDER BY] over the mailboxes of a user comes by
      name from SQLite, which reads the index of [UNIQUE(user_id, name)];
      PostgreSQL promises no order.
    - An [INSERT] into [users] that violates both [UNIQUE] constraints is
      reported under [users.email] by SQLite.

    [budget] is the number of statements the connection will still carry
    out before the engine reports a failure ([None]: it never does); it
    stands for the I/O errors that every [if err != nil] of the storage
    code handles.  Column widths of the PostgreSQL schema are not
    modelled. *)

Inductive Backend : Type := SQLite | Postgres.

Record Tables : Type := mkTables {
  users : list User;
  mailboxes : list Mailbox;
  messages : list Message;
  attachments : list Attachment
}.

Record Sequences : Type := mkSequences {
  seq_users : Z;
  seq_mailboxes : Z;
  seq_messages : Z;
  seq_attachments : Z
}.

Record DB : Type := mkDB {
  backend : Backend;
  pragma_foreign_keys : bool;
  budget : option nat;
  tables : Tables;
  seqs : Sequences
}.

Definition fk_enforced (db : DB) : bool :=
  match backend db with
  | Postgres => true
  | SQLite => pragma_foreign_keys db
  end.

Definition healthy (db : DB) : Prop := budget db = None.

Definition set_tables (t : Tables) (db : DB) : DB :=
  mkDB (backend db) (pragma_foreign_keys db) (budget db) t (seqs db).

Definition set_seqs (s : Sequences) (db : DB) : DB :=
  mkDB (backend db) (pragma_foreign_keys db) (budget db) (tables db) s.

Definition set_budget (b : option nat) (db : DB) : DB :=
  mkDB (backend db) (pragma_foreign_keys db) b (tables db) (seqs db).

Definition set_users (v : list User) (t : Tables) : Tables :=
  mkTables v (mailboxes t) (messages t) (attachments t).
Definition set_mailboxes (v : list Mailbox) (t : Tables) : Tables :=
  mkTables (users t) v (messages t) (attachments t).
Definition set_messages (v : list Message) (t : Tables) : Tables :=
  mkTables (users t) (mailboxes t) v (attachments t).
Definition set_attachments (v : list Attachment) (t : Tables) : Tables :=
  mkTables (users t) (mailboxes t) (messages t) v.

Definition empty_tables : Tables := mkTables [] [] [] [].
Definition fresh_seqs : Sequences := mkSequences 0 0 0 0.

(** The handle after [NewSQLiteStorage] and [Open], and after
    [NewPostgresStorage] and [Open], on a new database.  [Open] of the
    SQLite storage calls [sql.Open("sqlite3", s.path)] with the bare path
    and runs only the [CREATE TABLE] statements, so the foreign-key
    switch keeps its default. *)
Definition OpenSQLite : DB := mkDB SQLite false None empty_tables fresh_seqs.
Definition OpenPostgres : DB := mkDB Postgres true None empty_tables fresh_seqs.

(** ** The state-and-error monad of the storage methods *)

Definition M (A : Type) : Type := DB -> res A * DB.

Definition ret {A : Type} (a : A) : M A := fun db => (Ok a, db).
Definition fail {A : Type} (e : error) : M A := fun db => (Err e, db).

Definition bind {A B : Type} (m : M A) (k : A -> M B) : M B :=
  fun db =>
    match m db with
    | (Ok a, db') => k a db'
    | (Err e, db') => (Err e, db')
    end.

(** [if err != nil { return fmt.Errorf(msg, err) }]. *)
Definition wrap {A : Type} (msg : string) (m : M A) : M A :=
  fun db =>
    match m db with
    | (Ok a, db') => (Ok a, db')
    | (Err e, db') => (Err (Wrap msg e), db')
    end.

End storage.

Declare Scope store_scope.
Delimit Scope store_scope with store.
Notation "x <- m ;; k" := (storage.bind m (fun x => k))
  (at level 100, m at next level, right associativity) : store_scope.
Notation "m ;;; k" := (storage.bind m (fun _ => k))
  (at level 100, right associativity) : store_scope.

Local Open Scope store_scope.

(** ** The SQL statements of the storage code, as the engine runs them *)

Module sql.
Import storage.

(** One statement sent over the connection. *)
Definition Exec {A : Type} (q : DB -> res A * DB) : M A :=
  fun db =>
    match budget db with
    | Some O => (Err ConnectionFailure, db)
    | Some (S n) => q (set_budget (Some n) db)
    | None => q db
    end.

Definition bump_users (s : Sequences) : Sequences :=
  mkSequences (seq_users s + 1) (seq_mailboxes s) (seq_messages s)
              (seq_attachments s).
Definition bump_mailboxes (s : Sequences) : Sequences :=
  mkSequences (seq_users s) (seq_mailboxes s + 1) (seq_messages s)
              (seq_attachments s).
Definition bump_messages (s : Sequences) : Sequences :=
  mkSequences (seq_users s) (seq_mailboxes s) (seq_messages s + 1)
              (seq_attachments s).
Definition bump_attachments (s : Sequences) : Sequences :=
  mkSequences (seq_users s) (seq_mailboxes s) (seq_messages s)
              (seq_attachments s + 1).

(** An [INSERT] that violates a constraint: no row is written. *)
Definition rejected {A : Type} (bump : Sequences -> Sequences) (e : error)
           (db : DB) : res A * DB :=
  (Err e,
   match backend db with
   | Postgres => set_seqs (bump (seqs db)) db
   | SQLite => db
   end).

Definition accepted (bump : Sequences -> Sequences) (id : Z) (t : Tables)
           (db : DB) : res Z * DB :=
  (Ok id, set_seqs (bump (seqs db)) (set_tables t db)).

Definition mem (x : Z) (xs : list Z) : bool := existsb (Z.eqb x) xs.

(** [INSERT INTO users (username, password, name, email, created, updated)].
    When the row violates both [UNIQUE] constraints the engine names the
    one it checks first: SQLite [users.email], PostgreSQL the index that
    was created first, [users.username]. *)
Definition insert_user (u : User) (db : DB) : res Z * DB :=
  let t := tables db in
  let name_taken :=
    existsb (fun r => String.eqb (Username r) (Username u)) (users t) in
  let email_taken :=
    existsb (fun r => String.eqb (Email r) (Email u)) (users t) in
  if name_taken || email_taken then
    rejected bump_users
             (UniqueViolation
                match backend db with
                | SQLite => if email_taken then "users.email" else "users.username"
                | Postgres => if name_taken then "users.username" else "users.email"
                end) db
  else
    let id := seq_users (seqs db) + 1 in
    accepted bump_users id (set_users (users t ++ [User_set_ID id u]) t) db.

(** [INSERT INTO mailboxes (user_id, name, path)] *)
Definition insert_mailbox (m : Mailbox) (db : DB) : res Z * DB :=
  let t := tables db in
  if existsb (fun r => (UserID r =? UserID m) && String.eqb (Name r) (Name m))
             (mailboxes t) then
    rejected bump_mailboxes (UniqueViolation "mailboxes.user_id, mailboxes.name") db
  else if fk_enforced db && negb (mem (UserID m) (map User_ID (users t))) then
    rejected bump_mailboxes (ForeignKeyViolation "mailboxes.user_id") db
  else
    let id := seq_mailboxes (seqs db) + 1 in
    accepted bump_mailboxes id
             (set_mailboxes (mailboxes t ++ [Mailbox_set_ID id m]) t) db.

(** [INSERT INTO messages (mailbox_id, uid, from_addr, ..., created)] *)
Definition insert_message (m : Message) (db : DB) : res Z * DB :=
  let t := tables db in
  if existsb (fun r => (MailboxID r =? MailboxID m) && (UID r =? UID m))
             (messages t) then
    rejected bump_messages (UniqueViolation "messages.mailbox_id, messages.uid") db
  else if fk_enforced db
          && negb (mem (MailboxID m) (map Mailbox_ID (mailboxes t))) then
    rejected bump_messages (ForeignKeyViolation "messages.mailbox_id") db
  else
    let id := seq_messages (seqs db) + 1 in
    accepted bump_messages id
             (set_messages (messages t ++ [Message_set_ID id m]) t) db.

(** [INSERT INTO attachments (message_id, filename, ..., created)] *)
Definition insert_attachment (a : Attachment) (db : DB) : res Z * DB :=
  let t := tables db in
  if fk_enforced db && negb (mem (MessageID a) (map ID (messages t))) then
    rejected bump_attachments (ForeignKeyViolation "attachments.message_id") db
  else
    let id := seq_attachments (seqs db) + 1 in
    accepted bump_attachments id
             (set_attachments (attachments t ++ [Attachment_set_ID id a]) t) db.

(** [SELECT ... FROM users WHERE username = ?], first row. *)
Definition select_user (username : string) (db : DB) : res (option User) * DB :=
  (Ok (find (fun r => String.eqb (Username r) username) (users (tables db))), db).

(** [SELECT ... FROM mailboxes WHERE user_id = ? AND name = ?], first row. *)
Definition select_mailbox (userID : Z) (name : string) (db : DB)
  : res (option Mailbox) * DB :=
  (Ok (find (fun r => (UserID r =? userID) && String.eqb (Name r) name)
            (mailboxes (tables db))), db).

(** The order of an index on [name]: bytewise, rows with equal names in
    table order. *)
Fixpoint insert_by_name (m : Mailbox) (sorted : list Mailbox) : list Mailbox :=
  match sorted with
  | [] => [m]
  | x :: rest =>
      if String.leb (Name m) (Name x) then m :: x :: rest
      else x :: insert_by_name m rest
  end.

Definition order_by_name (rows : list Mailbox) : list Mailbox :=
  fold_right insert_by_name [] rows.

(** The order in which a query without [ORDER BY] yields the mailboxes of
    one user.  SQLite answers [WHERE user_id = ?] from the index of
    [UNIQUE(user_id, name)], so the rows come by name; PostgreSQL promises
    no order, and the rows are given as the table has them. *)
Definition scan_mailboxes (b : Backend) (rows : list Mailbox) : list Mailbox :=
  match b with
  | SQLite => order_by_name rows
  | Postgres => rows
  end.

(** [SELECT ... FROM mailboxes WHERE user_id = ?] *)
Definition select_mailboxes (userID : Z) (db : DB) : res (list Mailbox) * DB :=
  (Ok (scan_mailboxes (backend db)
                      (filter (fun r => UserID r =? userID) (mailboxes (tables db)))),
   db).

(** [ORDER BY uid]: rows with equal [uid] keep their table order. *)
Fixpoint insert_by_uid (m : Message) (sorted : list Message) : list Message :=
  match sorted with
  | [] => [m]
  | x :: rest =>
      if UID m <=? UID x then m :: x :: rest else x :: insert_by_uid m rest
  end.

Definition order_by_uid (rows : list Message) : list Message :=
  fold_right insert_by_uid [] rows.

Definition in_mailbox (mailboxID : Z) (m : Message) : bool :=
  MailboxID m =? mailboxID.

(** [SELECT ... FROM messages WHERE mailbox_id = ? ORDER BY uid] *)
Definition rows_of_mailbox (mailboxID : Z) (t : Tables) : list Message :=
  order_by_uid (filter (in_mailbox mailboxID) (messages t)).

Definition select_messages (mailboxID : Z) (db : DB) : res (list Message) * DB :=
  (Ok (rows_of_mailbox mailboxID (tables db)), db).

(** [SELECT ... FROM messages WHERE mailbox_id = ? AND uid = ?], first row. *)
Definition select_message (mailboxID uid : Z) (db : DB)
  : res (option Message) * DB :=
  (Ok (find (fun r => (MailboxID r =? mailboxID) && (UID r =? uid))
            (messages (tables db))), db).

(** [SELECT ... FROM attachments WHERE message_id = ?] *)
Definition select_attachments (messageID : Z) (db : DB)
  : res (list Attachment) * DB :=
  (Ok (filter (fun r => MessageID r =? messageID) (attachments (tables db))), db).

(** [UPDATE messages SET flags = ?, seen = ?, deleted = ?, draft = ?
     WHERE id = ?] *)
Definition write_flags (messageID : Z) (flags : string)
           (seen deleted draft : bool) (t : Tables) : Tables :=
  set_messages
    (map (fun r => if ID r =? messageID
                   then Message_set_flags flags seen deleted draft r
                   else r)
         (messages t)) t.

Definition update_flags (messageID : Z) (flags : string)
           (seen deleted draft : bool) (db : DB) : res unit * DB :=
  (Ok tt, set_tables (write_flags messageID flags seen deleted draft (tables db)) db).

(** [DELETE]: the rows chosen by the [WHERE] clause go, and with foreign
    keys enforced [ON DELETE CASCADE] takes the rows that reference them. *)
Definition drop_attachments (gone : Attachment -> bool) (t : Tables) : Tables :=
  set_attachments (filter (fun a => negb (gone a)) (attachments t)) t.

Definition drop_messages (fk : bool) (gone : Message -> bool) (t : Tables)
  : Tables :=
  let dead := map ID (filter gone (messages t)) in
  let t1 := set_messages (filter (fun m => negb (gone m)) (messages t)) t in
  if fk then drop_attachments (fun a => mem (MessageID a) dead) t1 else t1.

Definition drop_mailboxes (fk : bool) (gone : Mailbox -> bool) (t : Tables)
  : Tables :=
  let dead := map Mailbox_ID (filter gone (mailboxes t)) in
  let t1 := set_mailboxes (filter (fun m => negb (gone m)) (mailboxes t)) t in
  if fk then drop_messages fk (fun m => mem (MailboxID m) dead) t1 else t1.

Definition drop_users (fk : bool) (gone : User -> bool) (t : Tables) : Tables :=
  let dead := map User_ID (filter gone (users t)) in
  let t1 := set_users (filter (fun u => negb (gone u)) (users t)) t in
  if fk then drop_mailboxes fk (fun m => mem (UserID m) dead) t1 else t1.

(** [DELETE FROM users WHERE id = ?] *)
Definition delete_user (userID : Z) (db : DB) : res unit * DB :=
  (Ok tt, set_tables (drop_users (fk_enforced db)
                                 (fun u => User_ID u =? userID) (tables db)) db).

(** [DELETE FROM mailboxes WHERE id = ?] *)
Definition delete_mailbox (mailboxID : Z) (db : DB) : res unit * DB :=
  (Ok tt, set_tables (drop_mailboxes (fk_enforced db)
                                     (fun m => Mailbox_ID m =? mailboxID)
                                     (tables db)) db).

(** [DELETE FROM messages WHERE id = ?] *)
Definition delete_message (messageID : Z) (db : DB) : res unit * DB :=
  (Ok tt, set_tables (drop_messages (fk_enforced db)
                                    (fun m => ID m =? messageID)
                                    (tables db)) db).

(** [DELETE FROM attachments WHERE id = ?] *)
Definition delete_attachment (attachmentID : Z) (db : DB) : res unit * DB :=
  (Ok tt, set_tables (drop_attachments (fun a => Attachment_ID a =? attachmentID)
                                       (tables db)) db).

(** The row that [UPDATE users SET password = ?, name = ?, email = ?,
    updated = ? WHERE id = ?] leaves in place of [r]. *)
Definition User_rewrite (u r : User) : User :=
  mkUser (User_ID r) (Username r) (Password u) (User_Name u) (Email u)
         (User_Created r) (Updated u).

(** [UPDATE users ... WHERE id = ?]: refused, with no row changed, when a
    row is addressed and another row already has the new email. *)
Definition update_user (u : User) (db : DB) : res unit * DB :=
  let t := tables db in
  let hit := fun r => User_ID r =? User_ID u in
  if existsb hit (users t)
     && existsb (fun r => negb (hit r) && String.eqb (Email r) (Email u)) (users t)
  then (Err (UniqueViolation "users.email"), db)
  else (Ok tt,
        set_tables (set_users (map (fun r => if hit r then User_rewrite u r else r)
                                   (users t)) t) db).

(** The row that [UPDATE mailboxes SET name = ?, path = ? WHERE id = ?]
    leaves in place of [r]: [user_id] is not assigned. *)
Definition Mailbox_rewrite (m r : Mailbox) : Mailbox :=
  mkMailbox (Mailbox_ID r) (UserID r) (Name m) (Path m).

(** [UPDATE mailboxes ... WHERE id = ?]: refused, with no row changed, when
    another row of the same user already has the new name. *)
Definition update_mailbox (m : Mailbox) (db : DB) : res unit * DB :=
  let t := tables db in
  let hit := fun r => Mailbox_ID r =? Mailbox_ID m in
  if existsb (fun r => hit r
                       && existsb (fun r' => negb (hit r')
                                             && (UserID r' =? UserID r)
                                             && String.eqb (Name r') (Name m))
                                  (mailboxes t))
             (mailboxes t)
  then (Err (UniqueViolation "mailboxes.user_id, mailboxes.name"), db)
  else (Ok tt,
        set_tables (set_mailboxes
                      (map (fun r => if hit r then Mailbox_rewrite m r else r)
                           (mailboxes t)) t) db).

End sql.

(** ** storage/sqlite.go and storage/postgres.go

    The methods of [SQLiteStorage] and of [PostgresStorage] send the same
    statements in the same order and wrap errors with the same messages;
    they differ in the placeholder syntax and in how the new id comes back
    ([LastInsertId] against [RETURNING id]).  One definition per method
    serves both, the engine being a field of the handle. *)

Module Storage.
Import storage sql.

Definition default_mailboxes : list string := ["INBOX"; "Sent"; "Drafts"; "Trash"].

Definition CreateMailbox (mailbox : Mailbox) : M Mailbox :=
  id <- wrap "falha ao criar caixa de correio" (Exec (insert_mailbox mailbox)) ;;
  ret (Mailbox_set_ID id mailbox).

(** [for _, name := range []string{...} { ... s.CreateMailbox(mailbox) ... }] *)
Fixpoint create_defaults (userID : Z) (names : list string) : M unit :=
  match names with
  | [] => ret tt
  | name :: rest =>
      wrap "falha ao criar caixa de correio padrão"
           (CreateMailbox (mkMailbox 0 userID name name)) ;;;
      create_defaults userID rest
  end.

Definition CreateUser (now : time.Time) (user : User) : M User :=
  let user := User_set_times now user in
  id <- wrap "falha ao criar usuário" (Exec (insert_user user)) ;;
  let user := User_set_ID id user in
  create_defaults (User_ID user) default_mailboxes ;;;
  ret user.

Definition GetUser (username : string) : M User :=
  row <- wrap "falha ao obter usuário" (Exec (select_user username)) ;;
  match row with
  | None => fail ErrUserNotFound
  | Some user => ret user
  end.

Definition DeleteUser (userID : Z) : M unit :=
  wrap "falha ao excluir usuário" (Exec (delete_user userID)).

Definition AuthenticateUser (username password : string) : M User :=
  user <- GetUser username ;;
  if negb (String.eqb (Password user) password)
  then fail (Errorf "senha inválida")
  else ret user.

Definition GetMailbox (userID : Z) (name : string) : M Mailbox :=
  row <- wrap "falha ao obter caixa de correio" (Exec (select_mailbox userID name)) ;;
  match row with
  | None => fail ErrMailboxNotFound
  | Some mailbox => ret mailbox
  end.

Definition ListMailboxes (userID : Z) : M (list Mailbox) :=
  wrap "falha ao listar caixas de correio" (Exec (select_mailboxes userID)).

Definition DeleteMailbox (mailboxID : Z) : M unit :=
  wrap "falha ao excluir caixa de correio" (Exec (delete_mailbox mailboxID)).

Definition CreateMessage (now : time.Time) (message : Message) : M Message :=
  let message := Message_set_Created now message in
  id <- wrap "falha ao criar mensagem" (Exec (insert_message message)) ;;
  ret (Message_set_ID id message).

Definition GetMessage (mailboxID uid : Z) : M Message :=
  row <- wrap "falha ao obter mensagem" (Exec (select_message mailboxID uid)) ;;
  match row with
  | None => fail ErrMessageNotFound
  | Some message => ret message
  end.

Definition ListMessages (mailboxID : Z) : M (list Message) :=
  wrap "falha ao listar mensagens" (Exec (select_messages mailboxID)).

Definition UpdateMessageFlags (messageID : Z) (flags : string)
           (seen deleted draft : bool) : M unit :=
  wrap "falha ao atualizar flags da mensagem"
       (Exec (update_flags messageID flags seen deleted draft)).

Definition DeleteMessage (messageID : Z) : M unit :=
  wrap "falha ao excluir mensagem" (Exec (delete_message messageID)).

Definition CreateAttachment (now : time.Time) (attachment : Attachment)
  : M Attachment :=
  let attachment := Attachment_set_Created now attachment in
  id <- wrap "falha ao criar anexo" (Exec (insert_attachment attachment)) ;;
  ret (Attachment_set_ID id attachment).

Definition GetAttachments (messageID : Z) : M (list Attachment) :=
  wrap "falha ao obter anexos" (Exec (select_attachments messageID)).

Definition DeleteAttachment (attachmentID : Z) : M unit :=
  wrap "falha ao excluir anexo" (Exec (delete_attachment attachmentID)).

Definition User_set_Updated (now : time.Time) (u : User) : User :=
  mkUser (User_ID u) (Username u) (Password u) (User_Name u) (Email u)
         (User_Created u) now.

Definition UpdateUser (now : time.Time) (user : User) : M User :=
  let user := User_set_Updated now user in
  wrap "falha ao atualizar usuário" (Exec (update_user user)) ;;;
  ret user.

Definition UpdateMailbox (mailbox : Mailbox) : M unit :=
  wrap "falha ao atualizar caixa de correio" (Exec (update_mailbox mailbox)).

End Storage.

(** ** The IMAP library types the adapter is written against

    [server/imap.go] uses these types of [github.com/emersion/go-imap]; only
    the fields and methods the adapter touches are given.  A [SeqSet] is a
    list of ranges [Start:Stop], [Stop = 0] standing for [*]; [Contains]
    never holds of the number 0.  [SearchCriteria] has the fields that
    [SearchMessages] reads. *)

Module imap.

Record Seq : Type := mkSeq { Start : Z; Stop : Z }.
Definition SeqSet : Type := list Seq.

Definition Seq_Contains (s : Seq) (q : Z) : bool :=
  negb (Start s =? 0) && (Start s <=? q) && ((q <=? Stop s) || (Stop s =? 0)).

Definition Contains (s : SeqSet) (q : Z) : bool :=
  existsb (fun r => Seq_Contains r q) s && negb (q =? 0).

Definition StatusItem : Type := string.
Definition StatusMessages : StatusItem := "MESSAGES".
Definition StatusRecent : StatusItem := "RECENT".
Definition StatusUidNext : StatusItem := "UIDNEXT".
Definition StatusUidValidity : StatusItem := "UIDVALIDITY".
Definition StatusUnseen : StatusItem := "UNSEEN".

Record MailboxStatus : Type := mkMailboxStatus {
  Status_Name : string;
  Messages : Z;
  Recent : Z;
  Unseen : Z;
  UidNext : Z;
  UidValidity : Z
}.

Definition FetchItem : Type := string.
Definition FetchEnvelope : FetchItem := "ENVELOPE".
Definition FetchBody : FetchItem := "BODY".
Definition FetchBodyStructure : FetchItem := "BODYSTRUCTURE".
Definition FetchFlags : FetchItem := "FLAGS".
Definition FetchInternalDate : FetchItem := "INTERNALDATE".
Definition FetchRFC822Size : FetchItem := "RFC822.SIZE".
Definition FetchUid : FetchItem := "UID".

Definition SeenFlag : string := "\Seen".
Definition DeletedFlag : string := "\Deleted".
Definition DraftFlag : string := "\Draft".

Record Address : Type := mkAddress {
  PersonalName : string;
  AtDomainList : string;
  MailboxName : string;
  HostName : string
}.

Record Envelope : Type := mkEnvelope {
  Envelope_Date : time.Time;
  Envelope_Subject : string;
  Envelope_From : list Address;
  Envelope_To : list Address;
  MessageId : string
}.

Record BodyStructure : Type := mkBodyStructure {
  MIMEType : string;
  MIMESubType : string;
  BodyStructure_Size : Z
}.

(** The values stored under [Items[item]], an [interface{}] in Go. *)
Inductive FetchValue : Type :=
| OfEnvelope (e : Envelope)
| OfBodyStructure (b : BodyStructure)
| OfFlags (flags : list string)
| OfTime (t : time.Time)
| OfInt (n : Z)
| OfInt64 (n : Z).

(** [map[imap.FetchItem]interface{}]: one entry per key. *)
Definition ItemMap : Type := list (FetchItem * FetchValue).

Fixpoint put (k : FetchItem) (v : FetchValue) (m : ItemMap) : ItemMap :=
  match m with
  | [] => [(k, v)]
  | (k', v') :: rest =>
      if String.eqb k' k then (k, v) :: rest else (k', v') :: put k v rest
  end.

Fixpoint get (k : FetchItem) (m : ItemMap) : option FetchValue :=
  match m with
  | [] => None
  | (k', v') :: rest => if String.eqb k' k then Some v' else get k rest
  end.

Record Message : Type := mkMessage {
  SeqNum : Z;
  Uid : Z;
  Items : ItemMap
}.

Record SearchCriteria : Type := mkSearchCriteria {
  Criteria_SeqNum : option SeqSet;
  Criteria_Uid : option SeqSet;
  Since : time.Time;
  Before : time.Time;
  Criteria_Seen : bool;
  Criteria_Unseen : bool;
  Criteria_Deleted : bool;
  Criteria_Undeleted : bool;
  Criteria_Draft : bool;
  Criteria_Undraft : bool;
  Header : option (list (string * string));
  Criteria_Body : option (list string);
  Text : option (list string)
}.

Inductive FlagsOp : Type := SetFlags | AddFlags | RemoveFlags.

End imap.

(** ** server/imap.go *)

Module IMAPMailbox.
Import storage.

(** [fmt.Sprintf("%d", n)]. *)
Definition Sprintf_d (n : Z) : string :=
  DecimalString.NilZero.string_of_int (Z.to_int n).

(** [for _, msg := range messages { if !msg.Seen { unseen++ } }] *)
Definition count_unseen (messages : list Message) : Z :=
  fold_left (fun unseen msg => if negb (Seen msg) then unseen + 1 else unseen)
            messages 0.

(** One pass of the [switch item] of [Status]. *)
Definition status_item (messages : list Message) (status : imap.MailboxStatus)
           (item : imap.StatusItem) : imap.MailboxStatus :=
  let '(imap.mkMailboxStatus name msgs recent unseen uidNext uidValidity) := status in
  if String.eqb item imap.StatusMessages then
    imap.mkMailboxStatus name (Go.uint32 (Go.len messages)) recent unseen
                         uidNext uidValidity
  else if String.eqb item imap.StatusRecent then
    imap.mkMailboxStatus name msgs 0 unseen uidNext uidValidity
  else if String.eqb item imap.StatusUnseen then
    imap.mkMailboxStatus name msgs recent (Go.uint32 (count_unseen messages))
                         uidNext uidValidity
  else if String.eqb item imap.StatusUidNext then
    imap.mkMailboxStatus name msgs recent unseen
                         (Go.uint32 (Go.len messages + 1)) uidValidity
  else if String.eqb item imap.StatusUidValidity then
    imap.mkMailboxStatus name msgs recent unseen uidNext 1
  else status.

Definition Status (m : Mailbox) (items : list imap.StatusItem)
  : M imap.MailboxStatus :=
  messages <- wrap "falha ao listar mensagens" (Storage.ListMessages (Mailbox_ID m)) ;;
  ret (fold_left (status_item messages) items
                 (imap.mkMailboxStatus (Name m) 0 0 0 0 0)).

(** The [flags] slice built under [case imap.FetchFlags]. *)
Definition symbolic_flags (msg : Message) : list string :=
  (if Seen msg then [imap.SeenFlag] else [])
    ++ (if Deleted msg then [imap.DeletedFlag] else [])
    ++ (if Draft msg then [imap.DraftFlag] else []).

(** One pass of the [switch item] of [ListMessages]. *)
Definition fetch_item (msg : Message) (acc : imap.ItemMap) (item : imap.FetchItem)
  : imap.ItemMap :=
  if String.eqb item imap.FetchEnvelope then
    imap.put item
      (imap.OfEnvelope
         (imap.mkEnvelope (Date msg) (Subject msg)
                          [imap.mkAddress (From msg) "" "" ""]
                          [imap.mkAddress (To msg) "" "" ""]
                          (Sprintf_d (ID msg)))) acc
  else if String.eqb item imap.FetchBody || String.eqb item imap.FetchBodyStructure then
    imap.put item
      (imap.OfBodyStructure
         (imap.mkBodyStructure "text" "plain"
                               (Go.uint32 (Z.of_nat (String.length (Body msg)))))) acc
  else if String.eqb item imap.FetchFlags then
    imap.put item (imap.OfFlags (symbolic_flags msg)) acc
  else if String.eqb item imap.FetchInternalDate then
    imap.put item (imap.OfTime (Date msg)) acc
  else if String.eqb item imap.FetchRFC822Size then
    imap.put item (imap.OfInt (Size msg)) acc
  else if String.eqb item imap.FetchUid then
    imap.put item (imap.OfInt64 (ID msg)) acc
  else acc.

(** The body of [for i, msg := range messages] in [ListMessages], from
    index [i] on; the result is what is sent on [ch], in order. *)
Fixpoint list_loop (i : Z) (messages : list Message) (seqSet : imap.SeqSet)
         (items : list imap.FetchItem) : list imap.Message :=
  match messages with
  | [] => []
  | msg :: rest =>
      let seqNum := Go.uint32 (i + 1) in
      if imap.Contains seqSet seqNum then
        imap.mkMessage seqNum (Go.uint32 (ID msg))
                       (fold_left (fetch_item msg) items [])
          :: list_loop (i + 1) rest seqSet items
      else list_loop (i + 1) rest seqSet items
  end.

Definition ListMessages (m : Mailbox) (uid : bool) (seqSet : imap.SeqSet)
           (items : list imap.FetchItem) : M (list imap.Message) :=
  messages <- wrap "falha ao listar mensagens" (Storage.ListMessages (Mailbox_ID m)) ;;
  ret (list_loop 0 messages seqSet items).

Definition is_set (s : option imap.SeqSet) : bool :=
  match s with Some _ => true | None => false end.

Definition contains (s : option imap.SeqSet) (q : Z) : bool :=
  match s with Some set => imap.Contains set q | None => false end.

(** The six [if criteria.X && ...] tests that clear [matches]. *)
Definition flags_match (criteria : imap.SearchCriteria) (msg : Message) : bool :=
  let matches := true in
  let matches := if imap.Criteria_Seen criteria && negb (Seen msg)
                 then false else matches in
  let matches := if imap.Criteria_Unseen criteria && Seen msg
                 then false else matches in
  let matches := if imap.Criteria_Deleted criteria && negb (Deleted msg)
                 then false else matches in
  let matches := if imap.Criteria_Undeleted criteria && Deleted msg
                 then false else matches in
  let matches := if imap.Criteria_Draft criteria && negb (Draft msg)
                 then false else matches in
  let matches := if imap.Criteria_Undraft criteria && Draft msg
                 then false else matches in
  matches.

(** The body of [for i, msg := range messages] in [SearchMessages]:
    [true] when no [continue] is taken. *)
Definition selected (criteria : imap.SearchCriteria) (seqNum : Z) (msg : Message)
  : bool :=
  if is_set (imap.Criteria_SeqNum criteria)
     && negb (contains (imap.Criteria_SeqNum criteria) seqNum) then false
  else if is_set (imap.Criteria_Uid criteria)
          && negb (contains (imap.Criteria_Uid criteria) (Go.uint32 (ID msg)))
  then false
  else if negb (time.eqb (imap.Since criteria) time.zero)
          && time.Before (Date msg) (imap.Since criteria) then false
  else if negb (time.eqb (imap.Before criteria) time.zero)
          && time.After (Date msg) (imap.Before criteria) then false
  else flags_match criteria msg.

Fixpoint search_loop (i : Z) (messages : list Message) (uid : bool)
         (criteria : imap.SearchCriteria) : list Z :=
  match messages with
  | [] => []
  | msg :: rest =>
      let seqNum := Go.uint32 (i + 1) in
      if selected criteria seqNum msg then
        (if uid then Go.uint32 (ID msg) else seqNum)
          :: search_loop (i + 1) rest uid criteria
      else search_loop (i + 1) rest uid criteria
  end.

Definition SearchMessages (m : Mailbox) (uid : bool)
           (criteria : imap.SearchCriteria) : M (list Z) :=
  messages <- wrap "falha ao listar mensagens" (Storage.ListMessages (Mailbox_ID m)) ;;
  ret (search_loop 0 messages uid criteria).

(** [for _, flag := range flags { switch flag { ... } }] on the three
    locals [seen], [deleted], [draft]. *)
Definition raise_flag (st : bool * bool * bool) (flag : string)
  : bool * bool * bool :=
  let '(seen, deleted, draft) := st in
  if String.eqb flag imap.SeenFlag then (true, deleted, draft)
  else if String.eqb flag imap.DeletedFlag then (seen, true, draft)
  else if String.eqb flag imap.DraftFlag then (seen, deleted, true)
  else st.

Fixpoint flags_loop (i : Z) (messages : list Message) (seqSet : imap.SeqSet)
         (flags : list string) : M unit :=
  match messages with
  | [] => ret tt
  | msg :: rest =>
      let seqNum := Go.uint32 (i + 1) in
      (if imap.Contains seqSet seqNum then
         let '(seen, deleted, draft) :=
           fold_left raise_flag flags (Seen msg, Deleted msg, Draft msg) in
         wrap "falha ao atualizar flags"
              (Storage.UpdateMessageFlags (ID msg) "" seen deleted draft)
       else ret tt) ;;;
      flags_loop (i + 1) rest seqSet flags
  end.

Definition UpdateMessagesFlags (m : Mailbox) (uid : bool) (seqSet : imap.SeqSet)
           (operation : imap.FlagsOp) (flags : list string) : M unit :=
  messages <- wrap "falha ao listar mensagens" (Storage.ListMessages (Mailbox_ID m)) ;;
  flags_loop 0 messages seqSet flags.

Fixpoint expunge_loop (messages : list Message) : M unit :=
  match messages with
  | [] => ret tt
  | msg :: rest =>
      (if Deleted msg then
         wrap "falha ao excluir mensagem" (Storage.DeleteMessage (ID msg))
       else ret tt) ;;;
      expunge_loop rest
  end.

Definition Expunge (m : Mailbox) : M unit :=
  messages <- wrap "falha ao listar mensagens" (Storage.ListMessages (Mailbox_ID m)) ;;
  expunge_loop messages.

(** [IMAPMailbox.CreateMessage] and [IMAPMailbox.CopyMessages]: both return
    [nil] without a call to the store. *)
Definition CreateMessage (m : Mailbox) (flags : list string) (date : time.Time)
           (body : list byte) : M unit := ret tt.

Definition CopyMessages (m : Mailbox) (uid : bool) (seqSet : imap.SeqSet)
           (destName : string) : M unit := ret tt.

End IMAPMailbox.

(** [IMAPBackend] and [IMAPUser].  An [IMAPUser] is the [storage.User] it
    holds and an [IMAPMailbox] the [storage.Mailbox] it holds; the backend
    pointer they carry is the store that the monad threads. *)

Module IMAPBackend.
Import storage.

Definition Login (username password : string) : M User :=
  wrap "autenticação falhou" (Storage.AuthenticateUser username password).

End IMAPBackend.

Module IMAPUser.
Import storage.

Definition Username (u : User) : string := storage.Username u.

Definition ListMailboxes (u : User) (subscribed : bool) : M (list Mailbox) :=
  wrap "falha ao listar caixas de entrada" (Storage.ListMailboxes (User_ID u)).

Definition GetMailbox (u : User) (name : string) : M Mailbox :=
  wrap "falha ao obter caixa de entrada" (Storage.GetMailbox (User_ID u) name).

Definition CreateMailbox (u : User) (name : string) : M unit :=
  Storage.CreateMailbox (mkMailbox 0 (User_ID u) name "") ;;;
  ret tt.

Definition DeleteMailbox (u : User) (name : string) : M unit :=
  mailbox <- wrap "falha ao obter caixa de entrada"
                  (Storage.GetMailbox (User_ID u) name) ;;
  Storage.DeleteMailbox (Mailbox_ID mailbox).

Definition RenameMailbox (u : User) (existingName newName : string) : M unit :=
  mailbox <- wrap "falha ao obter caixa de entrada"
                  (Storage.GetMailbox (User_ID u) existingName) ;;
  let mailbox := mkMailbox (Mailbox_ID mailbox) (UserID mailbox) newName
                           (Path mailbox) in
  Storage.UpdateMailbox mailbox.

Definition Logout (u : User) : M unit := ret tt.

End IMAPUser.

(** ** config/config.go *)

Module config.

Record SMTPConfig : Type := mkSMTPConfig {
  Address : string;
  Port : Z;
  Domain : string;
  AllowInsecure : bool;
  MaxMessageBytes : Z
}.

End config.

(** ** The SMTP library the submission adapter is written against

    [github.com/emersion/go-smtp] hands the message body to [Session.Data]
    as an [io.Reader].  When [Server.MaxMessageBytes] is positive the reader
    fails with [ErrDataTooLarge] once it has handed out that many bytes and
    is read again, so a body is accepted when it is shorter than
    [MaxMessageBytes]; [io.ReadAll] returns the reader's error. *)

Module smtp.

Record Server : Type := mkServer {
  Addr : string * Z;
  Server_Domain : string;
  ReadTimeout : Z;
  WriteTimeout : Z;
  MaxMessageBytes : Z;
  MaxRecipients : Z;
  AllowInsecureAuth : bool
}.

(** An [io.Reader] that has been read to its end: the bytes it gave and
    the error it ended with, if any. *)
Record Reader : Type := mkReader { content : list byte; failure : option error }.

Definition ReadAll (r : Reader) : res (list byte) :=
  match failure r with
  | Some e => Err e
  | None => Ok (content r)
  end.

Definition dataReader (s : Server) (payload : list byte) : Reader :=
  if (0 <? MaxMessageBytes s) && (MaxMessageBytes s <=? Go.len payload)
  then mkReader (firstn (Z.to_nat (MaxMessageBytes s)) payload) (Some ErrDataTooLarge)
  else mkReader payload None.

End smtp.

(** ** server/smtp.go *)

Module SMTPSession.
Import storage.

Record t : Type := mkSession {
  user : User;
  from : string;
  to : list string
}.

(** The session returned by [SMTPBackend.Login]. *)
Definition Login (username password : string) : M t :=
  u <- wrap "autenticação falhou" (Storage.AuthenticateUser username password) ;;
  ret (mkSession u "" []).

Definition Mail (sender : string) (s : t) : t := mkSession (user s) sender (to s).

Definition Rcpt (rcpt : string) (s : t) : t :=
  mkSession (user s) (from s) (to s ++ [rcpt]).

Definition Reset (s : t) : t := mkSession (user s) "" [].

(** [now] is the [time.Now()] of [Data], [created] that of
    [CreateMessage]. *)
Definition Data (now created : time.Time) (s : t) (r : smtp.Reader) : M unit :=
  match smtp.ReadAll r with
  | Err e => fail (Wrap "falha ao ler email" e)
  | Ok body =>
      mailbox <- wrap "falha ao obter caixa de entrada"
                      (Storage.GetMailbox (User_ID (user s)) "INBOX") ;;
      let msg :=
        mkMessage 0 (Mailbox_ID mailbox) 0 (from s) (Go.Join (to s) ",") "" ""
                  now (Go.string_of_bytes body) body "" (Go.len body)
                  false false false time.zero in
      wrap "falha ao salvar mensagem" (Storage.CreateMessage created msg) ;;;
      ret tt
  end.

(** The settings [StartSMTPServer] gives the server before it listens. *)
Definition StartSMTPServer (cfg : config.SMTPConfig) : smtp.Server :=
  smtp.mkServer (config.Address cfg, config.Port cfg) (config.Domain cfg)
                10 10 (1024 * 1024) 50 true.

(** A [DATA] command with the given body, as the server of
    [StartSMTPServer cfg] passes it to the session. *)
Definition submit (cfg : config.SMTPConfig) (now created : time.Time) (s : t)
           (payload : list byte) : M unit :=
  Data now created s (smtp.dataReader (StartSMTPServer cfg) payload).

End SMTPSession.

Module SMTPBackend.

(** [AnonymousLogin]: no session, whatever the state. *)
Definition AnonymousLogin : storage.M SMTPSession.t :=
  storage.fail (Errorf "login anônimo não permitido").

End SMTPBackend.

(** ** server/pop3.go *)

Module POP3Server.
Import storage.

Definition greeting : string :=
  String.append "+OK SimpleEmail POP3 server ready"
                (String (ascii_of_nat 13) (String (ascii_of_nat 10) "")).

(** The [for] loop of [handleConnection].  [reads] are the chunks that
    successive [conn.Read] calls return; once they are used up [Read]
    returns an error (the peer closed the connection) and the function
    returns.  Each chunk is converted to the string [cmd] and nothing is
    done with it. *)
Fixpoint command_loop (reads : list (list byte)) (db : DB) : DB :=
  match reads with
  | [] => db
  | chunk :: rest =>
      let cmd := Go.string_of_bytes chunk in
      command_loop rest db
  end.

(** The bytes written to the connection, and the store afterwards. *)
Definition handleConnection (reads : list (list byte)) (db : DB)
  : list string * DB :=
  ([greeting], command_loop reads db).

End POP3Server.

(** * Vocabulary of the statements *)

Import storage sql.

(** Ascending order of the stored [uid] column. *)
Definition uid_le (a b : Message) : Prop := UID a <= UID b.
Definition uid_lt (a b : Message) : Prop := UID a < UID b.

(** The two constraints of the [messages] table that the schema declares:
    [id] is the primary key and [(mailbox_id, uid)] is [UNIQUE]. *)
Definition message_key (m : Message) : Z * Z := (MailboxID m, UID m).

Definition wf (db : DB) : Prop :=
  NoDup (map ID (messages (tables db)))
  /\ NoDup (map message_key (messages (tables db))).

Fixpoint distinct {A : Type} (eqb : A -> A -> bool) (l : list A) : bool :=
  match l with
  | [] => true
  | x :: rest => negb (existsb (eqb x) rest) && distinct eqb rest
  end.

Definition key_eqb (a b : Z * Z) : bool :=
  (fst a =? fst b) && (snd a =? snd b).

Definition wfb (db : DB) : bool :=
  distinct Z.eqb (map ID (messages (tables db)))
  && distinct key_eqb (map message_key (messages (tables db))).

(** The store after a computation, and its outcome. *)
Definition after {A : Type} (m : M A) (db : DB) : DB := snd (m db).
Definition outcome {A : Type} (m : M A) (db : DB) : res A := fst (m db).

(** The row that [UPDATE messages SET flags = '', seen = ?, deleted = ?,
    draft = ?] leaves in place of [r] when the three values were computed
    from the listed message [msg] and the requested [flags]. *)
Definition written (flags : list string) (msg r : Message) : Message :=
  Message_set_flags ""
                    (Seen msg || Go.named imap.SeenFlag flags)
                    (Deleted msg || Go.named imap.DeletedFlag flags)
                    (Draft msg || Go.named imap.DraftFlag flags) r.

(** The effect on one row [r] of the updates that the loop of
    [UpdateMessagesFlags] sends for the listing [listing], numbered from
    [i + 1]. *)
Fixpoint retouch (seqSet : imap.SeqSet) (flags : list string) (i : Z)
         (listing : list Message) (r : Message) : Message :=
  match listing with
  | [] => r
  | msg :: rest =>
      retouch seqSet flags (i + 1) rest
              (if imap.Contains seqSet (Go.uint32 (i + 1)) && (ID r =? ID msg)
               then written flags msg r else r)
  end.

(** A listing paired with the sequence numbers the adapter's loops give it:
    [uint32(i + 1)] for the message at index [i]. *)
Fixpoint numbered (i : Z) (listing : list Message) : list (Z * Message) :=
  match listing with
  | [] => []
  | msg :: rest => (Go.uint32 (i + 1), msg) :: numbered (i + 1) rest
  end.

(** A row with another value in its [uid] column. *)
Definition with_UID (u : Z) (m : Message) : Message :=
  mkMessage (ID m) (MailboxID m) u (From m) (To m) (Cc m) (Subject m)
            (Date m) (Body m) (RawData m) (Flags m) (Size m)
            (Seen m) (Deleted m) (Draft m) (Created m).

(** The rows of the default mailboxes of user [userID], with ids from
    [first] on. *)
Fixpoint default_rows (userID first : Z) (names : list string) : list Mailbox :=
  match names with
  | [] => []
  | name :: rest =>
      mkMailbox first userID name name :: default_rows userID (first + 1) rest
  end.

(** What the engine maintains for the [messages] table: the two declared
    constraints, and no id beyond the last value of the id sequence. *)
Definition consistent (db : DB) : Prop :=
  wf db
  /\ Forall (fun m => ID m <= seq_messages (seqs db)) (messages (tables db)).

(** A computation that keeps the store consistent, whatever it returns. *)
Definition preserves {A : Type} (m : M A) : Prop :=
  forall db, consistent db -> consistent (after m db).

(** The fetch items that the [switch] of [ListMessages] has a case for. *)
Definition supported_items : list imap.FetchItem :=
  [imap.FetchEnvelope; imap.FetchBody; imap.FetchBodyStructure; imap.FetchFlags;
   imap.FetchInternalDate; imap.FetchRFC822Size; imap.FetchUid].

Definition present (k : imap.FetchItem) (m : imap.ItemMap) : bool :=
  match imap.get k m with Some _ => true | None => false end.

(** ** Stores reached by calls of the storage interface *)

(** One call of a method of the [Storage] interface, with its arguments. *)
Inductive call : Type :=
| CallCreateUser (now : time.Time) (user : User)
| CallGetUser (username : string)
| CallUpdateUser (now : time.Time) (user : User)
| CallDeleteUser (userID : Z)
| CallAuthenticateUser (username password : string)
| CallCreateMailbox (mailbox : Mailbox)
| CallGetMailbox (userID : Z) (name : string)
| CallListMailboxes (userID : Z)
| CallDeleteMailbox (mailboxID : Z)
| CallUpdateMailbox (mailbox : Mailbox)
| CallCreateMessage (now : time.Time) (message : Message)
| CallGetMessage (mailboxID uid : Z)
| CallListMessages (mailboxID : Z)
| CallUpdateMessageFlags (messageID : Z) (flags : string) (seen deleted draft : bool)
| CallDeleteMessage (messageID : Z)
| CallCreateAttachment (now : time.Time) (attachment : Attachment)
| CallGetAttachments (messageID : Z)
| CallDeleteAttachment (attachmentID : Z).

(** The store after the call, whether it returned an error or not. *)
Definition perform (c : call) (db : DB) : DB :=
  match c with
  | CallCreateUser now user => after (Storage.CreateUser now user) db
  | CallGetUser username => after (Storage.GetUser username) db
  | CallUpdateUser now user => after (Storage.UpdateUser now user) db
  | CallDeleteUser userID => after (Storage.DeleteUser userID) db
  | CallAuthenticateUser username password =>
      after (Storage.AuthenticateUser username password) db
  | CallCreateMailbox mailbox => after (Storage.CreateMailbox mailbox) db
  | CallGetMailbox userID name => after (Storage.GetMailbox userID name) db
  | CallListMailboxes userID => after (Storage.ListMailboxes userID) db
  | CallDeleteMailbox mailboxID => after (Storage.DeleteMailbox mailboxID) db
  | CallUpdateMailbox mailbox => after (Storage.UpdateMailbox mailbox) db
  | CallCreateMessage now message => after (Storage.CreateMessage now message) db
  | CallGetMessage mailboxID uid => after (Storage.GetMessage mailboxID uid) db
  | CallListMessages mailboxID => after (Storage.ListMessages mailboxID) db
  | CallUpdateMessageFlags messageID flags seen deleted draft =>
      after (Storage.UpdateMessageFlags messageID flags seen deleted draft) db
  | CallDeleteMessage messageID => after (Storage.DeleteMessage messageID) db
  | CallCreateAttachment now attachment =>
      after (Storage.CreateAttachment now attachment) db
  | CallGetAttachments messageID => after (Storage.GetAttachments messageID) db
  | CallDeleteAttachment attachmentID =>
      after (Storage.DeleteAttachment attachmentID) db
  end.

Definition run (calls : list call) (db : DB) : DB :=
  fold_left (fun d c => perform c d) calls db.

(** The uniqueness constraints of the schema, table by table, with no id
    beyond the last value of the table's sequence. *)
Definition mailbox_key (m : Mailbox) : Z * string := (UserID m, Name m).

Definition sound_users (db : DB) : Prop :=
  NoDup (map User_ID (users (tables db)))
  /\ NoDup (map Username (users (tables db)))
  /\ NoDup (map Email (users (tables db)))
  /\ Forall (fun u => User_ID u <= seq_users (seqs db)) (users (tables db)).

Definition sound_mailboxes (db : DB) : Prop :=
  NoDup (map Mailbox_ID (mailboxes (tables db)))
  /\ NoDup (map mailbox_key (mailboxes (tables db)))
  /\ Forall (fun m => Mailbox_ID m <= seq_mailboxes (seqs db)) (mailboxes (tables db)).

Definition sound_attachments (db : DB) : Prop :=
  NoDup (map Attachment_ID (attachments (tables db)))
  /\ Forall (fun a => Attachment_ID a <= seq_attachments (seqs db))
            (attachments (tables db)).

Definition sound (db : DB) : Prop :=
  sound_users db /\ sound_mailboxes db /\ consistent db /\ sound_attachments db.

(** Every row names an owner that is stored. *)
Definition integral (db : DB) : Prop :=
  (forall m, In m (mailboxes (tables db)) ->
             In (UserID m) (map User_ID (users (tables db))))
  /\ (forall m, In m (messages (tables db)) ->
                In (MailboxID m) (map Mailbox_ID (mailboxes (tables db))))
  /\ (forall a, In a (attachments (tables db)) ->
                In (MessageID a) (map ID (messages (tables db)))).

(** The same of a store whose engine enforces the foreign keys. *)
Definition referential (db : DB) : Prop := fk_enforced db = true /\ integral db.

(** A computation keeps a property of the store, whatever it returns. *)
Definition keeps (P : DB -> Prop) {A : Type} (m : M A) : Prop :=
  forall db, P db -> P (after m db).

(** One table is a selection of the other's rows. *)
Definition shrunk (t' t : Tables) : Prop :=
  exists ku kb km ka,
    t' = mkTables (filter ku (users t)) (filter kb (mailboxes t))
                  (filter km (messages t)) (filter ka (attachments t)).

(** * Sample stores *)

Definition alice : User :=
  mkUser 0 "alice" "secret" "Alice" "alice@example.org" time.zero time.zero.

Definition bob : User :=
  mkUser 0 "bob" "hunter2" "Bob" "bob@example.org" time.zero time.zero.

(** The [INBOX] of the first user created on a new database. *)
Definition inbox : Mailbox := mkMailbox 1 1 "INBOX" "INBOX".

Definition letter (mailboxID uid date : Z) : Message :=
  mkMessage 0 mailboxID uid "bob@example.org" "alice@example.org" "" "hello"
            (time.UTC date) "hi" [Byte.x68; Byte.x69] "" 2
            false false false time.zero.

(** [alice] with three messages in her [INBOX], stored with the uids 1, 2
    and 3. *)
Definition three_letters : DB :=
  Eval vm_compute in
    after (Storage.CreateUser (time.UTC 100) alice ;;;
           Storage.CreateMessage (time.UTC 1001) (letter 1 1 1000) ;;;
           Storage.CreateMessage (time.UTC 2001) (letter 1 2 2000) ;;;
           Storage.CreateMessage (time.UTC 3001) (letter 1 3 3000))
          OpenPostgres.

(** The same store once the client has set [\Deleted] on message 1. *)
Definition first_flagged : DB :=
  Eval vm_compute in
    after (IMAPMailbox.UpdateMessagesFlags inbox false [imap.mkSeq 1 1]
                                           imap.AddFlags [imap.DeletedFlag])
          three_letters.

(** [alice] alone, on each engine. *)
Definition alice_on_sqlite : DB :=
  Eval vm_compute in after (Storage.CreateUser (time.UTC 100) alice) OpenSQLite.

Definition alice_on_postgres : DB :=
  Eval vm_compute in after (Storage.CreateUser (time.UTC 100) alice) OpenPostgres.

(** The configuration of the README, and one with a limit of 1024 bytes. *)
Definition readme_config : config.SMTPConfig :=
  config.mkSMTPConfig "0.0.0.0" 25 "localhost" false 10485760.

Definition small_limit_config : config.SMTPConfig :=
  config.mkSMTPConfig "0.0.0.0" 25 "localhost" false 1024.

(** The submission session of [alice] after [MAIL FROM] and one [RCPT TO]. *)
Definition alice_session : SMTPSession.t :=
  SMTPSession.Rcpt "alice@example.org"
    (SMTPSession.Mail "bob@example.org"
       (SMTPSession.mkSession
          (mkUser 1 "alice" "secret" "Alice" "alice@example.org"
                  (time.UTC 100) (time.UTC 100)) "" [])).

Definition ten_bytes : list byte := repeat Byte.x61 10.

(** [alice] after one accepted submission at instant 200. *)
Definition one_letter : DB :=
  Eval vm_compute in
    after (SMTPSession.submit readme_config (time.UTC 200) (time.UTC 201)
                              alice_session ten_bytes)
          alice_on_sqlite.

(** [one_letter] with an attachment on the message. *)
Definition with_attachment : DB :=
  Eval vm_compute in
    after (Storage.CreateAttachment
             (time.UTC 250)
             (mkAttachment 0 1 "notes.txt" "text/plain" [Byte.x68; Byte.x69] 2
                           time.zero))
          one_letter.

(** A line of a POP3 client, ended by CR LF. *)
Definition line (s : string) : list byte :=
  list_byte_of_string s ++ [Byte.x0d; Byte.x0a].

Definition no_criteria : imap.SearchCriteria :=
  imap.mkSearchCriteria None None time.zero time.zero
                        false false false false false false None None None.

(** [BEFORE t] alone. *)
Definition before (t : time.Time) : imap.SearchCriteria :=
  imap.mkSearchCriteria None None time.zero t
                        false false false false false false None None None.

Definition all_status_items : list imap.StatusItem :=
  [imap.StatusMessages; imap.StatusUnseen; imap.StatusUidNext;
   imap.StatusUidValidity].

(** [SINCE t] alone. *)
Definition since (t : time.Time) : imap.SearchCriteria :=
  imap.mkSearchCriteria None None t time.zero
                        false false false false false false None None None.

(** Two messages stored through [CreateMessage] with the uids 2 and 1, in
    that order. *)
Definition uids_out_of_order : DB :=
  Eval vm_compute in
    after (Storage.CreateMessage (time.UTC 1001) (letter 1 2 1000) ;;;
           Storage.CreateMessage (time.UTC 2001) (letter 1 1 2000))
          alice_on_postgres.

(** The submission session of [bob], the second user created. *)
Definition bob_session : SMTPSession.t :=
  SMTPSession.Rcpt "bob@example.org"
    (SMTPSession.Mail "alice@example.org"
       (SMTPSession.mkSession
          (mkUser 2 "bob" "hunter2" "Bob" "bob@example.org"
                  (time.UTC 110) (time.UTC 110)) "" [])).

(** The [INBOX] of the second user created on a new database. *)
Definition inbox_of_bob : Mailbox := mkMailbox 5 2 "INBOX" "INBOX".

(** [alice] and [bob], one accepted submission each, [alice]'s first. *)
Definition one_letter_each : DB :=
  Eval vm_compute in
    after (Storage.CreateUser (time.UTC 100) alice ;;;
           Storage.CreateUser (time.UTC 110) bob ;;;
           SMTPSession.submit readme_config (time.UTC 200) (time.UTC 201)
                              alice_session ten_bytes ;;;
           SMTPSession.submit readme_config (time.UTC 300) (time.UTC 301)
                              bob_session ten_bytes)
          OpenSQLite.

(** [alice] on PostgreSQL with one message in her [INBOX] and one attachment
    on it. *)
Definition postgres_with_attachment : DB :=
  Eval vm_compute in
    after (Storage.CreateMessage (time.UTC 1001) (letter 1 1 1000) ;;;
           Storage.CreateAttachment
             (time.UTC 1002)
             (mkAttachment 0 1 "notes.txt" "text/plain" [Byte.x68; Byte.x69] 2
                           time.zero))
          alice_on_postgres.

(** [alice] on SQLite with three messages in her [INBOX], stored with the
    uids 3, 1 and 2 in that order (ids 1, 2 and 3), all with [\Deleted]
    set. *)
Definition all_flagged : DB :=
  Eval vm_compute in
    after (Storage.CreateMessage (time.UTC 1001) (letter 1 3 1000) ;;;
           Storage.CreateMessage (time.UTC 2001) (letter 1 1 2000) ;;;
           Storage.CreateMessage (time.UTC 3001) (letter 1 2 3000) ;;;
           IMAPMailbox.UpdateMessagesFlags inbox false [imap.mkSeq 1 0]
                                           imap.AddFlags [imap.DeletedFlag])
          alice_on_sqlite.


(** [UID set] alone. *)
Definition uid_only (set : imap.SeqSet) : imap.SearchCriteria :=
  imap.mkSearchCriteria None (Some set) time.zero time.zero
                        false false false false false false None None None.

(** * Properties *)

(** ** Running on a connection that does not fail *)

Lemma Exec_healthy {A : Type} (q : DB -> res A * DB) (db : DB) :
  healthy db -> Exec q db = q db.
Proof. unfold healthy, Exec. intros ->. reflexivity. Qed.

Lemma healthy_set_tables (t : Tables) (db : DB) :
  healthy db -> healthy (set_tables t db).
Proof. exact (fun H => H). Qed.

Lemma ListMessages_healthy (mailboxID : Z) (db : DB) :
  healthy db ->
  Storage.ListMessages mailboxID db = (Ok (rows_of_mailbox mailboxID (tables db)), db).
Proof.
  intros H. unfold Storage.ListMessages, wrap. rewrite Exec_healthy by exact H.
  reflexivity.
Qed.

Lemma DeleteMessage_healthy (messageID : Z) (db : DB) :
  healthy db ->
  Storage.DeleteMessage messageID db
  = (Ok tt, set_tables (drop_messages (fk_enforced db)
                                      (fun m => ID m =? messageID) (tables db)) db).
Proof.
  intros H. unfold Storage.DeleteMessage, wrap. rewrite Exec_healthy by exact H.
  reflexivity.
Qed.

Lemma UpdateMessageFlags_healthy (messageID : Z) (flags : string)
      (seen deleted draft : bool) (db : DB) :
  healthy db ->
  Storage.UpdateMessageFlags messageID flags seen deleted draft db
  = (Ok tt, set_tables (write_flags messageID flags seen deleted draft (tables db)) db).
Proof.
  intros H. unfold Storage.UpdateMessageFlags, wrap.
  rewrite Exec_healthy by exact H. reflexivity.
Qed.

(** ** [ORDER BY uid] *)

Lemma insert_by_uid_In (m x : Message) (l : list Message) :
  In x (insert_by_uid m l) <-> x = m \/ In x l.
Proof.
  induction l as [|y l IH]; simpl.
  - intuition auto.
  - destruct (UID m <=? UID y); simpl; [intuition auto|].
    rewrite IH. intuition auto.
Qed.

Lemma order_by_uid_In (x : Message) (l : list Message) :
  In x (order_by_uid l) <-> In x l.
Proof.
  induction l as [|y l IH]; simpl; [tauto|].
  rewrite insert_by_uid_In, IH. intuition auto.
Qed.

Lemma insert_by_uid_length (m : Message) (l : list Message) :
  List.length (insert_by_uid m l) = S (List.length l).
Proof.
  induction l as [|y l IH]; simpl; [reflexivity|].
  destruct (UID m <=? UID y); simpl; congruence.
Qed.

Lemma order_by_uid_length (l : list Message) :
  List.length (order_by_uid l) = List.length l.
Proof.
  induction l as [|y l IH]; simpl; [reflexivity|].
  rewrite insert_by_uid_length. congruence.
Qed.

Lemma insert_by_uid_sorted (m : Message) (l : list Message) :
  StronglySorted uid_le l -> StronglySorted uid_le (insert_by_uid m l).
Proof.
  induction l as [|y l IH]; intros S; simpl.
  - constructor; [constructor | constructor].
  - inversion S as [|? ? Sl Fy]; subst.
    destruct (UID m <=? UID y) eqn:E.
    + apply Z.leb_le in E. constructor; [exact S|].
      constructor; [exact E|].
      eapply Forall_impl; [|exact Fy]. unfold uid_le. intros; lia.
    + apply Z.leb_gt in E. constructor; [apply IH; exact Sl|].
      apply Forall_forall. intros x Hx. apply insert_by_uid_In in Hx.
      destruct Hx as [->|Hx]; [unfold uid_le; lia|].
      rewrite Forall_forall in Fy. apply Fy. exact Hx.
Qed.

Lemma order_by_uid_sorted (l : list Message) :
  StronglySorted uid_le (order_by_uid l).
Proof.
  induction l as [|y l IH]; simpl; [constructor|].
  apply insert_by_uid_sorted. exact IH.
Qed.

Lemma insert_by_uid_map (f : Message -> Message) (m : Message) (l : list Message) :
  (forall x, UID (f x) = UID x) ->
  insert_by_uid (f m) (map f l) = map f (insert_by_uid m l).
Proof.
  intros Hf. induction l as [|y l IH]; simpl; [reflexivity|].
  rewrite !Hf. destruct (UID m <=? UID y); simpl; [reflexivity|].
  rewrite IH. reflexivity.
Qed.

Lemma order_by_uid_map (f : Message -> Message) (l : list Message) :
  (forall x, UID (f x) = UID x) ->
  order_by_uid (map f l) = map f (order_by_uid l).
Proof.
  intros Hf. induction l as [|y l IH]; simpl; [reflexivity|].
  rewrite IH. apply insert_by_uid_map. exact Hf.
Qed.

Lemma insert_by_uid_NoDup {B : Type} (g : Message -> B) (m : Message)
      (l : list Message) :
  NoDup (map g (m :: l)) -> NoDup (map g (insert_by_uid m l)).
Proof.
  induction l as [|y l IH]; simpl; intros N; [exact N|].
  destruct (UID m <=? UID y); simpl; [exact N|].
  inversion N as [|? ? Nm N']; subst. inversion N' as [|? ? Ny N'']; subst.
  simpl in Nm. constructor.
  - intros Hin. apply in_map_iff in Hin. destruct Hin as [x [Hx Hin]].
    apply insert_by_uid_In in Hin. destruct Hin as [->|Hin].
    + apply Nm. left. symmetry. exact Hx.
    + apply Ny. rewrite <- Hx. apply in_map. exact Hin.
  - apply IH. simpl. constructor; [|exact N''].
    intros Hin. apply Nm. right. exact Hin.
Qed.

Lemma order_by_uid_NoDup {B : Type} (g : Message -> B) (l : list Message) :
  NoDup (map g l) -> NoDup (map g (order_by_uid l)).
Proof.
  induction l as [|y l IH]; simpl; intros N; [constructor|].
  apply insert_by_uid_NoDup. simpl. inversion N as [|? ? Ny N']; subst.
  constructor; [|apply IH; exact N'].
  intros Hin. apply Ny. apply in_map_iff in Hin. destruct Hin as [x [Hx Hin]].
  apply (proj1 (order_by_uid_In _ _)) in Hin. rewrite <- Hx. apply in_map. exact Hin.
Qed.

Lemma sorted_le_NoDup_lt (l : list Message) :
  StronglySorted uid_le l -> NoDup (map UID l) -> StronglySorted uid_lt l.
Proof.
  induction l as [|y l IH]; intros S N; [constructor|].
  inversion S as [|? ? Sl Fy]; subst. inversion N as [|? ? Ny N']; subst.
  constructor; [apply IH; assumption|].
  apply Forall_forall. intros x Hx. rewrite Forall_forall in Fy.
  specialize (Fy x Hx). unfold uid_le in Fy. unfold uid_lt.
  assert (UID x <> UID y).
  { intros E. apply Ny. rewrite <- E. apply in_map. exact Hx. }
  lia.
Qed.

Lemma filter_sorted {A : Type} (R : A -> A -> Prop) (p : A -> bool) (l : list A) :
  StronglySorted R l -> StronglySorted R (filter p l).
Proof.
  induction l as [|y l IH]; intros S; simpl; [constructor|].
  inversion S as [|? ? Sl Fy]; subst.
  destruct (p y); [|apply IH; exact Sl].
  constructor; [apply IH; exact Sl|].
  apply Forall_forall. intros x Hx. apply filter_In in Hx.
  rewrite Forall_forall in Fy. apply Fy. tauto.
Qed.

Lemma rows_of_mailbox_In (mailboxID : Z) (t : Tables) (x : Message) :
  In x (rows_of_mailbox mailboxID t)
  <-> In x (messages t) /\ MailboxID x = mailboxID.
Proof.
  unfold rows_of_mailbox. rewrite order_by_uid_In, filter_In.
  unfold in_mailbox. rewrite Z.eqb_eq. tauto.
Qed.

(** ** Uniqueness constraints *)

Lemma distinct_NoDup {A : Type} (eqb : A -> A -> bool) (l : list A) :
  (forall a b, eqb a b = true <-> a = b) ->
  distinct eqb l = true -> NoDup l.
Proof.
  intros Heq. induction l as [|x l IH]; simpl; intros H; [constructor|].
  apply andb_true_iff in H. destruct H as [Hx Hl].
  constructor; [|apply IH; exact Hl].
  intros Hin. apply negb_true_iff in Hx.
  assert (existsb (eqb x) l = true) as E.
  { apply existsb_exists. exists x. split; [exact Hin|]. apply Heq. reflexivity. }
  congruence.
Qed.

Lemma key_eqb_eq (a b : Z * Z) : key_eqb a b = true <-> a = b.
Proof.
  destruct a as [a1 a2], b as [b1 b2]. unfold key_eqb. simpl.
  rewrite andb_true_iff, !Z.eqb_eq. split; [intros [-> ->]; reflexivity|].
  intros E. inversion E. auto.
Qed.

Lemma wfb_wf (db : DB) : wfb db = true -> wf db.
Proof.
  unfold wfb, wf. intros H. apply andb_true_iff in H. destruct H as [H1 H2].
  split.
  - apply (distinct_NoDup Z.eqb); [intros; apply Z.eqb_eq | exact H1].
  - apply (distinct_NoDup key_eqb); [apply key_eqb_eq | exact H2].
Qed.

Lemma NoDup_map_inj {A B : Type} (f : A -> B) (l : list A) (x y : A) :
  NoDup (map f l) -> In x l -> In y l -> f x = f y -> x = y.
Proof.
  induction l as [|z l IH]; simpl; intros N Hx Hy E; [contradiction|].
  inversion N as [|? ? Nz N']; subst.
  destruct Hx as [->|Hx], Hy as [->|Hy].
  - reflexivity.
  - exfalso. apply Nz. rewrite E. apply in_map. exact Hy.
  - exfalso. apply Nz. rewrite <- E. apply in_map. exact Hx.
  - apply IH; assumption.
Qed.

Lemma selection_keeps_keys_distinct {K : Type} (key : Message -> K)
      (keep : Message -> bool) (rows : list Message) :
  NoDup (map key rows) -> NoDup (map key (filter keep rows)).
Proof.
  induction rows as [|z rows IH]; simpl; intros N; [constructor|].
  inversion N as [|? ? Nz N']; subst.
  destruct (keep z); simpl; [|apply IH; exact N'].
  constructor; [|apply IH; exact N'].
  intros Hin. apply Nz. apply in_map_iff in Hin. destruct Hin as [x [Hx Hin]].
  apply filter_In in Hin. rewrite <- Hx. apply in_map. tauto.
Qed.

Lemma NoDup_key_uid (mailboxID : Z) (l : list Message) :
  (forall x, In x l -> MailboxID x = mailboxID) ->
  NoDup (map message_key l) -> NoDup (map UID l).
Proof.
  induction l as [|z l IH]; simpl; intros Hmb N; [constructor|].
  inversion N as [|? ? Nz N']; subst.
  constructor; [|apply IH; [intros; apply Hmb; right; assumption | exact N']].
  intros Hin. apply Nz. apply in_map_iff in Hin. destruct Hin as [x [Hx Hin]].
  apply in_map_iff. exists x. split; [|exact Hin].
  unfold message_key. rewrite Hx.
  rewrite (Hmb x) by (right; exact Hin). rewrite (Hmb z) by (left; reflexivity).
  reflexivity.
Qed.

Lemma rows_of_mailbox_strictly_sorted (mailboxID : Z) (db : DB) :
  wf db -> StronglySorted uid_lt (rows_of_mailbox mailboxID (tables db)).
Proof.
  intros [_ Hkey]. apply sorted_le_NoDup_lt.
  - apply order_by_uid_sorted.
  - unfold rows_of_mailbox. apply order_by_uid_NoDup.
    apply (NoDup_key_uid mailboxID).
    + intros x Hx. apply filter_In in Hx. destruct Hx as [_ Hx].
      apply Z.eqb_eq. exact Hx.
    + apply selection_keeps_keys_distinct. exact Hkey.
Qed.

(** ** [DELETE FROM messages] *)

Lemma drop_messages_messages (fk : bool) (gone : Message -> bool) (t : Tables) :
  messages (drop_messages fk gone t) = filter (fun m => negb (gone m)) (messages t).
Proof. unfold drop_messages. destruct fk; reflexivity. Qed.

Lemma drop_messages_users (fk : bool) (gone : Message -> bool) (t : Tables) :
  users (drop_messages fk gone t) = users t.
Proof. unfold drop_messages. destruct fk; reflexivity. Qed.

Lemma drop_messages_mailboxes (fk : bool) (gone : Message -> bool) (t : Tables) :
  mailboxes (drop_messages fk gone t) = mailboxes t.
Proof. unfold drop_messages. destruct fk; reflexivity. Qed.

Lemma filter_filter {A : Type} (p q : A -> bool) (l : list A) :
  filter p (filter q l) = filter (fun x => q x && p x) l.
Proof.
  induction l as [|x l IH]; simpl; [reflexivity|].
  destruct (q x); simpl; [destruct (p x); simpl; congruence | exact IH].
Qed.

Lemma filter_none {A : Type} (p : A -> bool) (l : list A) :
  (forall x, In x l -> p x = false) -> filter p l = [].
Proof.
  induction l as [|x l IH]; simpl; intros H; [reflexivity|].
  rewrite (H x) by (left; reflexivity). apply IH. intros; apply H; right; assumption.
Qed.

(** ** Expunge *)

Lemma expunge_loop_healthy (msgs : list Message) (db : DB) :
  healthy db ->
  IMAPMailbox.expunge_loop msgs db
  = (Ok tt, fold_left (fun d v => after (Storage.DeleteMessage (ID v)) d)
                      (filter Deleted msgs) db).
Proof.
  revert db. induction msgs as [|msg rest IH]; intros db H; simpl; [reflexivity|].
  unfold bind. destruct (Deleted msg); simpl.
  - unfold wrap. unfold after. rewrite DeleteMessage_healthy by exact H. simpl.
    apply IH. exact H.
  - apply IH. exact H.
Qed.

Lemma delete_all_healthy (vs : list Message) (db : DB) :
  healthy db ->
  healthy (fold_left (fun d v => after (Storage.DeleteMessage (ID v)) d) vs db).
Proof.
  revert db. induction vs as [|v vs IH]; intros db H; simpl; [exact H|].
  apply IH. unfold after. rewrite DeleteMessage_healthy by exact H. exact H.
Qed.

Lemma delete_all_tables (vs : list Message) (db : DB) :
  healthy db ->
  let db' := fold_left (fun d v => after (Storage.DeleteMessage (ID v)) d) vs db in
  messages (tables db')
  = filter (fun r => negb (mem (ID r) (map ID vs))) (messages (tables db))
  /\ users (tables db') = users (tables db)
  /\ mailboxes (tables db') = mailboxes (tables db).
Proof.
  revert db. induction vs as [|v vs IH]; intros db H; simpl.
  - repeat split. symmetry. apply forallb_filter_id. apply forallb_forall.
    intros; reflexivity.
  - assert (healthy (after (Storage.DeleteMessage (ID v)) db)) as H'.
    { unfold after. rewrite DeleteMessage_healthy by exact H. exact H. }
    destruct (IH _ H') as [Em [Eu Eb]]. simpl in Em, Eu, Eb.
    rewrite Em, Eu, Eb. unfold after.
    rewrite DeleteMessage_healthy by exact H. simpl.
    rewrite drop_messages_messages, drop_messages_users, drop_messages_mailboxes.
    repeat split. rewrite filter_filter. apply filter_ext.
    intros r. unfold mem. simpl. rewrite negb_orb. reflexivity.
Qed.

Lemma victims_by_id (mailboxID : Z) (db : DB) (r : Message) :
  wf db -> In r (messages (tables db)) ->
  mem (ID r) (map ID (filter Deleted (rows_of_mailbox mailboxID (tables db))))
  = in_mailbox mailboxID r && Deleted r.
Proof.
  intros [Hid _] Hr. unfold mem.
  destruct (in_mailbox mailboxID r && Deleted r) eqn:E.
  - apply andb_true_iff in E. destruct E as [Emb Edel].
    apply existsb_exists. exists (ID r). split; [|apply Z.eqb_refl].
    apply in_map. apply filter_In. split; [|exact Edel].
    apply rows_of_mailbox_In. split; [exact Hr|]. apply Z.eqb_eq. exact Emb.
  - destruct (existsb (Z.eqb (ID r)) _) eqn:X; [|reflexivity].
    apply existsb_exists in X. destruct X as [i [Hi Ei]].
    apply Z.eqb_eq in Ei. apply in_map_iff in Hi. destruct Hi as [v [Hv Hin]].
    apply filter_In in Hin. destruct Hin as [Hin Hdel].
    apply rows_of_mailbox_In in Hin. destruct Hin as [Hin Hmb].
    assert (v = r) as ->.
    { apply (NoDup_map_inj ID (messages (tables db))); [assumption..|congruence]. }
    unfold in_mailbox in E. rewrite Hmb, Z.eqb_refl, Hdel in E. discriminate.
Qed.

Lemma filter_all {A : Type} (l : list A) : filter (fun _ => true) l = l.
Proof. induction l as [|x l IH]; simpl; congruence. Qed.

Lemma ListMessages_within_budget (mailboxID : Z) (k : nat) (db : DB) :
  budget db = Some (S k) ->
  Storage.ListMessages mailboxID db
  = (Ok (rows_of_mailbox mailboxID (tables db)), set_budget (Some k) db).
Proof.
  intros E. unfold Storage.ListMessages, wrap, Exec. rewrite E. reflexivity.
Qed.

Lemma DeleteMessage_within_budget (messageID : Z) (k : nat) (db : DB) :
  budget db = Some (S k) ->
  Storage.DeleteMessage messageID db
  = (Ok tt,
     set_tables (drop_messages (fk_enforced db) (fun m => ID m =? messageID)
                               (tables db))
                (set_budget (Some k) db)).
Proof.
  intros E. unfold Storage.DeleteMessage, wrap, Exec. rewrite E. reflexivity.
Qed.

Lemma DeleteMessage_out_of_budget (messageID : Z) (db : DB) :
  budget db = Some O ->
  Storage.DeleteMessage messageID db
  = (Err (Wrap "falha ao excluir mensagem" ConnectionFailure), db).
Proof.
  intros E. unfold Storage.DeleteMessage, wrap, Exec. rewrite E. reflexivity.
Qed.

(** The loop of [Expunge] on a connection that carries out [k] more
    statements: the first [k] flagged messages of the listing go. *)
Lemma expunge_loop_cut (listing : list Message) (k : nat) (db : DB) :
  budget db = Some k ->
  messages (tables (after (IMAPMailbox.expunge_loop listing) db))
  = filter (fun r => negb (existsb (fun v => ID v =? ID r)
                                   (firstn k (filter Deleted listing))))
           (messages (tables db))
  /\ outcome (IMAPMailbox.expunge_loop listing) db
     = if (List.length (filter Deleted listing) <=? k)%nat then Ok tt
       else Err (Wrap "falha ao excluir mensagem"
                      (Wrap "falha ao excluir mensagem" ConnectionFailure)).
Proof.
  revert k db. induction listing as [|msg rest IH]; intros k db E.
  - simpl. rewrite firstn_nil. simpl. split; [symmetry; apply filter_all | reflexivity].
  - cbn [IMAPMailbox.expunge_loop filter]. unfold after, outcome, bind.
    destruct (Deleted msg) eqn:D.
    + destruct k as [|k]; unfold wrap.
      * rewrite DeleteMessage_out_of_budget by exact E. simpl.
        split; [symmetry; apply filter_all | reflexivity].
      * rewrite (DeleteMessage_within_budget _ k) by exact E.
        set (db1 := set_tables _ (set_budget (Some k) db)).
        destruct (IH k db1 eq_refl) as [Em Eo]. unfold after, outcome in Em, Eo.
        split; [|exact Eo].
        rewrite Em. unfold db1. cbn [tables set_tables set_budget].
        rewrite drop_messages_messages, filter_filter. apply filter_ext.
        intros r. cbn [firstn existsb]. rewrite negb_orb, (Z.eqb_sym (ID msg)).
        reflexivity.
    + unfold ret. apply IH. exact E.
Qed.

(** C6.  On a connection that does not fail and a store that meets the two
    constraints of the [messages] table, [Expunge] returns without error
    and the [messages] table is left with exactly the rows it held minus
    those of this mailbox with [deleted] set; users and mailboxes are
    untouched; a second [Expunge] returns without error and leaves the
    store as it is.  The deletions run in ascending uid order: [victims]
    being the rows of the mailbox with [deleted] set, by strictly ascending
    uid, on a connection that is lost after the listing and [k] further
    statements the [k] first of them are gone and no other row, and the
    call reports the failure when a victim is left. *)
Theorem Expunge_exact_ordered_idempotent (m : Mailbox) (db : DB) :
  healthy db -> wf db ->
  exists victims db',
    (forall r, In r victims
               <-> In r (messages (tables db))
                   /\ MailboxID r = Mailbox_ID m /\ Deleted r = true)
    /\ StronglySorted (fun a b => UID a < UID b) victims
    /\ IMAPMailbox.Expunge m db = (Ok tt, db')
    /\ messages (tables db')
       = filter (fun r => negb ((MailboxID r =? Mailbox_ID m) && Deleted r))
                (messages (tables db))
    /\ users (tables db') = users (tables db)
    /\ mailboxes (tables db') = mailboxes (tables db)
    /\ IMAPMailbox.Expunge m db' = (Ok tt, db')
    /\ (forall k,
           messages (tables (after (IMAPMailbox.Expunge m)
                                   (set_budget (Some (S k)) db)))
           = filter (fun r => negb (existsb (fun v => ID v =? ID r)
                                            (firstn k victims)))
                    (messages (tables db))
           /\ outcome (IMAPMailbox.Expunge m) (set_budget (Some (S k)) db)
              = if (List.length victims <=? k)%nat then Ok tt
                else Err (Wrap "falha ao excluir mensagem"
                               (Wrap "falha ao excluir mensagem"
                                     ConnectionFailure))).
Proof.
  intros H Hwf.
  set (victims := filter Deleted (rows_of_mailbox (Mailbox_ID m) (tables db))).
  set (db' := fold_left (fun d v => after (Storage.DeleteMessage (ID v)) d) victims db).
  assert (healthy db') as H' by (apply delete_all_healthy; exact H).
  destruct (delete_all_tables victims db H) as [Em [Eu Eb]].
  fold db' in Em, Eu, Eb.
  assert (messages (tables db')
          = filter (fun r => negb ((MailboxID r =? Mailbox_ID m) && Deleted r))
                   (messages (tables db))) as Em'.
  { rewrite Em. apply filter_ext_in. intros r Hr. f_equal.
    apply (victims_by_id (Mailbox_ID m) db r Hwf Hr). }
  exists victims, db'.
  split; [|split; [|split; [|split; [exact Em'|split; [exact Eu|split; [exact Eb|split]]]]]].
  - intros r. unfold victims. rewrite filter_In, rows_of_mailbox_In. tauto.
  - apply filter_sorted. apply (rows_of_mailbox_strictly_sorted (Mailbox_ID m) db Hwf).
  - unfold IMAPMailbox.Expunge, bind, wrap.
    rewrite ListMessages_healthy by exact H.
    apply expunge_loop_healthy. exact H.
  - unfold IMAPMailbox.Expunge, bind, wrap.
    rewrite ListMessages_healthy by exact H'.
    rewrite expunge_loop_healthy by exact H'.
    rewrite filter_none; [reflexivity|].
    intros x Hx. apply rows_of_mailbox_In in Hx. destruct Hx as [Hx Hmb].
    rewrite Em' in Hx. apply filter_In in Hx. destruct Hx as [_ Hx].
    rewrite Hmb, Z.eqb_refl in Hx. simpl in Hx.
    apply negb_true_iff. exact Hx.
  - intros k.
    assert (IMAPMailbox.Expunge m (set_budget (Some (S k)) db)
            = IMAPMailbox.expunge_loop (rows_of_mailbox (Mailbox_ID m) (tables db))
                                       (set_budget (Some k) db)) as Cut.
    { unfold IMAPMailbox.Expunge, bind, wrap.
      rewrite (ListMessages_within_budget _ k) by reflexivity. reflexivity. }
    unfold after, outcome. rewrite Cut.
    apply (expunge_loop_cut (rows_of_mailbox (Mailbox_ID m) (tables db)) k
                            (set_budget (Some k) db) eq_refl).
Qed.

Lemma Expunge_exact_ordered_idempotent_witness :
  healthy all_flagged /\ wf all_flagged
  /\ map (fun r => (ID r, UID r, Deleted r)) (messages (tables all_flagged))
     = [(1, 3, true); (2, 1, true); (3, 2, true)]
  /\ exists victims db',
      (forall r, In r victims
                 <-> In r (messages (tables all_flagged))
                     /\ MailboxID r = 1 /\ Deleted r = true)
      /\ StronglySorted (fun a b => UID a < UID b) victims
      /\ IMAPMailbox.Expunge inbox all_flagged = (Ok tt, db')
      /\ messages (tables db') = []
      /\ IMAPMailbox.Expunge inbox db' = (Ok tt, db')
      /\ map ID (messages (tables (after (IMAPMailbox.Expunge inbox)
                                         (set_budget (Some 2%nat) all_flagged))))
         = map ID (filter (fun r => negb (existsb (fun v => ID v =? ID r)
                                                  (firstn 1 victims)))
                          (messages (tables all_flagged)))
      /\ map ID (messages (tables (after (IMAPMailbox.Expunge inbox)
                                         (set_budget (Some 2%nat) all_flagged))))
         = [1; 3].
Proof.
  split; [reflexivity|]. split; [apply wfb_wf; reflexivity|].
  split; [reflexivity|].
  destruct (Expunge_exact_ordered_idempotent inbox all_flagged)
    as [victims [db' [V [S [E [M [_ [_ [E2 K]]]]]]]]];
    [reflexivity | apply wfb_wf; reflexivity |].
  exists victims, db'.
  split; [exact V|]. split; [exact S|]. split; [exact E|].
  split; [rewrite M; reflexivity|]. split; [exact E2|].
  split; [rewrite (proj1 (K 1%nat)); reflexivity | reflexivity].
Defined.

(** ** Flag update *)

Lemma raise_flag_once (f : string) (seen deleted draft : bool) :
  IMAPMailbox.raise_flag (seen, deleted, draft) f
  = (seen || String.eqb imap.SeenFlag f,
     deleted || String.eqb imap.DeletedFlag f,
     draft || String.eqb imap.DraftFlag f).
Proof.
  unfold IMAPMailbox.raise_flag.
  rewrite (String.eqb_sym imap.SeenFlag f), (String.eqb_sym imap.DeletedFlag f),
          (String.eqb_sym imap.DraftFlag f).
  destruct (String.eqb_spec f imap.SeenFlag) as [->|_].
  { simpl. rewrite orb_true_r, !orb_false_r. reflexivity. }
  destruct (String.eqb_spec f imap.DeletedFlag) as [->|_].
  { simpl. rewrite orb_true_r, !orb_false_r. reflexivity. }
  destruct (String.eqb_spec f imap.DraftFlag) as [->|_].
  { simpl. rewrite orb_true_r, !orb_false_r. reflexivity. }
  rewrite !orb_false_r. reflexivity.
Qed.

Lemma raise_flags (flags : list string) (seen deleted draft : bool) :
  fold_left IMAPMailbox.raise_flag flags (seen, deleted, draft)
  = (seen || Go.named imap.SeenFlag flags,
     deleted || Go.named imap.DeletedFlag flags,
     draft || Go.named imap.DraftFlag flags).
Proof.
  revert seen deleted draft. unfold Go.named.
  induction flags as [|f flags IH]; intros seen deleted draft;
    cbn [fold_left existsb].
  - rewrite !orb_false_r. reflexivity.
  - rewrite raise_flag_once, IH, !orb_assoc. reflexivity.
Qed.

Lemma set_messages_same (db : DB) :
  set_tables (set_messages (messages (tables db)) (tables db)) db = db.
Proof. destruct db as [be pr bu [us mbs ms ats] sq]. reflexivity. Qed.

Lemma flags_loop_healthy (seqSet : imap.SeqSet) (flags : list string)
      (listing : list Message) (i : Z) (db : DB) :
  healthy db ->
  IMAPMailbox.flags_loop i listing seqSet flags db
  = (Ok tt,
     set_tables (set_messages (map (retouch seqSet flags i listing)
                                   (messages (tables db)))
                              (tables db)) db).
Proof.
  revert i db. induction listing as [|msg rest IH]; intros i db H; simpl.
  - unfold ret. rewrite map_id. rewrite set_messages_same. reflexivity.
  - unfold bind.
    destruct (imap.Contains seqSet (Go.uint32 (i + 1))); simpl.
    + rewrite raise_flags. unfold wrap.
      rewrite UpdateMessageFlags_healthy by exact H.
      rewrite IH by exact H.
      destruct db as [be pr bu [us mbs ms ats] sq]. simpl.
      rewrite map_map. reflexivity.
    + unfold ret. rewrite IH by exact H. reflexivity.
Qed.

Lemma written_keys (flags : list string) (msg r : Message) :
  ID (written flags msg r) = ID r
  /\ MailboxID (written flags msg r) = MailboxID r
  /\ UID (written flags msg r) = UID r.
Proof. repeat split. Qed.

Lemma retouch_keys (seqSet : imap.SeqSet) (flags : list string)
      (listing : list Message) (i : Z) (r : Message) :
  ID (retouch seqSet flags i listing r) = ID r
  /\ MailboxID (retouch seqSet flags i listing r) = MailboxID r
  /\ UID (retouch seqSet flags i listing r) = UID r.
Proof.
  revert i r. induction listing as [|msg rest IH]; intros i r; simpl.
  - repeat split.
  - destruct (imap.Contains seqSet (Go.uint32 (i + 1)) && (ID r =? ID msg)).
    + destruct (IH (i + 1) (written flags msg r)) as [E1 [E2 E3]].
      rewrite E1, E2, E3. repeat split.
    + apply IH.
Qed.

Lemma retouch_foreign (seqSet : imap.SeqSet) (flags : list string)
      (listing : list Message) (i : Z) (r : Message) :
  ~ In (ID r) (map ID listing) -> retouch seqSet flags i listing r = r.
Proof.
  revert i. induction listing as [|msg rest IH]; intros i Hn; simpl; [reflexivity|].
  simpl in Hn.
  assert ((ID r =? ID msg) = false) as E by (apply Z.eqb_neq; intuition auto).
  rewrite E, andb_false_r. apply IH. intuition auto.
Qed.

Lemma retouch_listed (seqSet : imap.SeqSet) (flags : list string)
      (listing : list Message) (i : Z) (k : nat) (r : Message) :
  NoDup (map ID listing) -> nth_error listing k = Some r ->
  retouch seqSet flags i listing r
  = if imap.Contains seqSet (Go.uint32 (i + Z.of_nat k + 1))
    then written flags r r else r.
Proof.
  revert i k. induction listing as [|msg rest IH]; intros i k N Hk.
  - destruct k; discriminate.
  - inversion N as [|? ? Nm N']; subst. destruct k as [|k]; simpl in Hk.
    + inversion Hk; subst.
      replace (i + Z.of_nat 0 + 1) with (i + 1) by (simpl; lia).
      simpl retouch. rewrite Z.eqb_refl, andb_true_r.
      destruct (imap.Contains seqSet (Go.uint32 (i + 1)));
        apply retouch_foreign; exact Nm.
    + simpl retouch.
      assert ((ID r =? ID msg) = false) as E.
      { apply Z.eqb_neq. intros E. apply Nm. rewrite <- E. apply in_map.
        eapply nth_error_In. exact Hk. }
      rewrite E, andb_false_r. rewrite (IH (i + 1) k N' Hk).
      replace (i + 1 + Z.of_nat k + 1) with (i + Z.of_nat (S k) + 1) by lia.
      reflexivity.
Qed.

Lemma filter_map_commute {A : Type} (p : A -> bool) (f : A -> A) (l : list A) :
  (forall x, p (f x) = p x) -> filter p (map f l) = map f (filter p l).
Proof.
  intros Hp. induction l as [|x l IH]; simpl; [reflexivity|].
  rewrite Hp. destruct (p x); simpl; congruence.
Qed.

Lemma rows_of_mailbox_NoDup (mailboxID : Z) (db : DB) :
  wf db -> NoDup (map ID (rows_of_mailbox mailboxID (tables db))).
Proof.
  intros [Hid _]. unfold rows_of_mailbox. apply order_by_uid_NoDup.
  apply selection_keeps_keys_distinct. exact Hid.
Qed.

Lemma rows_after_retouch (seqSet : imap.SeqSet) (flags : list string)
      (listing : list Message) (mailboxID : Z) (t : Tables) :
  rows_of_mailbox mailboxID
                  (set_messages (map (retouch seqSet flags 0 listing) (messages t)) t)
  = map (retouch seqSet flags 0 listing) (rows_of_mailbox mailboxID t).
Proof.
  unfold rows_of_mailbox. simpl.
  rewrite filter_map_commute.
  - apply order_by_uid_map. intros x. apply retouch_keys.
  - intros x. unfold in_mailbox.
    destruct (retouch_keys seqSet flags listing 0 x) as [_ [E _]]. rewrite E.
    reflexivity.
Qed.



(** ** Listing and search *)

Lemma ListMessages_result (mailboxID : Z) (db db' : DB) (rows : list Message) :
  Storage.ListMessages mailboxID db = (Ok rows, db') ->
  rows = rows_of_mailbox mailboxID (tables db) /\ tables db' = tables db.
Proof.
  unfold Storage.ListMessages, wrap, Exec, select_messages.
  destruct (budget db) as [[|n]|]; simpl; intros E; inversion E; subst; auto.
Qed.

Lemma list_loop_numbered (listing : list Message) (i : Z) (seqSet : imap.SeqSet)
      (items : list imap.FetchItem) :
  IMAPMailbox.list_loop i listing seqSet items
  = map (fun p => imap.mkMessage (fst p) (Go.uint32 (ID (snd p)))
                                 (fold_left (IMAPMailbox.fetch_item (snd p)) items []))
        (filter (fun p => imap.Contains seqSet (fst p)) (numbered i listing)).
Proof.
  revert i. induction listing as [|msg rest IH]; intros i; simpl; [reflexivity|].
  destruct (imap.Contains seqSet (Go.uint32 (i + 1))); simpl; rewrite IH; reflexivity.
Qed.

Lemma search_loop_numbered (listing : list Message) (i : Z) (uid : bool)
      (criteria : imap.SearchCriteria) :
  IMAPMailbox.search_loop i listing uid criteria
  = map (fun p => if uid then Go.uint32 (ID (snd p)) else fst p)
        (filter (fun p => IMAPMailbox.selected criteria (fst p) (snd p))
                (numbered i listing)).
Proof.
  revert i. induction listing as [|msg rest IH]; intros i; simpl; [reflexivity|].
  destruct (IMAPMailbox.selected criteria (Go.uint32 (i + 1)) msg); simpl;
    rewrite IH; reflexivity.
Qed.

Lemma get_put_same (k : imap.FetchItem) (v : imap.FetchValue) (m : imap.ItemMap) :
  imap.get k (imap.put k v m) = Some v.
Proof.
  induction m as [|[k' v'] m IH]; simpl.
  - rewrite String.eqb_refl. reflexivity.
  - destruct (String.eqb k' k) eqn:E; simpl.
    + rewrite String.eqb_refl. reflexivity.
    + rewrite E. exact IH.
Qed.

Lemma get_put_other (k k0 : imap.FetchItem) (v : imap.FetchValue) (m : imap.ItemMap) :
  k0 <> k -> imap.get k (imap.put k0 v m) = imap.get k m.
Proof.
  intros Hne. induction m as [|[k' v'] m IH]; simpl.
  - destruct (String.eqb_spec k0 k); [contradiction | reflexivity].
  - destruct (String.eqb_spec k' k0) as [->|N0]; simpl.
    + destruct (String.eqb_spec k0 k); [contradiction | reflexivity].
    + destruct (String.eqb_spec k' k); [reflexivity | exact IH].
Qed.

Lemma fetch_item_other (msg : Message) (acc : imap.ItemMap)
      (item k : imap.FetchItem) :
  item <> k ->
  imap.get k (IMAPMailbox.fetch_item msg acc item) = imap.get k acc.
Proof.
  intros Hne. unfold IMAPMailbox.fetch_item.
  repeat match goal with
         | |- context [if ?c then _ else _] => destruct c
         end;
    try reflexivity; apply get_put_other; exact Hne.
Qed.

Lemma fetch_item_uid (msg : Message) (acc : imap.ItemMap) :
  imap.get imap.FetchUid (IMAPMailbox.fetch_item msg acc imap.FetchUid)
  = Some (imap.OfInt64 (ID msg)).
Proof. unfold IMAPMailbox.fetch_item. simpl. apply get_put_same. Qed.

Lemma fetch_uid_kept (msg : Message) (items : list imap.FetchItem)
      (acc : imap.ItemMap) :
  existsb (String.eqb imap.FetchUid) items = true
  \/ imap.get imap.FetchUid acc = Some (imap.OfInt64 (ID msg)) ->
  imap.get imap.FetchUid (fold_left (IMAPMailbox.fetch_item msg) items acc)
  = Some (imap.OfInt64 (ID msg)).
Proof.
  revert acc. induction items as [|item items IH]; intros acc H; simpl.
  - destruct H as [H|H]; [discriminate | exact H].
  - apply IH. cbn [existsb] in H.
    destruct (String.eqb_spec imap.FetchUid item) as [<-|Hne].
    + right. apply fetch_item_uid.
    + rewrite orb_false_l in H. destruct H as [H|H]; [left; exact H|].
      right. rewrite fetch_item_other by congruence. exact H.
Qed.

Lemma selected_uid (criteria : imap.SearchCriteria) (seqNum : Z) (msg : Message)
      (set : imap.SeqSet) :
  imap.Criteria_Uid criteria = Some set ->
  IMAPMailbox.selected criteria seqNum msg = true ->
  imap.Contains set (Go.uint32 (ID msg)) = true.
Proof.
  intros E. unfold IMAPMailbox.selected. rewrite E. simpl.
  destruct (IMAPMailbox.is_set (imap.Criteria_SeqNum criteria)
            && negb (IMAPMailbox.contains (imap.Criteria_SeqNum criteria) seqNum));
    [discriminate|].
  destruct (imap.Contains set (Go.uint32 (ID msg))); [reflexivity | discriminate].
Qed.

Lemma selected_uid_only (set : imap.SeqSet) (seqNum : Z) (msg : Message) :
  IMAPMailbox.selected (uid_only set) seqNum msg
  = imap.Contains set (Go.uint32 (ID msg)).
Proof.
  unfold IMAPMailbox.selected, uid_only. simpl.
  destruct (imap.Contains set (Go.uint32 (ID msg))); reflexivity.
Qed.

Lemma search_loop_uid_only (rows : list Message) (i : Z) (set : imap.SeqSet) :
  IMAPMailbox.search_loop i rows true (uid_only set)
  = map (fun r => Go.uint32 (ID r))
        (filter (fun r => imap.Contains set (Go.uint32 (ID r))) rows)
  /\ IMAPMailbox.search_loop i rows false (uid_only set)
     = map fst (filter (fun p => imap.Contains set (Go.uint32 (ID (snd p))))
                       (numbered i rows)).
Proof.
  revert i. induction rows as [|msg rest IH]; intros i; [split; reflexivity|].
  cbn [IMAPMailbox.search_loop numbered filter snd]. rewrite selected_uid_only.
  destruct (IH (i + 1)) as [A B]. rewrite A, B.
  destruct (imap.Contains set (Go.uint32 (ID msg))); split; reflexivity.
Qed.

(** C10.  What the adapter hands to the protocol engine as a message's UID
    is the row's [ID], cut to 32 bits: it is the [Uid] of every fetched
    message and, when [UID] is among the requested items, the value of that
    item; a UID criterion is tested against the [ID], so that a search by a
    UID set alone returns exactly the listed messages whose [ID] is in the
    set, by [ID] in UID mode and by position otherwise, the listing on a
    working connection being the rows of the mailbox; under any criteria
    the results of a search in UID mode are the [ID]s of the selected
    messages.  The [uid] column is not read: another value in it changes
    neither the items fetched for a message nor whether a search selects
    it. *)
Theorem adapter_uid_is_message_id (m : Mailbox) (db : DB) :
  (forall uid seqSet items out db',
      IMAPMailbox.ListMessages m uid seqSet items db = (Ok out, db') ->
      out = map (fun p => imap.mkMessage
                            (fst p) (Go.uint32 (ID (snd p)))
                            (fold_left (IMAPMailbox.fetch_item (snd p)) items []))
                (filter (fun p => imap.Contains seqSet (fst p))
                        (numbered 0 (rows_of_mailbox (Mailbox_ID m) (tables db)))))
  /\ (forall msg items,
         existsb (String.eqb imap.FetchUid) items = true ->
         imap.get imap.FetchUid (fold_left (IMAPMailbox.fetch_item msg) items [])
         = Some (imap.OfInt64 (ID msg)))
  /\ (forall criteria seqNum msg set,
         imap.Criteria_Uid criteria = Some set ->
         IMAPMailbox.selected criteria seqNum msg = true ->
         imap.Contains set (Go.uint32 (ID msg)) = true)
  /\ (forall set seqNum msg,
         IMAPMailbox.selected (uid_only set) seqNum msg
         = imap.Contains set (Go.uint32 (ID msg)))
  /\ (forall set rows db',
         Storage.ListMessages (Mailbox_ID m) db = (Ok rows, db') ->
         IMAPMailbox.SearchMessages m true (uid_only set) db
         = (Ok (map (fun r => Go.uint32 (ID r))
                    (filter (fun r => imap.Contains set (Go.uint32 (ID r))) rows)),
            db')
         /\ IMAPMailbox.SearchMessages m false (uid_only set) db
            = (Ok (map fst
                       (filter (fun p => imap.Contains set (Go.uint32 (ID (snd p))))
                               (numbered 0 rows))),
               db'))
  /\ (healthy db ->
      exists rows,
        Storage.ListMessages (Mailbox_ID m) db = (Ok rows, db)
        /\ forall r, In r rows
                     <-> In r (messages (tables db)) /\ MailboxID r = Mailbox_ID m)
  /\ (forall criteria found db',
         IMAPMailbox.SearchMessages m true criteria db = (Ok found, db') ->
         found = map (fun p => Go.uint32 (ID (snd p)))
                     (filter (fun p => IMAPMailbox.selected criteria (fst p) (snd p))
                             (numbered 0 (rows_of_mailbox (Mailbox_ID m) (tables db)))))
  /\ (forall u msg acc item,
         IMAPMailbox.fetch_item (with_UID u msg) acc item
         = IMAPMailbox.fetch_item msg acc item)
  /\ (forall u criteria seqNum msg,
         IMAPMailbox.selected criteria seqNum (with_UID u msg)
         = IMAPMailbox.selected criteria seqNum msg).
Proof.
  split; [|split; [|split; [|split; [|split; [|split; [|split; [|split]]]]]]].
  - intros uid seqSet items out db' E.
    unfold IMAPMailbox.ListMessages, bind, wrap in E.
    destruct (Storage.ListMessages (Mailbox_ID m) db) as [[rows|e] db1] eqn:L;
      [|discriminate].
    apply ListMessages_result in L. destruct L as [-> _].
    unfold ret in E. inversion E; subst. apply list_loop_numbered.
  - intros msg items H. apply fetch_uid_kept. left. exact H.
  - exact selected_uid.
  - exact selected_uid_only.
  - intros set rows db' L. unfold IMAPMailbox.SearchMessages, bind, wrap.
    rewrite L. unfold ret.
    destruct (search_loop_uid_only rows 0 set) as [A B]. rewrite A, B.
    split; reflexivity.
  - intros H. exists (rows_of_mailbox (Mailbox_ID m) (tables db)).
    split; [apply ListMessages_healthy; exact H | intros r; apply rows_of_mailbox_In].
  - intros criteria found db' E.
    unfold IMAPMailbox.SearchMessages, bind, wrap in E.
    destruct (Storage.ListMessages (Mailbox_ID m) db) as [[rows|e] db1] eqn:L;
      [|discriminate].
    apply ListMessages_result in L. destruct L as [-> _].
    unfold ret in E. inversion E; subst.
    apply (search_loop_numbered _ 0 true).
  - reflexivity.
  - reflexivity.
Qed.

(** A search by UID on three messages stored with the uids 3, 1 and 2 (ids
    1, 2 and 3): the set [1:2] selects the messages with the ids 1 and 2,
    which have the uids 3 and 1 and the positions 3 and 1. *)
Example search_by_uid_set_goes_by_id :
  map (fun r => (ID r, UID r)) (rows_of_mailbox 1 (tables all_flagged))
  = [(2, 1); (3, 2); (1, 3)]
  /\ outcome (IMAPMailbox.SearchMessages inbox true (uid_only [imap.mkSeq 1 2]))
             all_flagged = Ok [2; 1]
  /\ outcome (IMAPMailbox.SearchMessages inbox false (uid_only [imap.mkSeq 1 2]))
             all_flagged = Ok [1; 3].
Proof. vm_compute. repeat split. Qed.

(** ** Message submission *)

Lemma CreateMessage_keeps_uid (now : time.Time) (msg stored : Message) (db db' : DB) :
  Storage.CreateMessage now msg db = (Ok stored, db') ->
  UID stored = UID msg
  /\ messages (tables db') = messages (tables db) ++ [stored].
Proof.
  unfold Storage.CreateMessage, bind, wrap, ret, Exec, insert_message, rejected, accepted.
  destruct (budget db) as [[|n]|]; simpl;
    repeat match goal with
           | |- context [if ?c then _ else _] => destruct c
           end; simpl; intros E; inversion E; subst; split; reflexivity.
Qed.

(** Every message that [Data] stores has uid 0. *)
Lemma Data_stores_uid_zero (now created : time.Time) (s : SMTPSession.t)
      (r : smtp.Reader) (db db' : DB) :
  SMTPSession.Data now created s r db = (Ok tt, db') ->
  exists stored,
    messages (tables db') = messages (tables db) ++ [stored] /\ UID stored = 0.
Proof.
  unfold SMTPSession.Data. destruct (smtp.ReadAll r) as [body|e]; [|discriminate].
  unfold bind at 1.
  destruct (wrap _ (Storage.GetMailbox _ _) db) as [[mailbox|e] db1] eqn:G;
    [|discriminate].
  assert (tables db1 = tables db) as Et.
  { unfold wrap, Storage.GetMailbox, bind, wrap, Exec, select_mailbox in G.
    destruct (budget db) as [[|n]|]; simpl in G;
      try discriminate;
      match type of G with
      | context [find ?p ?l] => destruct (find p l)
      end; simpl in G; inversion G; reflexivity. }
  unfold bind, wrap.
  destruct (Storage.CreateMessage created _ db1) as [[stored|e] db2] eqn:C;
    [|discriminate].
  apply CreateMessage_keeps_uid in C. destruct C as [Eu Em].
  unfold ret. intros E. inversion E; subst. exists stored.
  rewrite Em, Et. split; [reflexivity | exact Eu].
Qed.

Example alice_logs_in :
  outcome (SMTPSession.Login "alice" "secret") alice_on_sqlite
  = Ok (SMTPSession.mkSession
          (mkUser 1 "alice" "secret" "Alice" "alice@example.org"
                  (time.UTC 100) (time.UTC 100)) "" [])
  /\ outcome (Storage.GetMailbox 1 "INBOX") alice_on_sqlite = Ok inbox
  /\ outcome (Storage.GetMailbox 1 "INBOX") three_letters = Ok inbox
  /\ outcome (Storage.GetMailbox 2 "INBOX") one_letter_each = Ok inbox_of_bob.
Proof. vm_compute. repeat split. Qed.

(** C1.  Two submissions into the [INBOX] of [alice]: the first is stored
    with uid 0, the second is refused by the [UNIQUE(mailbox_id, uid)]
    constraint and the mailbox still holds the one message with uid 0. *)
Theorem submissions_are_stored_with_uid_zero :
  let first := SMTPSession.submit readme_config (time.UTC 200) (time.UTC 201)
                                  alice_session ten_bytes alice_on_sqlite in
  let second := SMTPSession.submit readme_config (time.UTC 300) (time.UTC 301)
                                   alice_session ten_bytes (snd first) in
  fst first = Ok tt
  /\ map UID (rows_of_mailbox 1 (tables (snd first))) = [0]
  /\ fst second
     = Err (Wrap "falha ao salvar mensagem"
                 (Wrap "falha ao criar mensagem"
                       (UniqueViolation "messages.mailbox_id, messages.uid")))
  /\ map UID (rows_of_mailbox 1 (tables (snd second))) = [0].
Proof. vm_compute. repeat split. Qed.

Lemma StartSMTPServer_limit (cfg : config.SMTPConfig) :
  smtp.MaxMessageBytes (SMTPSession.StartSMTPServer cfg) = 1048576.
Proof. reflexivity. Qed.

Lemma submit_over_one_mebibyte (cfg : config.SMTPConfig) (now created : time.Time)
      (s : SMTPSession.t) (payload : list byte) (db : DB) :
  1048576 <= Go.len payload ->
  SMTPSession.submit cfg now created s payload db
  = (Err (Wrap "falha ao ler email" ErrDataTooLarge), db).
Proof.
  intros H. unfold SMTPSession.submit, SMTPSession.Data, smtp.dataReader, smtp.ReadAll.
  rewrite StartSMTPServer_limit.
  apply Z.leb_le in H. rewrite H. reflexivity.
Qed.

(** C9.  With [max_message_bytes: 1024] in the configuration, a body of 2000
    bytes is accepted and stored in full: the server's limit is the constant
    of [StartSMTPServer], not the configured one. *)
Theorem body_over_configured_limit_is_stored :
  let payload := repeat Byte.x61 2000 in
  let r := SMTPSession.submit small_limit_config (time.UTC 200) (time.UTC 201)
                              alice_session payload alice_on_sqlite in
  config.MaxMessageBytes small_limit_config = 1024
  /\ Go.len payload = 2000
  /\ fst r = Ok tt
  /\ map Size (rows_of_mailbox 1 (tables (snd r))) = [2000]
  /\ map RawData (rows_of_mailbox 1 (tables (snd r))) = [payload].
Proof. vm_compute. repeat split. Qed.

(** ** The POP3 listener *)

Lemma handleConnection_leaves_store (reads : list (list byte)) (db : DB) :
  POP3Server.handleConnection reads db = ([POP3Server.greeting], db).
Proof.
  unfold POP3Server.handleConnection. f_equal.
  induction reads as [|chunk rest IH]; simpl; [reflexivity | exact IH].
Qed.

(** C3.  A client that sends [USER], [PASS], [DELE 1] and [QUIT] and then
    closes the connection: the server writes its greeting and nothing else,
    and the message is still in the store. *)
Theorem pop3_quit_deletes_nothing :
  let reads := [line "USER alice"; line "PASS secret"; line "DELE 1"; line "QUIT"] in
  POP3Server.handleConnection reads one_letter = ([POP3Server.greeting], one_letter)
  /\ map ID (rows_of_mailbox 1 (tables one_letter)) = [1]
  /\ map ID (rows_of_mailbox 1 (tables (snd (POP3Server.handleConnection reads one_letter))))
     = [1].
Proof. vm_compute. repeat split. Qed.

(** ** Search and status at concrete stores *)

(** C4.  The one message of the mailbox is dated instant 200; a search for
    [BEFORE] instant 200 returns it. *)
Theorem search_before_keeps_message_of_that_date :
  map Date (rows_of_mailbox 1 (tables one_letter)) = [time.UTC 200]
  /\ outcome (IMAPMailbox.SearchMessages inbox false (before (time.UTC 200))) one_letter
     = Ok [1]
  /\ outcome (IMAPMailbox.SearchMessages inbox true (before (time.UTC 200))) one_letter
     = Ok [1].
Proof. vm_compute. repeat split. Qed.

(** C5.  After message 1 of three is expunged the mailbox holds the uids 2
    and 3 (which are also the ids, and the UIDs that a fetch of [1:*]
    reports); [Status] reports two messages, two unseen, UID validity 1,
    and 3 as the next UID.  Likewise [bob]'s [INBOX] after one submission to
    each user holds one message, with uid 0 and id 2, and [Status] reports 2
    as the next UID. *)
Theorem Status_next_uid_is_count_plus_one :
  (let db := after (IMAPMailbox.Expunge inbox) first_flagged in
   map UID (rows_of_mailbox 1 (tables db)) = [2; 3]
   /\ map ID (rows_of_mailbox 1 (tables db)) = [2; 3]
   /\ outcome (IMAPMailbox.Status inbox all_status_items) db
      = Ok (imap.mkMailboxStatus "INBOX" 2 0 2 3 1)
   /\ match outcome (IMAPMailbox.ListMessages inbox false [imap.mkSeq 1 0]
                                              [imap.FetchUid]) db with
      | Ok fetched => map imap.Uid fetched = [2; 3]
      | Err _ => False
      end)
  /\ (map UID (rows_of_mailbox 5 (tables one_letter_each)) = [0]
      /\ map ID (rows_of_mailbox 5 (tables one_letter_each)) = [2]
      /\ outcome (IMAPMailbox.Status inbox_of_bob all_status_items) one_letter_each
         = Ok (imap.mkMailboxStatus "INBOX" 1 0 1 2 1)
      /\ match outcome (IMAPMailbox.ListMessages inbox_of_bob false [imap.mkSeq 1 0]
                                                 [imap.FetchUid]) one_letter_each with
         | Ok fetched => map imap.Uid fetched = [2]
         | Err _ => False
         end).
Proof. vm_compute. repeat split. Qed.

Lemma selected_since_only (t : time.Time) (seqNum : Z) (msg : Message) :
  time.eqb t time.zero = false ->
  IMAPMailbox.selected (since t) seqNum msg
  = (time.instant t <=? time.instant (Date msg)).
Proof.
  intros Ht. unfold IMAPMailbox.selected, since. simpl. rewrite Ht. simpl.
  unfold time.Before. rewrite Z.leb_antisym.
  destruct (time.instant (Date msg) <? time.instant t); reflexivity.
Qed.

Lemma selected_before_only (t : time.Time) (seqNum : Z) (msg : Message) :
  time.eqb t time.zero = false ->
  IMAPMailbox.selected (before t) seqNum msg
  = (time.instant (Date msg) <=? time.instant t).
Proof.
  intros Ht. unfold IMAPMailbox.selected, before. simpl. rewrite Ht. simpl.
  unfold time.After. rewrite Z.leb_antisym.
  destruct (time.instant t <? time.instant (Date msg)); reflexivity.
Qed.

Example uid_mode_results_follow_listing_order :
  map (fun r => (ID r, UID r)) (rows_of_mailbox 1 (tables uids_out_of_order))
  = [(2, 1); (1, 2)]
  /\ outcome (IMAPMailbox.SearchMessages inbox true no_criteria) uids_out_of_order
     = Ok [2; 1].
Proof. vm_compute. split; reflexivity. Qed.

Lemma count_unseen_from (msgs : list Message) (n : Z) :
  fold_left (fun unseen msg => if negb (Seen msg) then unseen + 1 else unseen) msgs n
  = n + Go.len (filter (fun msg => negb (Seen msg)) msgs).
Proof.
  revert n. unfold Go.len. induction msgs as [|msg rest IH]; intros n; simpl; [lia|].
  rewrite IH. destruct (Seen msg); simpl; lia.
Qed.

Lemma Status_reports (m : Mailbox) (db : DB) :
  healthy db ->
  let rows := rows_of_mailbox (Mailbox_ID m) (tables db) in
  IMAPMailbox.Status m all_status_items db
  = (Ok (imap.mkMailboxStatus
           (Name m)
           (Go.uint32 (Go.len rows))
           0
           (Go.uint32 (Go.len (filter (fun msg => negb (Seen msg)) rows)))
           (Go.uint32 (Go.len rows + 1))
           1),
     db).
Proof.
  intros H rows. unfold IMAPMailbox.Status, bind, wrap.
  rewrite ListMessages_healthy by exact H. fold rows. unfold ret.
  cbn. unfold IMAPMailbox.count_unseen. rewrite count_unseen_from. reflexivity.
Qed.

(** ** Deletion of owners *)

Lemma mem_In (x : Z) (xs : list Z) : mem x xs = true <-> In x xs.
Proof.
  unfold mem. rewrite existsb_exists. split.
  - intros [y [Hy E]]. apply Z.eqb_eq in E. subst. exact Hy.
  - intros H. exists x. split; [exact H | apply Z.eqb_refl].
Qed.

Lemma filter_out (A : Type) (gone : A -> bool) (l : list A) (x : A) :
  In x (filter (fun y => negb (gone y)) l) -> gone x = false.
Proof. intros H. apply filter_In in H. apply negb_true_iff. tauto. Qed.

(** With foreign keys enforced, deleting an existing user leaves no mailbox
    of that user, no message of such a mailbox and no attachment of such a
    message. *)
Lemma DeleteUser_cascades (userID : Z) (db : DB) :
  healthy db -> fk_enforced db = true ->
  In userID (map User_ID (users (tables db))) ->
  let db' := after (Storage.DeleteUser userID) db in
  outcome (Storage.DeleteUser userID) db = Ok tt
  /\ ~ In userID (map User_ID (users (tables db')))
  /\ (forall mb, In mb (mailboxes (tables db')) -> UserID mb <> userID)
  /\ (forall msg mb,
         In msg (messages (tables db')) ->
         In mb (mailboxes (tables db)) -> UserID mb = userID ->
         MailboxID msg <> Mailbox_ID mb)
  /\ (forall a msg mb,
         In a (attachments (tables db')) ->
         In msg (messages (tables db)) ->
         In mb (mailboxes (tables db)) -> UserID mb = userID ->
         MailboxID msg = Mailbox_ID mb ->
         MessageID a <> ID msg).
Proof.
  intros H Hfk Hu db'.
  unfold db', after, outcome, Storage.DeleteUser, wrap.
  rewrite Exec_healthy by exact H. unfold delete_user. rewrite Hfk. simpl.
  set (t := tables db).
  assert (In userID (map User_ID (filter (fun u => User_ID u =? userID) (users t)))) as Hdead.
  { apply in_map_iff in Hu. destruct Hu as [u [Eu Hu]]. apply in_map_iff.
    exists u. split; [exact Eu|]. apply filter_In. split; [exact Hu|].
    apply Z.eqb_eq. exact Eu. }
  split; [reflexivity|]. split; [|split; [|split]].
  - intros Hin. apply in_map_iff in Hin. destruct Hin as [u [Eu Hin]].
    apply filter_out in Hin. apply Z.eqb_neq in Hin. contradiction.
  - intros mb Hmb Eown. apply filter_out in Hmb.
    assert (mem (UserID mb) (map User_ID (filter (fun u => User_ID u =? userID) (users t))) = true)
      by (apply mem_In; rewrite Eown; exact Hdead).
    congruence.
  - intros msg mb Hmsg Hmb Eown Ebox. apply filter_out in Hmsg.
    assert (mem (MailboxID msg)
                (map Mailbox_ID
                     (filter (fun m => mem (UserID m)
                                           (map User_ID (filter (fun u => User_ID u =? userID) (users t))))
                             (mailboxes t))) = true) as X; [|simpl in Hmsg; congruence].
    apply mem_In. rewrite Ebox. apply in_map. apply filter_In. split; [exact Hmb|].
    apply mem_In. rewrite Eown. exact Hdead.
  - intros a msg mb Ha Hmsg Hmb Eown Ebox Eatt. apply filter_out in Ha.
    match type of Ha with mem _ ?l = false =>
      assert (mem (MessageID a) l = true) as X; [|congruence] end.
    apply mem_In. rewrite Eatt. apply in_map. apply filter_In. split; [exact Hmsg|].
    apply mem_In. rewrite Ebox. apply in_map. apply filter_In. split; [exact Hmb|].
    apply mem_In. rewrite Eown. exact Hdead.
Qed.

Lemma DeleteMailbox_cascades (mailboxID : Z) (db : DB) :
  healthy db -> fk_enforced db = true ->
  In mailboxID (map Mailbox_ID (mailboxes (tables db))) ->
  let db' := after (Storage.DeleteMailbox mailboxID) db in
  outcome (Storage.DeleteMailbox mailboxID) db = Ok tt
  /\ ~ In mailboxID (map Mailbox_ID (mailboxes (tables db')))
  /\ (forall msg, In msg (messages (tables db')) -> MailboxID msg <> mailboxID)
  /\ (forall a msg,
         In a (attachments (tables db')) ->
         In msg (messages (tables db)) -> MailboxID msg = mailboxID ->
         MessageID a <> ID msg).
Proof.
  intros H Hfk Hm db'.
  unfold db', after, outcome, Storage.DeleteMailbox, wrap.
  rewrite Exec_healthy by exact H. unfold delete_mailbox. rewrite Hfk. simpl.
  set (t := tables db).
  assert (In mailboxID
             (map Mailbox_ID (filter (fun m => Mailbox_ID m =? mailboxID) (mailboxes t))))
    as Hdead.
  { apply in_map_iff in Hm. destruct Hm as [m [Em Hm]]. apply in_map_iff.
    exists m. split; [exact Em|]. apply filter_In. split; [exact Hm|].
    apply Z.eqb_eq. exact Em. }
  split; [reflexivity|]. split; [|split].
  - intros Hin. apply in_map_iff in Hin. destruct Hin as [m [Em Hin]].
    apply filter_out in Hin. apply Z.eqb_neq in Hin. contradiction.
  - intros msg Hmsg Ebox. apply filter_out in Hmsg.
    match type of Hmsg with mem _ ?l = false =>
      assert (mem (MailboxID msg) l = true) as X; [|congruence] end.
    apply mem_In. rewrite Ebox. exact Hdead.
  - intros a msg Ha Hmsg Ebox Eatt. apply filter_out in Ha.
    match type of Ha with mem _ ?l = false =>
      assert (mem (MessageID a) l = true) as X; [|congruence] end.
    apply mem_In. rewrite Eatt. apply in_map. apply filter_In. split; [exact Hmsg|].
    apply mem_In. rewrite Ebox. exact Hdead.
Qed.

Lemma DeleteMessage_cascades (messageID : Z) (db : DB) :
  healthy db -> fk_enforced db = true ->
  In messageID (map ID (messages (tables db))) ->
  let db' := after (Storage.DeleteMessage messageID) db in
  outcome (Storage.DeleteMessage messageID) db = Ok tt
  /\ ~ In messageID (map ID (messages (tables db')))
  /\ (forall a, In a (attachments (tables db')) -> MessageID a <> messageID).
Proof.
  intros H Hfk Hm db'.
  unfold db', after, outcome. rewrite DeleteMessage_healthy by exact H.
  rewrite Hfk. simpl. set (t := tables db).
  split; [reflexivity|]. split.
  - intros Hin. apply in_map_iff in Hin. destruct Hin as [m [Em Hin]].
    apply filter_out in Hin. apply Z.eqb_neq in Hin. contradiction.
  - intros a Ha Eatt. apply filter_out in Ha.
    match type of Ha with mem _ ?l = false =>
      assert (mem (MessageID a) l = true) as X; [|congruence] end.
    apply mem_In. rewrite Eatt.
    apply in_map_iff in Hm. destruct Hm as [m [Em Hm]]. apply in_map_iff.
    exists m. split; [exact Em|]. apply filter_In. split; [exact Hm|].
    apply Z.eqb_eq. exact Em.
Qed.

(** C8.  On the SQLite storage as [Open] leaves it: [DeleteUser] removes the
    user and leaves her four mailboxes (listed in whatever order), the
    message and its attachment; [DeleteMailbox] leaves the message of the
    mailbox; [DeleteMessage] leaves the attachment of the message. *)
Theorem sqlite_deletes_do_not_cascade :
  fk_enforced OpenSQLite = false
  /\ (let db := after (Storage.DeleteUser 1) with_attachment in
      outcome (Storage.DeleteUser 1) with_attachment = Ok tt
      /\ outcome (Storage.GetUser "alice") db = Err ErrUserNotFound
      /\ (exists listing,
             outcome (Storage.ListMailboxes 1) db = Ok listing
             /\ Permutation listing
                            [mkMailbox 1 1 "INBOX" "INBOX"; mkMailbox 2 1 "Sent" "Sent";
                             mkMailbox 3 1 "Drafts" "Drafts";
                             mkMailbox 4 1 "Trash" "Trash"])
      /\ map ID (messages (tables db)) = [1]
      /\ map Attachment_ID (attachments (tables db)) = [1])
  /\ (let db := after (Storage.DeleteMailbox 1) with_attachment in
      outcome (Storage.DeleteMailbox 1) with_attachment = Ok tt
      /\ outcome (Storage.GetMailbox 1 "INBOX") db = Err ErrMailboxNotFound
      /\ outcome (Storage.ListMessages 1) db
         = outcome (Storage.ListMessages 1) with_attachment
      /\ List.length (rows_of_mailbox 1 (tables db)) = 1%nat)
  /\ (let db := after (Storage.DeleteMessage 1) with_attachment in
      outcome (Storage.DeleteMessage 1) with_attachment = Ok tt
      /\ messages (tables db) = []
      /\ outcome (Storage.GetAttachments 1) db
         = outcome (Storage.GetAttachments 1) with_attachment
      /\ map Attachment_ID (attachments (tables db)) = [1]).
Proof.
  split; [reflexivity|]. split; [|split; vm_compute; repeat split].
  cbv zeta. split; [reflexivity|]. split; [reflexivity|].
  split; [|split; reflexivity].
  eexists. split; [vm_compute; reflexivity|].
  apply (Permutation_cons_app [mkMailbox 1 1 "INBOX" "INBOX"; mkMailbox 2 1 "Sent" "Sent"]
                              [mkMailbox 4 1 "Trash" "Trash"]).
  apply Permutation_refl.
Qed.

(** ** User creation *)

Ltac split_ifs :=
  repeat match goal with
         | |- context [if ?c then _ else _] => destruct c
         end.

Lemma CreateMailbox_step (mb : Mailbox) (db : DB) :
  let r := Storage.CreateMailbox mb db in
  users (tables (snd r)) = users (tables db)
  /\ messages (tables (snd r)) = messages (tables db)
  /\ attachments (tables (snd r)) = attachments (tables db)
  /\ match fst r with
     | Ok stored =>
         stored = Mailbox_set_ID (seq_mailboxes (seqs db) + 1) mb
         /\ mailboxes (tables (snd r)) = mailboxes (tables db) ++ [stored]
         /\ seq_mailboxes (seqs (snd r)) = seq_mailboxes (seqs db) + 1
     | Err e =>
         (exists c, e = Wrap "falha ao criar caixa de correio" c)
         /\ mailboxes (tables (snd r)) = mailboxes (tables db)
     end.
Proof.
  unfold Storage.CreateMailbox, bind, wrap, ret, Exec, insert_mailbox, rejected, accepted.
  destruct (budget db) as [[|n]|]; simpl; split_ifs; simpl;
    repeat split; eauto.
Qed.

Lemma create_defaults_steps (userID : Z) (names : list string) (db : DB) :
  let r := Storage.create_defaults userID names db in
  users (tables (snd r)) = users (tables db)
  /\ messages (tables (snd r)) = messages (tables db)
  /\ attachments (tables (snd r)) = attachments (tables db)
  /\ match fst r with
     | Ok _ =>
         mailboxes (tables (snd r))
         = mailboxes (tables db)
             ++ default_rows userID (seq_mailboxes (seqs db) + 1) names
     | Err e =>
         exists c k,
           e = Wrap "falha ao criar caixa de correio padrão"
                    (Wrap "falha ao criar caixa de correio" c)
           /\ (k < List.length names)%nat
           /\ mailboxes (tables (snd r))
              = mailboxes (tables db)
                  ++ firstn k (default_rows userID (seq_mailboxes (seqs db) + 1) names)
     end.
Proof.
  revert db. induction names as [|name rest IH]; intros db.
  - simpl. rewrite app_nil_r. auto.
  - cbn [Storage.create_defaults]. unfold bind, wrap.
    pose proof (CreateMailbox_step (mkMailbox 0 userID name name) db) as Step.
    destruct (Storage.CreateMailbox (mkMailbox 0 userID name name) db) as [[stored|e] db1].
    + cbn [fst snd] in Step. destruct Step as [Eu [Em [Ea [Es [Eb Eq]]]]].
      specialize (IH db1). cbv zeta in IH.
      destruct (Storage.create_defaults userID rest db1) as [[u|e] db2];
        cbn [fst snd] in IH |- *; destruct IH as [Eu' [Em' [Ea' IH]]];
        rewrite Eu', Em', Ea', Eu, Em, Ea; repeat split.
      * rewrite IH, Eb, Eq, <- app_assoc. subst stored. reflexivity.
      * destruct IH as [c [k [Ee [Hk Ek]]]]. exists c, (S k).
        split; [exact Ee|]. split; [simpl; lia|].
        rewrite Ek, Eb, Eq, <- app_assoc. subst stored. reflexivity.
    + cbn [fst snd] in Step |- *. destruct Step as [Eu [Em [Ea [[c Ec] Eb]]]].
      repeat split; try assumption.
      exists c, 0%nat. subst e. split; [reflexivity|]. split; [simpl; lia|].
      rewrite Eb. simpl. rewrite app_nil_r. reflexivity.
Qed.

Lemma insert_user_step (u : User) (db : DB) :
  let r := wrap "falha ao criar usuário" (Exec (insert_user u)) db in
  mailboxes (tables (snd r)) = mailboxes (tables db)
  /\ messages (tables (snd r)) = messages (tables db)
  /\ attachments (tables (snd r)) = attachments (tables db)
  /\ seq_mailboxes (seqs (snd r)) = seq_mailboxes (seqs db)
  /\ match fst r with
     | Ok id =>
         id = seq_users (seqs db) + 1
         /\ users (tables (snd r)) = users (tables db) ++ [User_set_ID id u]
     | Err e =>
         (exists c, e = Wrap "falha ao criar usuário" c)
         /\ users (tables (snd r)) = users (tables db)
     end.
Proof.
  unfold wrap, Exec, insert_user, rejected, accepted.
  destruct (budget db) as [[|n]|]; simpl; split_ifs; simpl;
    repeat split; eauto.
Qed.

(** C2, as the code has it.  [CreateUser] inserts the user row and then the
    four default mailboxes [INBOX], [Sent], [Drafts], [Trash], in that
    order, each by a statement of its own; messages and attachments are not
    touched.  When it returns without error the user row and the four
    mailbox rows have been added.  When the insertion of the user fails,
    neither table has changed.  When the insertion of a default mailbox
    fails, the user row and the default mailboxes inserted before the
    failing one stay in the store. *)
Theorem CreateUser_stepwise (now : time.Time) (user : User) (db : DB) :
  let r := outcome (Storage.CreateUser now user) db in
  let db' := after (Storage.CreateUser now user) db in
  let stored := User_set_ID (seq_users (seqs db) + 1) (User_set_times now user) in
  let rows := default_rows (User_ID stored) (seq_mailboxes (seqs db) + 1)
                           Storage.default_mailboxes in
  messages (tables db') = messages (tables db)
  /\ attachments (tables db') = attachments (tables db)
  /\ match r with
     | Ok u =>
         u = stored
         /\ users (tables db') = users (tables db) ++ [stored]
         /\ mailboxes (tables db') = mailboxes (tables db) ++ rows
     | Err e =>
         ((exists c, e = Wrap "falha ao criar usuário" c)
          /\ users (tables db') = users (tables db)
          /\ mailboxes (tables db') = mailboxes (tables db))
         \/ (exists c k,
                e = Wrap "falha ao criar caixa de correio padrão"
                         (Wrap "falha ao criar caixa de correio" c)
                /\ (k < 4)%nat
                /\ users (tables db') = users (tables db) ++ [stored]
                /\ mailboxes (tables db') = mailboxes (tables db) ++ firstn k rows)
     end.
Proof.
  unfold outcome, after, Storage.CreateUser, bind.
  pose proof (insert_user_step (User_set_times now user) db) as Step.
  destruct (wrap "falha ao criar usuário" (Exec (insert_user (User_set_times now user))) db)
    as [[id|e] db1]; cbn [fst snd] in Step |- *.
  - destruct Step as [Eb [Em [Ea [Es [Eid Eu]]]]]. subst id.
    pose proof (create_defaults_steps
                  (User_ID (User_set_ID (seq_users (seqs db) + 1) (User_set_times now user)))
                  Storage.default_mailboxes db1) as Loop.
    cbv zeta in Loop.
    destruct (Storage.create_defaults _ Storage.default_mailboxes db1) as [[u|e] db2];
      cbn [fst snd] in Loop |- *; destruct Loop as [Eu' [Em' [Ea' Loop]]];
      unfold ret; cbn [fst snd]; rewrite ?Em', ?Ea', Em, Ea; repeat split.
    + rewrite Eu', Eu. reflexivity.
    + rewrite Loop, Eb, Es. reflexivity.
    + right. destruct Loop as [c [k [Ee [Hk Ek]]]]. exists c, k.
      split; [exact Ee|]. split; [exact Hk|]. split.
      * rewrite Eu', Eu. reflexivity.
      * rewrite Ek, Eb, Es. reflexivity.
  - destruct Step as [Eb [Em [Ea [Es [Ec Eu]]]]]. repeat split; try assumption.
    left. auto.
Qed.

(** C2, as stated, fails: the connection is lost after the second statement
    of [CreateUser]; the call returns an error, and the user row and the
    [INBOX] row are in the store, which was empty before. *)
Lemma CreateUser_leaves_partial_user :
  let db := set_budget (Some 2%nat) OpenPostgres in
  let r := Storage.CreateUser (time.UTC 100) alice db in
  users (tables db) = [] /\ mailboxes (tables db) = []
  /\ fst r = Err (Wrap "falha ao criar caixa de correio padrão"
                       (Wrap "falha ao criar caixa de correio" ConnectionFailure))
  /\ map Username (users (tables (snd r))) = ["alice"]
  /\ map Name (mailboxes (tables (snd r))) = ["INBOX"].
Proof. vm_compute. repeat split. Qed.

(** The same without any failure of the connection, on SQLite: a mailbox
    row [Sent] that names user 1 exists before user 1 does. *)
Example CreateUser_stops_at_existing_mailbox :
  let db := after (Storage.CreateMailbox (mkMailbox 0 1 "Sent" "Sent")) OpenSQLite in
  let r := Storage.CreateUser (time.UTC 100) alice db in
  map Name (mailboxes (tables db)) = ["Sent"]
  /\ fst r = Err (Wrap "falha ao criar caixa de correio padrão"
                       (Wrap "falha ao criar caixa de correio"
                             (UniqueViolation "mailboxes.user_id, mailboxes.name")))
  /\ map Username (users (tables (snd r))) = ["alice"]
  /\ map Name (mailboxes (tables (snd r))) = ["Sent"; "INBOX"].
Proof. vm_compute. repeat split. Qed.

(** ** The constraints of the [messages] table hold in every reachable store *)

Lemma consistent_new_sqlite : consistent OpenSQLite.
Proof. repeat split; constructor. Qed.

Lemma consistent_new_postgres : consistent OpenPostgres.
Proof. repeat split; constructor. Qed.

Lemma consistent_kept (db db' : DB) (keep : Message -> bool) :
  messages (tables db') = filter keep (messages (tables db)) ->
  seq_messages (seqs db) <= seq_messages (seqs db') ->
  consistent db -> consistent db'.
Proof.
  intros Em Es [[Hid Hkey] Hseq]. unfold consistent, wf. rewrite Em.
  repeat split.
  - apply selection_keeps_keys_distinct. exact Hid.
  - apply selection_keeps_keys_distinct. exact Hkey.
  - apply Forall_forall. intros x Hx. apply filter_In in Hx.
    rewrite Forall_forall in Hseq. specialize (Hseq x (proj1 Hx)). lia.
Qed.

Lemma consistent_same (db db' : DB) :
  messages (tables db') = messages (tables db) ->
  seq_messages (seqs db) <= seq_messages (seqs db') ->
  consistent db -> consistent db'.
Proof.
  intros Em Es. apply (consistent_kept db db' (fun _ => true)); [|exact Es].
  rewrite filter_all. exact Em.
Qed.

Lemma consistent_insert_message (m : Message) (db : DB) :
  consistent db -> consistent (snd (insert_message m db)).
Proof.
  intros C. unfold insert_message, rejected, accepted.
  destruct (existsb _ (messages (tables db))) eqn:Ekey.
  { destruct (backend db); simpl; [exact C|].
    apply (consistent_same db); simpl; [reflexivity | lia | exact C]. }
  destruct (fk_enforced db && _).
  { destruct (backend db); simpl; [exact C|].
    apply (consistent_same db); simpl; [reflexivity | lia | exact C]. }
  destruct C as [[Hid Hkey] Hseq]. rewrite Forall_forall in Hseq.
  unfold consistent, wf. simpl. rewrite !map_app. simpl. repeat split.
  - apply NoDup_app; [exact Hid | repeat constructor; simpl; tauto |].
    intros i Hi [<-|[]]. apply in_map_iff in Hi. destruct Hi as [x [Ex Hx]].
    specialize (Hseq x Hx). lia.
  - apply NoDup_app; [exact Hkey | repeat constructor; simpl; tauto |].
    intros k Hk [<-|[]]. apply in_map_iff in Hk. destruct Hk as [x [Ex Hx]].
    assert (existsb (fun r => (MailboxID r =? MailboxID m) && (UID r =? UID m))
                    (messages (tables db)) = true) as X; [|congruence].
    apply existsb_exists. exists x. split; [exact Hx|].
    unfold message_key in Ex. simpl in Ex. inversion Ex.
    rewrite !Z.eqb_refl. reflexivity.
  - apply Forall_forall. intros x Hx. apply in_app_iff in Hx.
    destruct Hx as [Hx|[<-|[]]]; [specialize (Hseq x Hx); lia | simpl; lia].
Qed.

Lemma consistent_update_flags (messageID : Z) (flags : string)
      (seen deleted draft : bool) (db : DB) :
  consistent db ->
  consistent (snd (update_flags messageID flags seen deleted draft db)).
Proof.
  intros [[Hid Hkey] Hseq]. unfold consistent, wf. simpl.
  set (f := fun r => if ID r =? messageID
                     then Message_set_flags flags seen deleted draft r else r).
  assert (forall r, ID (f r) = ID r /\ message_key (f r) = message_key r) as Hf.
  { intros r. unfold f. destruct (ID r =? messageID); split; reflexivity. }
  rewrite !map_map.
  rewrite (map_ext (fun x => ID (f x)) ID) by (intros; apply Hf).
  rewrite (map_ext (fun x => message_key (f x)) message_key) by (intros; apply Hf).
  repeat split; try assumption.
  apply Forall_forall. intros x Hx. apply in_map_iff in Hx.
  destruct Hx as [y [<- Hy]]. rewrite (proj1 (Hf y)).
  rewrite Forall_forall in Hseq. apply Hseq. exact Hy.
Qed.

Lemma drop_mailboxes_messages (fk : bool) (gone : Mailbox -> bool) (t : Tables) :
  exists keep, messages (drop_mailboxes fk gone t) = filter keep (messages t).
Proof.
  unfold drop_mailboxes. destruct fk.
  - rewrite drop_messages_messages. eexists. reflexivity.
  - exists (fun _ => true). rewrite filter_all. reflexivity.
Qed.

Lemma drop_users_messages (fk : bool) (gone : User -> bool) (t : Tables) :
  exists keep, messages (drop_users fk gone t) = filter keep (messages t).
Proof.
  unfold drop_users. destruct fk.
  - destruct (drop_mailboxes_messages true
               (fun m => mem (UserID m) (map User_ID (filter gone (users t))))
               (set_users (filter (fun u => negb (gone u)) (users t)) t)) as [keep E].
    exists keep. exact E.
  - exists (fun _ => true). rewrite filter_all. reflexivity.
Qed.

Lemma preserves_ret {A : Type} (a : A) : preserves (ret a).
Proof. intros db C. exact C. Qed.

Lemma preserves_fail {A : Type} (e : error) : preserves (@fail A e).
Proof. intros db C. exact C. Qed.

Lemma preserves_bind {A B : Type} (m : M A) (k : A -> M B) :
  preserves m -> (forall a, preserves (k a)) -> preserves (bind m k).
Proof.
  intros Hm Hk db C. unfold after, bind. specialize (Hm db C). unfold after in Hm.
  destruct (m db) as [[a|e] db1]; [apply Hk; exact Hm | exact Hm].
Qed.

Lemma preserves_wrap {A : Type} (msg : string) (m : M A) :
  preserves m -> preserves (wrap msg m).
Proof.
  intros Hm db C. unfold after, wrap. specialize (Hm db C). unfold after in Hm.
  destruct (m db) as [[a|e] db1]; exact Hm.
Qed.

Lemma preserves_Exec {A : Type} (q : DB -> res A * DB) :
  (forall db, consistent db -> consistent (snd (q db))) -> preserves (Exec q).
Proof.
  intros Hq db C. unfold after, Exec.
  destruct (budget db) as [[|n]|]; [exact C | | apply Hq; exact C].
  apply Hq. exact C.
Qed.

Create HintDb store discriminated.
#[local] Hint Resolve preserves_ret preserves_fail preserves_bind preserves_wrap
  preserves_Exec consistent_insert_message consistent_update_flags : store.

Lemma preserves_read {A : Type} (q : DB -> res A * DB) :
  (forall db, snd (q db) = db) -> preserves (Exec q).
Proof. intros Hq. apply preserves_Exec. intros db C. rewrite Hq. exact C. Qed.

Lemma preserves_other_insert (q : DB -> res Z * DB) :
  (forall db, messages (tables (snd (q db))) = messages (tables db)
              /\ seq_messages (seqs (snd (q db))) = seq_messages (seqs db)) ->
  preserves (Exec q).
Proof.
  intros Hq. apply preserves_Exec. intros db C. destruct (Hq db) as [Em Es].
  apply (consistent_same db); [exact Em | lia | exact C].
Qed.

Lemma preserves_delete (q : DB -> res unit * DB) :
  (forall db, (exists keep, messages (tables (snd (q db)))
                            = filter keep (messages (tables db)))
              /\ seqs (snd (q db)) = seqs db) ->
  preserves (Exec q).
Proof.
  intros Hq. apply preserves_Exec. intros db C. destruct (Hq db) as [[keep Em] Es].
  apply (consistent_kept db _ keep); [exact Em | rewrite Es; lia | exact C].
Qed.

Lemma preserves_CreateMessage (now : time.Time) (msg : Message) :
  preserves (Storage.CreateMessage now msg).
Proof. unfold Storage.CreateMessage. auto 6 with store. Qed.

Lemma preserves_UpdateMessageFlags (messageID : Z) (flags : string)
      (seen deleted draft : bool) :
  preserves (Storage.UpdateMessageFlags messageID flags seen deleted draft).
Proof. unfold Storage.UpdateMessageFlags. auto with store. Qed.

Lemma preserves_DeleteMessage (messageID : Z) :
  preserves (Storage.DeleteMessage messageID).
Proof.
  unfold Storage.DeleteMessage. apply preserves_wrap, preserves_delete.
  intros db. split; [|reflexivity]. simpl. rewrite drop_messages_messages.
  eexists. reflexivity.
Qed.

Lemma preserves_DeleteMailbox (mailboxID : Z) :
  preserves (Storage.DeleteMailbox mailboxID).
Proof.
  unfold Storage.DeleteMailbox. apply preserves_wrap, preserves_delete.
  intros db. split; [|reflexivity]. simpl. apply drop_mailboxes_messages.
Qed.

Lemma preserves_DeleteUser (userID : Z) : preserves (Storage.DeleteUser userID).
Proof.
  unfold Storage.DeleteUser. apply preserves_wrap, preserves_delete.
  intros db. split; [|reflexivity]. simpl. apply drop_users_messages.
Qed.

Lemma preserves_ListMessages (mailboxID : Z) :
  preserves (Storage.ListMessages mailboxID).
Proof.
  unfold Storage.ListMessages. apply preserves_wrap, preserves_read. reflexivity.
Qed.

Lemma preserves_GetMailbox (userID : Z) (name : string) :
  preserves (Storage.GetMailbox userID name).
Proof.
  unfold Storage.GetMailbox. apply preserves_bind.
  - apply preserves_wrap, preserves_read. reflexivity.
  - intros [mb|]; auto with store.
Qed.

Lemma preserves_CreateMailbox (mailbox : Mailbox) :
  preserves (Storage.CreateMailbox mailbox).
Proof.
  unfold Storage.CreateMailbox. apply preserves_bind; [|auto with store].
  apply preserves_wrap, preserves_other_insert. intros db.
  unfold insert_mailbox, rejected, accepted.
  split_ifs; destruct (backend db); simpl; split; reflexivity.
Qed.

Lemma preserves_CreateUser (now : time.Time) (user : User) :
  preserves (Storage.CreateUser now user).
Proof.
  unfold Storage.CreateUser. apply preserves_bind.
  - apply preserves_wrap, preserves_other_insert. intros db.
    unfold insert_user, rejected, accepted.
    split_ifs; destruct (backend db); simpl; split; reflexivity.
  - intros id. apply preserves_bind; [|auto with store].
    generalize (User_ID (User_set_ID id (User_set_times now user))). intros userID.
    induction Storage.default_mailboxes as [|name rest IH]; simpl; [auto with store|].
    apply preserves_bind; [|intros _; exact IH].
    apply preserves_wrap, preserves_CreateMailbox.
Qed.

#[local] Hint Resolve preserves_CreateMessage preserves_UpdateMessageFlags
  preserves_DeleteMessage preserves_ListMessages preserves_GetMailbox : store.

Lemma preserves_Expunge (m : Mailbox) : preserves (IMAPMailbox.Expunge m).
Proof.
  unfold IMAPMailbox.Expunge. apply preserves_bind; [auto with store|].
  intros msgs. induction msgs as [|msg rest IH]; simpl; [auto with store|].
  apply preserves_bind; [|intros _; exact IH].
  destruct (Deleted msg); auto with store.
Qed.

Lemma preserves_UpdateMessagesFlags (m : Mailbox) (uid : bool)
      (seqSet : imap.SeqSet) (operation : imap.FlagsOp) (flags : list string) :
  preserves (IMAPMailbox.UpdateMessagesFlags m uid seqSet operation flags).
Proof.
  unfold IMAPMailbox.UpdateMessagesFlags. apply preserves_bind; [auto with store|].
  intros msgs. generalize 0. induction msgs as [|msg rest IH]; intros i; simpl;
    [auto with store|].
  apply preserves_bind; [|intros _; apply IH].
  destruct (imap.Contains seqSet (Go.uint32 (i + 1))); [|auto with store].
  destruct (fold_left IMAPMailbox.raise_flag flags _) as [[seen deleted] draft].
  auto with store.
Qed.

Lemma preserves_Data (now created : time.Time) (s : SMTPSession.t) (r : smtp.Reader) :
  preserves (SMTPSession.Data now created s r).
Proof.
  unfold SMTPSession.Data. destruct (smtp.ReadAll r); [|auto with store].
  apply preserves_bind; [auto with store|]. intros mailbox.
  apply preserves_bind; auto with store.
Qed.

(** ** Order of search results in sequence-number mode *)

Lemma uint32_small (x : Z) : 0 <= x < 2 ^ 32 -> Go.uint32 x = x.
Proof. intros H. unfold Go.uint32. apply Z.mod_small. exact H. Qed.

Lemma search_loop_above (listing : list Message) (i : Z)
      (criteria : imap.SearchCriteria) :
  0 <= i -> i + Go.len listing < 2 ^ 32 ->
  Forall (fun s => i < s) (IMAPMailbox.search_loop i listing false criteria)
  /\ StronglySorted Z.lt (IMAPMailbox.search_loop i listing false criteria).
Proof.
  revert i. unfold Go.len.
  induction listing as [|msg rest IH]; intros i Hi Hlen; simpl.
  - split; constructor.
  - assert (0 <= i + 1 /\ i + 1 + Z.of_nat (List.length rest) < 2 ^ 32) as [H1 H2].
    { simpl List.length in Hlen. lia. }
    destruct (IH (i + 1) H1 H2) as [Fa So].
    assert (Forall (fun s => i < s)
                   (IMAPMailbox.search_loop (i + 1) rest false criteria)) as Fa'.
    { eapply Forall_impl; [|exact Fa]. simpl. intros; lia. }
    destruct (IMAPMailbox.selected criteria (Go.uint32 (i + 1)) msg); [|auto].
    rewrite uint32_small by lia. split.
    + constructor; [lia | exact Fa'].
    + constructor; [exact So | exact Fa].
Qed.

Lemma search_by_sequence_number_ascending (m : Mailbox)
      (criteria : imap.SearchCriteria) (db db' : DB) (found : list Z) :
  Go.len (rows_of_mailbox (Mailbox_ID m) (tables db)) < 2 ^ 32 ->
  IMAPMailbox.SearchMessages m false criteria db = (Ok found, db') ->
  StronglySorted Z.lt found.
Proof.
  intros Hlen E. unfold IMAPMailbox.SearchMessages, bind, wrap in E.
  destruct (Storage.ListMessages (Mailbox_ID m) db) as [[rows|e] db1] eqn:L;
    [|discriminate].
  apply ListMessages_result in L. destruct L as [-> _].
  unfold ret in E. inversion E; subst.
  apply search_loop_above; [lia | exact Hlen].
Qed.

(** * Further properties of the storage methods and the adapters *)

(** ** Statements on a connection that does not fail *)

Lemma GetUser_healthy (username : string) (db : DB) :
  healthy db ->
  Storage.GetUser username db
  = (match find (fun r => String.eqb (Username r) username) (users (tables db)) with
     | Some user => Ok user
     | None => Err ErrUserNotFound
     end, db).
Proof.
  intros H. unfold Storage.GetUser, bind, wrap. rewrite Exec_healthy by exact H.
  unfold select_user.
  destruct (find _ (users (tables db))); reflexivity.
Qed.

Lemma GetMailbox_healthy (userID : Z) (name : string) (db : DB) :
  healthy db ->
  Storage.GetMailbox userID name db
  = (match find (fun r => (UserID r =? userID) && String.eqb (Name r) name)
                (mailboxes (tables db)) with
     | Some mailbox => Ok mailbox
     | None => Err ErrMailboxNotFound
     end, db).
Proof.
  intros H. unfold Storage.GetMailbox, bind, wrap. rewrite Exec_healthy by exact H.
  unfold select_mailbox.
  destruct (find _ (mailboxes (tables db))); reflexivity.
Qed.

Lemma find_after_absent {A : Type} (p : A -> bool) (old new : list A) :
  existsb p old = false -> find p (old ++ new) = find p new.
Proof.
  induction old as [|x old IH]; simpl; intros H; [reflexivity|].
  apply orb_false_iff in H. destruct H as [Hx Hold]. rewrite Hx. apply IH. exact Hold.
Qed.

Lemma existsb_absent_app {A : Type} (p : A -> bool) (old new : list A) :
  existsb p (old ++ new) = false -> existsb p old = false.
Proof.
  rewrite existsb_app. intros H. apply orb_false_iff in H. tauto.
Qed.

Lemma CreateMailbox_accepted (mb stored : Mailbox) (db db' : DB) :
  Storage.CreateMailbox mb db = (Ok stored, db') ->
  existsb (fun r => (UserID r =? UserID mb) && String.eqb (Name r) (Name mb))
          (mailboxes (tables db)) = false
  /\ stored = Mailbox_set_ID (seq_mailboxes (seqs db) + 1) mb
  /\ mailboxes (tables db') = mailboxes (tables db) ++ [stored]
  /\ seq_mailboxes (seqs db') = seq_mailboxes (seqs db) + 1
  /\ users (tables db') = users (tables db)
  /\ messages (tables db') = messages (tables db)
  /\ attachments (tables db') = attachments (tables db)
  /\ (healthy db -> healthy db').
Proof.
  unfold Storage.CreateMailbox, bind, wrap, ret, Exec, insert_mailbox, rejected,
    accepted, healthy.
  destruct (budget db) as [[|n]|] eqn:B; simpl; try discriminate;
    split_ifs; simpl; try discriminate;
    intros E; inversion E; subst; simpl; repeat split; auto;
    intros; discriminate.
Qed.

Lemma create_defaults_accepted (userID : Z) (names : list string) (db db' : DB) :
  healthy db ->
  Storage.create_defaults userID names db = (Ok tt, db') ->
  healthy db'
  /\ users (tables db') = users (tables db)
  /\ messages (tables db') = messages (tables db)
  /\ mailboxes (tables db')
     = mailboxes (tables db)
         ++ default_rows userID (seq_mailboxes (seqs db) + 1) names
  /\ Forall (fun name =>
               existsb (fun r => (UserID r =? userID) && String.eqb (Name r) name)
                       (mailboxes (tables db)) = false) names.
Proof.
  revert db. induction names as [|name rest IH]; intros db H.
  - simpl. unfold ret. intros E. inversion E; subst. rewrite app_nil_r. auto.
  - cbn [Storage.create_defaults]. unfold bind at 1. unfold wrap at 1.
    destruct (Storage.CreateMailbox (mkMailbox 0 userID name name) db)
      as [[stored|e] db1] eqn:C; [|discriminate].
    apply CreateMailbox_accepted in C.
    destruct C as [Hnew [Es [Eb [Eseq [Eu [Em [_ Hh]]]]]]]. simpl in Hnew.
    intros E. destruct (IH db1 (Hh H) E) as [H' [Eu' [Em' [Eb' Hrest]]]].
    split; [exact H'|]. split; [congruence|]. split; [congruence|]. split.
    + rewrite Eb', Eb, Eseq, <- app_assoc. subst stored. reflexivity.
    + constructor; [exact Hnew|].
      eapply Forall_impl; [|exact Hrest]. intros a Ha. simpl in Ha.
      rewrite Eb in Ha. apply existsb_absent_app in Ha. exact Ha.
Qed.

Lemma CreateUser_accepted (now : time.Time) (user stored : User) (db db' : DB) :
  healthy db ->
  Storage.CreateUser now user db = (Ok stored, db') ->
  healthy db'
  /\ stored = User_set_ID (seq_users (seqs db) + 1) (User_set_times now user)
  /\ existsb (fun r => String.eqb (Username r) (Username user)) (users (tables db))
     = false
  /\ users (tables db') = users (tables db) ++ [stored]
  /\ messages (tables db') = messages (tables db)
  /\ mailboxes (tables db')
     = mailboxes (tables db)
         ++ default_rows (User_ID stored) (seq_mailboxes (seqs db) + 1)
                         Storage.default_mailboxes
  /\ Forall (fun name =>
               existsb (fun r => (UserID r =? User_ID stored)
                                 && String.eqb (Name r) name)
                       (mailboxes (tables db)) = false)
            Storage.default_mailboxes.
Proof.
  intros H. unfold Storage.CreateUser. unfold bind at 1. unfold wrap at 1.
  rewrite Exec_healthy by exact H. unfold insert_user, rejected, accepted.
  destruct (existsb (fun r => String.eqb (Username r) (Username (User_set_times now user)))
                    (users (tables db))) eqn:Ename; [cbn [orb]; discriminate|].
  destruct (existsb (fun r => String.eqb (Email r) (Email (User_set_times now user)))
                    (users (tables db))) eqn:Email; [cbn [orb]; discriminate|].
  cbn [orb].
  set (s0 := User_set_ID (seq_users (seqs db) + 1) (User_set_times now user)).
  set (db1 := set_seqs _ _).
  unfold bind.
  destruct (Storage.create_defaults (User_ID s0) Storage.default_mailboxes db1)
    as [[[]|e] db2] eqn:D; [|discriminate].
  apply create_defaults_accepted in D; [|exact H].
  destruct D as [H2 [Eu [Em [Eb Hn]]]].
  unfold ret. intros E. inversion E; subst stored db'.
  repeat split; try assumption.
Qed.

(** ** Authentication *)

(** X1.  A user that [CreateUser] has stored on a working connection
    authenticates with the password given at creation, in the storage and
    in both protocol back ends, and gets the stored record back; any other
    password is refused with [senha inválida]; none of these calls changes
    the store. *)
Theorem created_user_authenticates (now : time.Time) (user stored : User)
        (db db' : DB) :
  healthy db ->
  Storage.CreateUser now user db = (Ok stored, db') ->
  Storage.AuthenticateUser (Username user) (Password user) db' = (Ok stored, db')
  /\ SMTPSession.Login (Username user) (Password user) db'
     = (Ok (SMTPSession.mkSession stored "" []), db')
  /\ IMAPBackend.Login (Username user) (Password user) db' = (Ok stored, db')
  /\ (forall password,
         password <> Password user ->
         Storage.AuthenticateUser (Username user) password db'
         = (Err (Errorf "senha inválida"), db')).
Proof.
  intros H C. apply CreateUser_accepted in C; [|exact H].
  destruct C as [H' [Es [Hname [Eu _]]]].
  assert (forall password,
             Storage.AuthenticateUser (Username user) password db'
             = (if negb (String.eqb (Password user) password)
                then Err (Errorf "senha inválida") else Ok stored, db')) as A.
  { intros password. unfold Storage.AuthenticateUser, bind.
    rewrite GetUser_healthy by exact H'. rewrite Eu.
    rewrite find_after_absent by exact Hname. subst stored. simpl.
    rewrite String.eqb_refl.
    change (Password (User_set_ID (seq_users (seqs db) + 1) (User_set_times now user)))
      with (Password user).
    destruct (String.eqb (Password user) password); reflexivity. }
  repeat split.
  - rewrite A, String.eqb_refl. reflexivity.
  - unfold SMTPSession.Login, bind, wrap. rewrite A, String.eqb_refl. reflexivity.
  - unfold IMAPBackend.Login, wrap. rewrite A, String.eqb_refl. reflexivity.
  - intros password Hne. rewrite A.
    destruct (String.eqb_spec (Password user) password) as [E|_];
      [congruence | reflexivity].
Qed.

Lemma created_user_authenticates_witness :
  healthy OpenSQLite
  /\ Storage.AuthenticateUser "alice" "secret" alice_on_sqlite
     = (Ok (mkUser 1 "alice" "secret" "Alice" "alice@example.org"
                   (time.UTC 100) (time.UTC 100)), alice_on_sqlite)
  /\ (forall password,
         password <> "secret" ->
         Storage.AuthenticateUser "alice" password alice_on_sqlite
         = (Err (Errorf "senha inválida"), alice_on_sqlite)).
Proof.
  split; [reflexivity|].
  destruct (created_user_authenticates
              (time.UTC 100) alice
              (mkUser 1 "alice" "secret" "Alice" "alice@example.org"
                      (time.UTC 100) (time.UTC 100))
              OpenSQLite alice_on_sqlite eq_refl eq_refl) as [A [_ [_ B]]].
  split; [exact A | exact B].
Defined.

(** X2.  On a working connection a user name that no row carries is
    refused with [ErrUserNotFound], which both protocol back ends wrap as
    [autenticação falhou]; an anonymous SMTP login is refused outright;
    the store is left as it was. *)
Theorem unknown_user_is_refused (username password : string) (db : DB) :
  healthy db ->
  (forall r, In r (users (tables db)) -> Username r <> username) ->
  Storage.AuthenticateUser username password db = (Err ErrUserNotFound, db)
  /\ SMTPSession.Login username password db
     = (Err (Wrap "autenticação falhou" ErrUserNotFound), db)
  /\ IMAPBackend.Login username password db
     = (Err (Wrap "autenticação falhou" ErrUserNotFound), db)
  /\ SMTPBackend.AnonymousLogin db
     = (Err (Errorf "login anônimo não permitido"), db).
Proof.
  intros H Hno.
  assert (Storage.AuthenticateUser username password db = (Err ErrUserNotFound, db)) as A.
  { unfold Storage.AuthenticateUser, bind. rewrite GetUser_healthy by exact H.
    destruct (find _ (users (tables db))) as [u|] eqn:F; [|reflexivity].
    apply find_some in F. destruct F as [Hin E]. apply String.eqb_eq in E.
    exfalso. exact (Hno u Hin E). }
  repeat split.
  - exact A.
  - unfold SMTPSession.Login, bind, wrap. rewrite A. reflexivity.
  - unfold IMAPBackend.Login, wrap. rewrite A. reflexivity.
Qed.

Lemma unknown_user_is_refused_witness :
  Storage.AuthenticateUser "mallory" "x" alice_on_postgres
  = (Err ErrUserNotFound, alice_on_postgres)
  /\ IMAPBackend.Login "mallory" "x" alice_on_postgres
     = (Err (Wrap "autenticação falhou" ErrUserNotFound), alice_on_postgres).
Proof.
  destruct (unknown_user_is_refused "mallory" "x" alice_on_postgres eq_refl)
    as [A [_ [B _]]].
  - simpl. intros r [<-|[]]. discriminate.
  - split; [exact A | exact B].
Defined.

(** ** Default mailboxes *)

Lemma insert_by_name_rows (m : Mailbox) (sorted : list Mailbox) :
  Permutation (insert_by_name m sorted) (m :: sorted).
Proof.
  induction sorted as [|x rest IH]; simpl; [apply Permutation_refl|].
  destruct (String.leb (Name m) (Name x)); [apply Permutation_refl|].
  apply perm_trans with (x :: m :: rest); [|apply perm_swap].
  apply perm_skip. exact IH.
Qed.

Lemma scan_mailboxes_rows (b : Backend) (rows : list Mailbox) :
  Permutation (scan_mailboxes b rows) rows.
Proof.
  destruct b; [|apply Permutation_refl]. unfold scan_mailboxes, order_by_name.
  induction rows as [|m rows IH]; simpl; [apply Permutation_refl|].
  apply perm_trans with (m :: fold_right insert_by_name [] rows);
    [apply insert_by_name_rows | apply perm_skip; exact IH].
Qed.

Lemma ListMailboxes_healthy (userID : Z) (db : DB) :
  healthy db ->
  Storage.ListMailboxes userID db
  = (Ok (scan_mailboxes (backend db)
                        (filter (fun r => UserID r =? userID) (mailboxes (tables db)))),
     db).
Proof.
  intros H. unfold Storage.ListMailboxes, wrap. rewrite Exec_healthy by exact H.
  reflexivity.
Qed.

(** X3.  After a [CreateUser] that succeeded on a working connection, each of
    [INBOX], [Sent], [Drafts] and [Trash] is found by [GetMailbox] under the
    new user's id, as the row that was inserted (path equal to the name, ids
    consecutive in that order), and [ListMailboxes], in the storage and
    through the IMAP user, returns these four rows and the rows that were
    under that user id before, in an order that is left open. *)
Theorem default_mailboxes_are_found (now : time.Time) (user stored : User)
        (db db' : DB) :
  healthy db ->
  Storage.CreateUser now user db = (Ok stored, db') ->
  let first := seq_mailboxes (seqs db) + 1 in
  let rows := [mkMailbox first (User_ID stored) "INBOX" "INBOX";
               mkMailbox (first + 1) (User_ID stored) "Sent" "Sent";
               mkMailbox (first + 1 + 1) (User_ID stored) "Drafts" "Drafts";
               mkMailbox (first + 1 + 1 + 1) (User_ID stored) "Trash" "Trash"] in
  Forall (fun row => Storage.GetMailbox (User_ID stored) (Name row) db' = (Ok row, db'))
         rows
  /\ exists listing,
      Storage.ListMailboxes (User_ID stored) db' = (Ok listing, db')
      /\ IMAPUser.ListMailboxes stored false db' = (Ok listing, db')
      /\ Permutation listing
                     (filter (fun r => UserID r =? User_ID stored)
                             (mailboxes (tables db)) ++ rows).
Proof.
  intros H C first rows. apply CreateUser_accepted in C; [|exact H].
  destruct C as [H' [_ [_ [_ [_ [Eb Hn]]]]]].
  change (default_rows (User_ID stored) (seq_mailboxes (seqs db) + 1)
                       Storage.default_mailboxes) with rows in Eb.
  split.
  - unfold Storage.default_mailboxes in Hn.
    inversion Hn as [|? ? N1 Hn1]; subst. inversion Hn1 as [|? ? N2 Hn2]; subst.
    inversion Hn2 as [|? ? N3 Hn3]; subst. inversion Hn3 as [|? ? N4 _]; subst.
    repeat constructor; rewrite GetMailbox_healthy by exact H'; rewrite Eb;
      cbn [Name]; rewrite find_after_absent by assumption;
      unfold rows; simpl; rewrite Z.eqb_refl; reflexivity.
  - pose proof (ListMailboxes_healthy (User_ID stored) db' H') as L.
    eexists. split; [exact L|]. split.
    + unfold IMAPUser.ListMailboxes, wrap. rewrite L. reflexivity.
    + eapply perm_trans; [apply scan_mailboxes_rows|].
      rewrite Eb, filter_app. unfold rows. simpl. rewrite Z.eqb_refl.
      apply Permutation_refl.
Qed.

Lemma default_mailboxes_are_found_witness :
  healthy OpenSQLite
  /\ Storage.GetMailbox 1 "Drafts" alice_on_sqlite
     = (Ok (mkMailbox 3 1 "Drafts" "Drafts"), alice_on_sqlite)
  /\ exists listing,
      Storage.ListMailboxes 1 alice_on_sqlite = (Ok listing, alice_on_sqlite)
      /\ Permutation listing
                     [mkMailbox 1 1 "INBOX" "INBOX"; mkMailbox 2 1 "Sent" "Sent";
                      mkMailbox 3 1 "Drafts" "Drafts"; mkMailbox 4 1 "Trash" "Trash"].
Proof.
  split; [reflexivity|].
  destruct (default_mailboxes_are_found
              (time.UTC 100) alice
              (mkUser 1 "alice" "secret" "Alice" "alice@example.org"
                      (time.UTC 100) (time.UTC 100))
              OpenSQLite alice_on_sqlite eq_refl eq_refl) as [F [listing [L [_ P]]]].
  split.
  - inversion F as [|? ? _ F1]; subst. inversion F1 as [|? ? _ F2]; subst.
    inversion F2 as [|? ? D _]; subst. exact D.
  - exists listing. split; [exact L | exact P].
Defined.

(** ** Storing and finding messages *)

Lemma GetMailbox_result (userID : Z) (name : string) (db db1 : DB)
      (r : res Mailbox) :
  Storage.GetMailbox userID name db = (r, db1) ->
  tables db1 = tables db /\ seqs db1 = seqs db
  /\ backend db1 = backend db /\ pragma_foreign_keys db1 = pragma_foreign_keys db
  /\ match r with
     | Ok mailbox =>
         In mailbox (mailboxes (tables db))
         /\ UserID mailbox = userID /\ Name mailbox = name
     | Err e =>
         e = Wrap "falha ao obter caixa de correio" ConnectionFailure
         \/ (e = ErrMailboxNotFound
             /\ forall mailbox, In mailbox (mailboxes (tables db)) ->
                                UserID mailbox = userID -> Name mailbox <> name)
     end.
Proof.
  unfold Storage.GetMailbox, bind, wrap, Exec, select_mailbox.
  destruct (budget db) as [[|n]|]; simpl;
    try (intros E; inversion E; subst; repeat split; left; reflexivity);
    destruct (find _ (mailboxes (tables db))) as [mb|] eqn:F; simpl;
    intros E; inversion E; subst; repeat split;
    try (apply find_some in F; destruct F as [Hin Hk];
         apply andb_true_iff in Hk; destruct Hk as [Hu Hn];
         apply Z.eqb_eq in Hu; apply String.eqb_eq in Hn; assumption);
    right; (split; [reflexivity|]); intros mailbox Hin Hu Hn;
    pose proof (find_none _ _ F mailbox Hin) as X; simpl in X;
    rewrite Hu, Hn, Z.eqb_refl, String.eqb_refl in X; discriminate.
Qed.

Lemma CreateMessage_result (now : time.Time) (msg : Message) (db db' : DB)
      (r : res Message) :
  Storage.CreateMessage now msg db = (r, db') ->
  users (tables db') = users (tables db)
  /\ mailboxes (tables db') = mailboxes (tables db)
  /\ attachments (tables db') = attachments (tables db)
  /\ match r with
     | Ok stored =>
         stored = Message_set_ID (seq_messages (seqs db) + 1)
                                 (Message_set_Created now msg)
         /\ messages (tables db') = messages (tables db) ++ [stored]
         /\ existsb (fun x => (MailboxID x =? MailboxID msg) && (UID x =? UID msg))
                    (messages (tables db)) = false
     | Err _ => messages (tables db') = messages (tables db)
     end.
Proof.
  unfold Storage.CreateMessage, bind, wrap, ret, Exec, insert_message, rejected, accepted.
  destruct (budget db) as [[|n]|]; simpl; split_ifs; simpl;
    intros E; inversion E; subst; simpl; repeat split; auto.
Qed.

(** X4.  When [Data] returns without error, the reader gave the whole body
    and exactly one row has been added to [messages]: it lies in the [INBOX]
    of the session's user, whatever the recipients are, and carries the
    sender of the session, the recipients joined by commas, the body both as
    text and as raw bytes, its length as size, uid 0, no flag, the two
    instants, and the next id of the sequence; no other table is changed. *)
Theorem Data_commits_to_inbox_of_session_user (now created : time.Time)
        (s : SMTPSession.t) (r : smtp.Reader) (db db' : DB) :
  SMTPSession.Data now created s r db = (Ok tt, db') ->
  exists body mailbox,
    smtp.ReadAll r = Ok body
    /\ In mailbox (mailboxes (tables db))
    /\ UserID mailbox = User_ID (SMTPSession.user s)
    /\ Name mailbox = "INBOX"
    /\ messages (tables db')
       = messages (tables db)
           ++ [mkMessage (seq_messages (seqs db) + 1) (Mailbox_ID mailbox) 0
                         (SMTPSession.from s) (Go.Join (SMTPSession.to s) ",")
                         "" "" now (Go.string_of_bytes body) body ""
                         (Go.len body) false false false created]
    /\ users (tables db') = users (tables db)
    /\ mailboxes (tables db') = mailboxes (tables db)
    /\ attachments (tables db') = attachments (tables db).
Proof.
  unfold SMTPSession.Data. destruct (smtp.ReadAll r) as [body|e]; [|discriminate].
  unfold bind at 1. unfold wrap at 1.
  destruct (Storage.GetMailbox (User_ID (SMTPSession.user s)) "INBOX" db)
    as [[mailbox|e] db1] eqn:G; [|discriminate].
  apply GetMailbox_result in G. destruct G as [Et [Es [_ [_ [Hin [Hu Hn]]]]]].
  unfold bind, wrap.
  destruct (Storage.CreateMessage created _ db1) as [[stored|e] db2] eqn:C;
    [|discriminate].
  apply CreateMessage_result in C. destruct C as [Eu [Eb [Ea [Est [Em _]]]]].
  unfold ret. intros E. inversion E; subst db2.
  exists body, mailbox. rewrite Em, Eu, Eb, Ea, Et, Est, Es.
  repeat split; assumption.
Qed.

Lemma Data_commits_to_inbox_of_session_user_witness :
  exists body mailbox,
    smtp.ReadAll (smtp.dataReader (SMTPSession.StartSMTPServer readme_config) ten_bytes)
    = Ok body
    /\ In mailbox (mailboxes (tables alice_on_sqlite))
    /\ UserID mailbox = 1
    /\ Name mailbox = "INBOX"
    /\ messages (tables one_letter)
       = messages (tables alice_on_sqlite)
           ++ [mkMessage (seq_messages (seqs alice_on_sqlite) + 1) (Mailbox_ID mailbox) 0
                         "bob@example.org" (Go.Join ["alice@example.org"] ",")
                         "" "" (time.UTC 200) (Go.string_of_bytes body) body ""
                         (Go.len body) false false false (time.UTC 201)]
    /\ users (tables one_letter) = users (tables alice_on_sqlite)
    /\ mailboxes (tables one_letter) = mailboxes (tables alice_on_sqlite)
    /\ attachments (tables one_letter) = attachments (tables alice_on_sqlite).
Proof.
  exact (Data_commits_to_inbox_of_session_user
           (time.UTC 200) (time.UTC 201) alice_session
           (smtp.dataReader (SMTPSession.StartSMTPServer readme_config) ten_bytes)
           alice_on_sqlite one_letter eq_refl).
Defined.

(** X5.  When [Data] returns an error, no table of the store has changed:
    the submission is either stored whole or not at all. *)
Theorem Data_failure_stores_nothing (now created : time.Time)
        (s : SMTPSession.t) (r : smtp.Reader) (db db' : DB) (e : error) :
  SMTPSession.Data now created s r db = (Err e, db') ->
  tables db' = tables db.
Proof.
  unfold SMTPSession.Data. destruct (smtp.ReadAll r) as [body|e0].
  - unfold bind at 1. unfold wrap at 1.
    destruct (Storage.GetMailbox (User_ID (SMTPSession.user s)) "INBOX" db)
      as [[mailbox|e1] db1] eqn:G; apply GetMailbox_result in G;
      destruct G as [Et _].
    + unfold bind, wrap.
      destruct (Storage.CreateMessage created _ db1) as [[stored|e2] db2] eqn:C;
        [discriminate|].
      apply CreateMessage_result in C. destruct C as [Eu [Eb [Ea Em]]].
      intros E. inversion E; subst db2. rewrite <- Et.
      destruct (tables db'), (tables db1). simpl in *. congruence.
    + intros E. inversion E; subst. exact Et.
  - unfold fail. intros E. inversion E. reflexivity.
Qed.

Lemma Data_failure_stores_nothing_witness :
  tables (after (SMTPSession.submit readme_config (time.UTC 300) (time.UTC 301)
                                    alice_session ten_bytes) one_letter)
  = tables one_letter.
Proof.
  exact (Data_failure_stores_nothing
           (time.UTC 300) (time.UTC 301) alice_session
           (smtp.dataReader (SMTPSession.StartSMTPServer readme_config) ten_bytes)
           one_letter
           (after (SMTPSession.submit readme_config (time.UTC 300) (time.UTC 301)
                                      alice_session ten_bytes) one_letter)
           (Wrap "falha ao salvar mensagem"
                 (Wrap "falha ao criar mensagem"
                       (UniqueViolation "messages.mailbox_id, messages.uid")))
           eq_refl).
Defined.

(** X6.  On a working connection, when the session's user has no mailbox
    named [INBOX] a submission whose body was read in full is refused with
    [ErrMailboxNotFound], wrapped as [falha ao obter caixa de entrada], and
    the store is left as it was. *)
Theorem Data_without_inbox_is_refused (now created : time.Time)
        (s : SMTPSession.t) (r : smtp.Reader) (db : DB) :
  healthy db ->
  smtp.failure r = None ->
  (forall mailbox, In mailbox (mailboxes (tables db)) ->
                   UserID mailbox = User_ID (SMTPSession.user s) ->
                   Name mailbox <> "INBOX") ->
  SMTPSession.Data now created s r db
  = (Err (Wrap "falha ao obter caixa de entrada" ErrMailboxNotFound), db).
Proof.
  intros H Hr Hno. unfold SMTPSession.Data, smtp.ReadAll. rewrite Hr.
  unfold bind, wrap. rewrite GetMailbox_healthy by exact H.
  destruct (find _ (mailboxes (tables db))) as [mb|] eqn:F; [|reflexivity].
  apply find_some in F. destruct F as [Hin Hk].
  apply andb_true_iff in Hk. destruct Hk as [Hu Hn].
  apply Z.eqb_eq in Hu. apply String.eqb_eq in Hn.
  exfalso. exact (Hno mb Hin Hu Hn).
Qed.

Lemma Data_without_inbox_is_refused_witness :
  SMTPSession.Data (time.UTC 200) (time.UTC 201) bob_session
                   (smtp.mkReader ten_bytes None) alice_on_sqlite
  = (Err (Wrap "falha ao obter caixa de entrada" ErrMailboxNotFound), alice_on_sqlite).
Proof.
  apply (Data_without_inbox_is_refused
           (time.UTC 200) (time.UTC 201) bob_session
           (smtp.mkReader ten_bytes None) alice_on_sqlite eq_refl eq_refl).
  simpl. intros mailbox [<-|[<-|[<-|[<-|[]]]]]; simpl; intros; discriminate.
Defined.

Lemma GetMessage_healthy (mailboxID uid : Z) (db : DB) :
  healthy db ->
  Storage.GetMessage mailboxID uid db
  = (match find (fun r => (MailboxID r =? mailboxID) && (UID r =? uid))
                (messages (tables db)) with
     | Some message => Ok message
     | None => Err ErrMessageNotFound
     end, db).
Proof.
  intros H. unfold Storage.GetMessage, bind, wrap. rewrite Exec_healthy by exact H.
  unfold select_message.
  destruct (find _ (messages (tables db))); reflexivity.
Qed.

Lemma CreateMessage_keeps_health (now : time.Time) (msg : Message) (db : DB) :
  healthy db -> healthy (after (Storage.CreateMessage now msg) db).
Proof.
  intros H. unfold after, Storage.CreateMessage, bind, wrap, ret.
  rewrite Exec_healthy by exact H.
  unfold insert_message, rejected, accepted.
  split_ifs; try destruct (backend db); exact H.
Qed.

(** X7.  A message that [CreateMessage] has stored on a working connection
    is the one [GetMessage] returns for its mailbox and uid, and it is in
    the listing of its mailbox; a further [CreateMessage] with the same
    mailbox and uid is refused as a violation of the uniqueness constraint
    and leaves every table as it is. *)
Theorem stored_message_is_found_and_not_duplicated (now : time.Time)
        (msg stored : Message) (db db' : DB) :
  healthy db ->
  Storage.CreateMessage now msg db = (Ok stored, db') ->
  Storage.GetMessage (MailboxID msg) (UID msg) db' = (Ok stored, db')
  /\ In stored (rows_of_mailbox (MailboxID msg) (tables db'))
  /\ (forall later other,
         MailboxID other = MailboxID msg -> UID other = UID msg ->
         outcome (Storage.CreateMessage later other) db'
         = Err (Wrap "falha ao criar mensagem"
                     (UniqueViolation "messages.mailbox_id, messages.uid"))
         /\ tables (after (Storage.CreateMessage later other) db') = tables db').
Proof.
  intros H C.
  assert (healthy db') as H'.
  { pose proof (CreateMessage_keeps_health now msg db H) as X.
    unfold after in X. rewrite C in X. exact X. }
  apply CreateMessage_result in C. destruct C as [_ [_ [_ [Es [Em Hnew]]]]].
  assert (MailboxID stored = MailboxID msg /\ UID stored = UID msg) as [Kb Ku]
      by (subst stored; split; reflexivity).
  split; [|split].
  - rewrite GetMessage_healthy by exact H'. rewrite Em.
    rewrite find_after_absent by exact Hnew. simpl.
    rewrite Kb, Ku, !Z.eqb_refl. reflexivity.
  - apply rows_of_mailbox_In. split; [|exact Kb].
    rewrite Em. apply in_or_app. right. left. reflexivity.
  - intros later other Eb Eu.
    unfold outcome, after, Storage.CreateMessage, bind, wrap.
    rewrite Exec_healthy by exact H'. unfold insert_message, rejected.
    assert (existsb (fun r => (MailboxID r =? MailboxID (Message_set_Created later other))
                              && (UID r =? UID (Message_set_Created later other)))
                    (messages (tables db')) = true) as X.
    { apply existsb_exists. exists stored. split.
      - rewrite Em. apply in_or_app. right. left. reflexivity.
      - simpl. rewrite Kb, Ku, Eb, Eu, !Z.eqb_refl. reflexivity. }
    rewrite X. destruct (backend db'); split; reflexivity.
Qed.

Lemma stored_message_is_found_and_not_duplicated_witness :
  outcome (Storage.GetMessage 1 7) (after (Storage.CreateMessage (time.UTC 5) (letter 1 7 4))
                                          alice_on_postgres)
  = Ok (mkMessage 1 1 7 "bob@example.org" "alice@example.org" "" "hello"
                  (time.UTC 4) "hi" [Byte.x68; Byte.x69] "" 2
                  false false false (time.UTC 5)).
Proof.
  pose proof (stored_message_is_found_and_not_duplicated
                (time.UTC 5) (letter 1 7 4)
                (mkMessage 1 1 7 "bob@example.org" "alice@example.org" "" "hello"
                           (time.UTC 4) "hi" [Byte.x68; Byte.x69] "" 2
                           false false false (time.UTC 5))
                alice_on_postgres
                (after (Storage.CreateMessage (time.UTC 5) (letter 1 7 4))
                       alice_on_postgres)
                eq_refl eq_refl) as [G _].
  unfold outcome. simpl MailboxID in G. simpl UID in G. rewrite G. reflexivity.
Defined.

(** X8.  On a working connection and a store that meets the two constraints
    of the [messages] table, [ListMessages] returns, without changing the
    store, exactly the rows of the mailbox, each once, in strictly ascending
    order of the uid. *)
Theorem ListMessages_is_the_mailbox_in_uid_order (mailboxID : Z) (db : DB) :
  healthy db -> wf db ->
  exists rows,
    Storage.ListMessages mailboxID db = (Ok rows, db)
    /\ (forall x, In x rows <-> In x (messages (tables db)) /\ MailboxID x = mailboxID)
    /\ List.length rows
       = List.length (filter (fun x => MailboxID x =? mailboxID) (messages (tables db)))
    /\ NoDup (map ID rows)
    /\ StronglySorted uid_lt rows.
Proof.
  intros H Hwf. exists (rows_of_mailbox mailboxID (tables db)).
  split; [apply ListMessages_healthy; exact H|].
  split; [intros x; apply rows_of_mailbox_In|].
  split; [unfold rows_of_mailbox; apply order_by_uid_length|].
  split; [apply rows_of_mailbox_NoDup; exact Hwf|].
  apply rows_of_mailbox_strictly_sorted. exact Hwf.
Qed.

Lemma ListMessages_is_the_mailbox_in_uid_order_witness :
  exists rows,
    Storage.ListMessages 1 uids_out_of_order = (Ok rows, uids_out_of_order)
    /\ (forall x, In x rows
                  <-> In x (messages (tables uids_out_of_order)) /\ MailboxID x = 1)
    /\ List.length rows
       = List.length (filter (fun x => MailboxID x =? 1)
                             (messages (tables uids_out_of_order)))
    /\ NoDup (map ID rows)
    /\ StronglySorted uid_lt rows.
Proof.
  apply (ListMessages_is_the_mailbox_in_uid_order 1 uids_out_of_order);
    [reflexivity | apply wfb_wf; reflexivity].
Defined.

(** ** Sequence numbers and fetch items *)

Lemma everything_contains (q : Z) :
  1 <= q -> imap.Contains [imap.mkSeq 1 0] q = true.
Proof.
  intros Hq. unfold imap.Contains, imap.Seq_Contains. simpl.
  assert ((1 <=? q) = true) as -> by (apply Z.leb_le; lia).
  assert ((q =? 0) = false) as -> by (apply Z.eqb_neq; lia).
  rewrite orb_true_r. reflexivity.
Qed.

Lemma positions_shift (listing : list Message) (ks : list nat) :
  combine (map S ks) listing
  = map (fun p => (S (fst p), snd p)) (combine ks listing).
Proof.
  revert listing. induction ks as [|k ks IH]; intros [|msg rest]; simpl;
    try reflexivity.
  rewrite IH. reflexivity.
Qed.

Lemma positions_of (listing : list Message) (ks : list nat) :
  List.length ks = List.length listing ->
  map fst (combine ks listing) = ks /\ map snd (combine ks listing) = listing.
Proof.
  revert listing. induction ks as [|k ks IH]; intros [|msg rest]; simpl;
    intros E; try discriminate; [split; reflexivity|].
  destruct (IH rest) as [A B]; [congruence|]. rewrite A, B. split; reflexivity.
Qed.

Lemma list_loop_everything (listing : list Message) (i : Z)
      (items : list imap.FetchItem) :
  0 <= i -> i + Go.len listing < 2 ^ 32 ->
  IMAPMailbox.list_loop i listing [imap.mkSeq 1 0] items
  = map (fun p => imap.mkMessage
                    (i + Z.of_nat (fst p) + 1) (Go.uint32 (ID (snd p)))
                    (fold_left (IMAPMailbox.fetch_item (snd p)) items []))
        (combine (seq 0 (List.length listing)) listing).
Proof.
  revert i. unfold Go.len.
  induction listing as [|msg rest IH]; intros i Hi Hlen; [reflexivity|].
  cbn [IMAPMailbox.list_loop List.length seq combine map fst snd].
  simpl List.length in Hlen.
  rewrite uint32_small by lia. rewrite everything_contains by lia.
  f_equal; [f_equal; simpl; lia|].
  rewrite IH by lia. rewrite <- seq_shift, positions_shift, map_map.
  apply map_ext. intros [k r]. simpl. f_equal. lia.
Qed.

(** X9.  On a working connection, a fetch of [1:*] from a mailbox of fewer
    than 2^32 messages returns one entry per message of the listing, in the
    order of the listing, numbered 1, 2, 3, ... without gaps, whatever the
    addressing mode; the store is not changed. *)
Theorem fetch_of_all_numbers_from_one (m : Mailbox) (uid : bool)
        (items : list imap.FetchItem) (db : DB) :
  healthy db ->
  Go.len (rows_of_mailbox (Mailbox_ID m) (tables db)) < 2 ^ 32 ->
  exists out,
    IMAPMailbox.ListMessages m uid [imap.mkSeq 1 0] items db = (Ok out, db)
    /\ map imap.SeqNum out
       = map (fun k => Z.of_nat k + 1)
             (seq 0 (List.length (rows_of_mailbox (Mailbox_ID m) (tables db))))
    /\ map imap.Uid out
       = map (fun r => Go.uint32 (ID r)) (rows_of_mailbox (Mailbox_ID m) (tables db)).
Proof.
  intros H Hlen. eexists. split.
  - unfold IMAPMailbox.ListMessages, bind, wrap.
    rewrite ListMessages_healthy by exact H. unfold ret.
    rewrite list_loop_everything by (try exact Hlen; lia). reflexivity.
  - set (rows := rows_of_mailbox (Mailbox_ID m) (tables db)).
    rewrite !map_map. simpl. split.
    + rewrite <- (map_map fst (fun k => Z.of_nat k + 1)).
      rewrite (proj1 (positions_of rows _ (length_seq _ _))). reflexivity.
    + rewrite <- (map_map snd (fun r => Go.uint32 (ID r))).
      rewrite (proj2 (positions_of rows _ (length_seq _ _))). reflexivity.
Qed.

Lemma fetch_of_all_numbers_from_one_witness :
  exists out,
    IMAPMailbox.ListMessages inbox true [imap.mkSeq 1 0] [imap.FetchFlags] three_letters
    = (Ok out, three_letters)
    /\ map imap.SeqNum out
       = map (fun k => Z.of_nat k + 1)
             (seq 0 (List.length (rows_of_mailbox 1 (tables three_letters))))
    /\ map imap.Uid out
       = map (fun r => Go.uint32 (ID r)) (rows_of_mailbox 1 (tables three_letters)).
Proof.
  apply (fetch_of_all_numbers_from_one inbox true [imap.FetchFlags] three_letters);
    [reflexivity | vm_compute; reflexivity].
Defined.

Lemma present_put (k k0 : imap.FetchItem) (v : imap.FetchValue) (m : imap.ItemMap) :
  present k (imap.put k0 v m) = String.eqb k0 k || present k m.
Proof.
  unfold present. destruct (String.eqb_spec k0 k) as [->|Hne].
  - rewrite get_put_same. reflexivity.
  - rewrite get_put_other by exact Hne. reflexivity.
Qed.

Lemma In_supported (k : imap.FetchItem) :
  In k supported_items <-> existsb (String.eqb k) supported_items = true.
Proof.
  rewrite existsb_exists. split.
  - intros H. exists k. split; [exact H | apply String.eqb_refl].
  - intros [x [Hx E]]. apply String.eqb_eq in E. subst. exact Hx.
Qed.

Lemma present_fetch_item (msg : Message) (acc : imap.ItemMap)
      (item k : imap.FetchItem) :
  present k (IMAPMailbox.fetch_item msg acc item)
  = (String.eqb item k && existsb (String.eqb item) supported_items)
    || present k acc.
Proof.
  unfold IMAPMailbox.fetch_item, supported_items. cbn [existsb].
  rewrite !(String.eqb_sym item).
  destruct (String.eqb imap.FetchEnvelope item);
    [rewrite present_put, (String.eqb_sym item); cbn; rewrite andb_true_r; reflexivity|].
  destruct (String.eqb imap.FetchBody item);
    [cbn [orb]; rewrite present_put, (String.eqb_sym item); cbn; rewrite andb_true_r; reflexivity|].
  destruct (String.eqb imap.FetchBodyStructure item);
    [cbn [orb]; rewrite present_put, (String.eqb_sym item); cbn; rewrite andb_true_r; reflexivity|].
  cbn [orb].
  destruct (String.eqb imap.FetchFlags item);
    [rewrite present_put, (String.eqb_sym item); cbn; rewrite andb_true_r; reflexivity|].
  destruct (String.eqb imap.FetchInternalDate item);
    [rewrite present_put, (String.eqb_sym item); cbn; rewrite andb_true_r; reflexivity|].
  destruct (String.eqb imap.FetchRFC822Size item);
    [rewrite present_put, (String.eqb_sym item); cbn; rewrite andb_true_r; reflexivity|].
  destruct (String.eqb imap.FetchUid item);
    [rewrite present_put, (String.eqb_sym item); cbn; rewrite andb_true_r; reflexivity|].
  rewrite andb_false_r. reflexivity.
Qed.

Lemma present_after_fetch (msg : Message) (items : list imap.FetchItem)
      (acc : imap.ItemMap) (k : imap.FetchItem) :
  present k (fold_left (IMAPMailbox.fetch_item msg) items acc)
  = (existsb (String.eqb k) items && existsb (String.eqb k) supported_items)
    || present k acc.
Proof.
  revert acc. induction items as [|item items IH]; intros acc; [reflexivity|].
  cbn [fold_left existsb]. rewrite IH, present_fetch_item.
  rewrite (String.eqb_sym k item).
  destruct (String.eqb_spec item k) as [->|Hne]; cbn [andb orb].
  - destruct (existsb (String.eqb k) supported_items);
      destruct (existsb (String.eqb k) items); reflexivity.
  - reflexivity.
Qed.

(** X10.  In every message that [ListMessages] of the adapter returns, an
    item is present exactly when it was requested and is one of the seven
    that the adapter supports: a requested item it does not know is left out
    without an error, and nothing is returned that was not asked for. *)
Theorem fetched_items_are_the_supported_requested_ones (m : Mailbox) (uid : bool)
        (seqSet : imap.SeqSet) (items : list imap.FetchItem) (db db' : DB)
        (out : list imap.Message) :
  IMAPMailbox.ListMessages m uid seqSet items db = (Ok out, db') ->
  Forall (fun o => forall k,
              present k (imap.Items o)
              = existsb (String.eqb k) items
                && existsb (String.eqb k) supported_items) out.
Proof.
  intros E. unfold IMAPMailbox.ListMessages, bind, wrap in E.
  destruct (Storage.ListMessages (Mailbox_ID m) db) as [[rows|e] db1]; [|discriminate].
  unfold ret in E. inversion E; subst. rewrite list_loop_numbered.
  apply Forall_forall. intros o Ho. apply in_map_iff in Ho.
  destruct Ho as [p [<- _]]. intros k. simpl.
  rewrite present_after_fetch. apply orb_false_r.
Qed.

Lemma fetched_items_are_the_supported_requested_ones_witness :
  Forall (fun o => forall k,
              present k (imap.Items o)
              = existsb (String.eqb k) ["X-UNKNOWN"; imap.FetchUid]
                && existsb (String.eqb k) supported_items)
         (match outcome (IMAPMailbox.ListMessages inbox false [imap.mkSeq 1 0]
                                                  ["X-UNKNOWN"; imap.FetchUid])
                        three_letters with
          | Ok out => out
          | Err _ => []
          end).
Proof.
  apply (fetched_items_are_the_supported_requested_ones
           inbox false [imap.mkSeq 1 0] ["X-UNKNOWN"; imap.FetchUid]
           three_letters three_letters).
  reflexivity.
Defined.

Lemma fetch_flags_kept (msg : Message) (items : list imap.FetchItem)
      (acc : imap.ItemMap) :
  existsb (String.eqb imap.FetchFlags) items = true
  \/ imap.get imap.FetchFlags acc
     = Some (imap.OfFlags (IMAPMailbox.symbolic_flags msg)) ->
  imap.get imap.FetchFlags (fold_left (IMAPMailbox.fetch_item msg) items acc)
  = Some (imap.OfFlags (IMAPMailbox.symbolic_flags msg)).
Proof.
  revert acc. induction items as [|item items IH]; intros acc H; simpl.
  - destruct H as [H|H]; [discriminate | exact H].
  - apply IH. cbn [existsb] in H.
    destruct (String.eqb_spec imap.FetchFlags item) as [<-|Hne].
    + right. unfold IMAPMailbox.fetch_item. simpl. apply get_put_same.
    + rewrite orb_false_l in H. destruct H as [H|H]; [left; exact H|].
      right. rewrite fetch_item_other by congruence. exact H.
Qed.

Lemma in_optional_flag (b : bool) (c f : string) :
  In f (if b then [c] else []) <-> b = true /\ f = c.
Proof.
  destruct b; simpl; split; try tauto.
  - intros [<-|[]]. auto.
  - intros [_ ->]. auto.
  - intros [X _]. discriminate.
Qed.

(** X11.  When [FLAGS] is requested, the item fetched for a message is a
    list without repetition that holds [\Seen] exactly when the row has
    [seen], [\Deleted] exactly when it has [deleted], [\Draft] exactly when
    it has [draft], and nothing else; the [flags] text column is not
    consulted. *)
Theorem fetched_flags_mirror_the_booleans (msg : Message)
        (items : list imap.FetchItem) :
  existsb (String.eqb imap.FetchFlags) items = true ->
  exists flags,
    imap.get imap.FetchFlags (fold_left (IMAPMailbox.fetch_item msg) items [])
    = Some (imap.OfFlags flags)
    /\ (In imap.SeenFlag flags <-> Seen msg = true)
    /\ (In imap.DeletedFlag flags <-> Deleted msg = true)
    /\ (In imap.DraftFlag flags <-> Draft msg = true)
    /\ (forall f, In f flags ->
                  f = imap.SeenFlag \/ f = imap.DeletedFlag \/ f = imap.DraftFlag)
    /\ NoDup flags.
Proof.
  intros H. exists (IMAPMailbox.symbolic_flags msg).
  split; [apply fetch_flags_kept; left; exact H|].
  unfold IMAPMailbox.symbolic_flags.
  split; [|split; [|split; [|split]]].
  - rewrite !in_app_iff, !in_optional_flag.
    unfold imap.SeenFlag, imap.DeletedFlag, imap.DraftFlag.
    intuition (try discriminate; auto).
  - rewrite !in_app_iff, !in_optional_flag.
    unfold imap.SeenFlag, imap.DeletedFlag, imap.DraftFlag.
    intuition (try discriminate; auto).
  - rewrite !in_app_iff, !in_optional_flag.
    unfold imap.SeenFlag, imap.DeletedFlag, imap.DraftFlag.
    intuition (try discriminate; auto).
  - intros f. rewrite !in_app_iff, !in_optional_flag. intuition auto.
  - unfold imap.SeenFlag, imap.DeletedFlag, imap.DraftFlag.
    destruct (Seen msg), (Deleted msg), (Draft msg); simpl;
      repeat (constructor; [simpl; intuition discriminate|]); constructor.
Qed.

Lemma fetched_flags_mirror_the_booleans_witness :
  exists flags,
    imap.get imap.FetchFlags
             (fold_left (IMAPMailbox.fetch_item (letter 1 1 1000))
                        [imap.FetchUid; imap.FetchFlags] [])
    = Some (imap.OfFlags flags)
    /\ (In imap.SeenFlag flags <-> Seen (letter 1 1 1000) = true)
    /\ (In imap.DeletedFlag flags <-> Deleted (letter 1 1 1000) = true)
    /\ (In imap.DraftFlag flags <-> Draft (letter 1 1 1000) = true)
    /\ (forall f, In f flags ->
                  f = imap.SeenFlag \/ f = imap.DeletedFlag \/ f = imap.DraftFlag)
    /\ NoDup flags.
Proof.
  apply (fetched_flags_mirror_the_booleans (letter 1 1 1000)
                                           [imap.FetchUid; imap.FetchFlags]).
  reflexivity.
Defined.

(** ** Flag updates, composed *)

Lemma UpdateMessagesFlags_healthy (m : Mailbox) (uid : bool) (seqSet : imap.SeqSet)
      (operation : imap.FlagsOp) (flags : list string) (db : DB) :
  healthy db ->
  IMAPMailbox.UpdateMessagesFlags m uid seqSet operation flags db
  = (Ok tt,
     set_tables
       (set_messages
          (map (retouch seqSet flags 0 (rows_of_mailbox (Mailbox_ID m) (tables db)))
               (messages (tables db)))
          (tables db)) db).
Proof.
  intros H. unfold IMAPMailbox.UpdateMessagesFlags, bind, wrap.
  rewrite ListMessages_healthy by exact H. apply flags_loop_healthy. exact H.
Qed.

Lemma ids_after_retouch (seqSet : imap.SeqSet) (flags : list string)
      (listing rows : list Message) :
  map ID (map (retouch seqSet flags 0 listing) rows) = map ID rows.
Proof.
  rewrite map_map. apply map_ext. intros r. apply retouch_keys.
Qed.

(** X12.  On a working connection, once a flag update that names [\Seen]
    has been applied to [1:*] in a mailbox of fewer than 2^32 messages,
    [Status] reports the same number of messages as the listing had before
    and no unseen message. *)
Theorem marking_all_seen_leaves_none_unseen (m : Mailbox) (uid : bool)
        (operation : imap.FlagsOp) (flags : list string) (db : DB) :
  healthy db -> wf db ->
  Go.len (rows_of_mailbox (Mailbox_ID m) (tables db)) < 2 ^ 32 ->
  Go.named imap.SeenFlag flags = true ->
  let update := IMAPMailbox.UpdateMessagesFlags m uid [imap.mkSeq 1 0] operation flags in
  let count := Go.len (rows_of_mailbox (Mailbox_ID m) (tables db)) in
  outcome update db = Ok tt
  /\ IMAPMailbox.Status m all_status_items (after update db)
     = (Ok (imap.mkMailboxStatus (Name m) (Go.uint32 count) 0 0
                                 (Go.uint32 (count + 1)) 1),
        after update db).
Proof.
  intros H Hwf Hlen Hseen update count. unfold outcome, after, update.
  rewrite UpdateMessagesFlags_healthy by exact H. cbn [fst snd].
  split; [reflexivity|].
  set (listing := rows_of_mailbox (Mailbox_ID m) (tables db)).
  set (db' := set_tables _ db).
  assert (healthy db') as H' by exact H.
  rewrite (Status_reports m db' H'). cbv zeta.
  assert (rows_of_mailbox (Mailbox_ID m) (tables db')
          = map (retouch [imap.mkSeq 1 0] flags 0 listing) listing) as Erows
      by apply rows_after_retouch.
  rewrite Erows. unfold Go.len at 1 3. rewrite length_map. fold (Go.len listing).
  rewrite filter_none; [reflexivity|].
  intros x Hx. apply in_map_iff in Hx. destruct Hx as [r [<- Hr]].
  apply In_nth_error in Hr. destruct Hr as [k Hk].
  assert (k < List.length listing)%nat as Hklen
      by (apply nth_error_Some; rewrite Hk; discriminate).
  rewrite (retouch_listed _ flags listing 0 k r);
    [|apply rows_of_mailbox_NoDup; exact Hwf | exact Hk].
  unfold Go.len in Hlen. fold listing in Hlen.
  rewrite uint32_small by lia. rewrite everything_contains by lia.
  unfold written. simpl. rewrite Hseen, orb_true_r. reflexivity.
Qed.

Lemma marking_all_seen_leaves_none_unseen_witness :
  outcome (IMAPMailbox.UpdateMessagesFlags inbox false [imap.mkSeq 1 0] imap.AddFlags
                                           [imap.SeenFlag]) three_letters
  = Ok tt
  /\ IMAPMailbox.Status
       inbox all_status_items
       (after (IMAPMailbox.UpdateMessagesFlags inbox false [imap.mkSeq 1 0]
                                               imap.AddFlags [imap.SeenFlag])
              three_letters)
     = (Ok (imap.mkMailboxStatus
              "INBOX"
              (Go.uint32 (Go.len (rows_of_mailbox 1 (tables three_letters)))) 0 0
              (Go.uint32 (Go.len (rows_of_mailbox 1 (tables three_letters)) + 1)) 1),
        after (IMAPMailbox.UpdateMessagesFlags inbox false [imap.mkSeq 1 0]
                                               imap.AddFlags [imap.SeenFlag])
              three_letters).
Proof.
  apply (marking_all_seen_leaves_none_unseen inbox false imap.AddFlags
                                             [imap.SeenFlag] three_letters);
    [reflexivity | apply wfb_wf; reflexivity | vm_compute; reflexivity | reflexivity].
Defined.

Lemma written_twice (flags : list string) (r : Message) :
  written flags (written flags r r) (written flags r r) = written flags r r.
Proof.
  unfold written, Message_set_flags. simpl.
  rewrite <- !orb_assoc, !orb_diag. reflexivity.
Qed.

(** X13.  On a working connection and a store with unique message ids, a
    flag update applied a second time with the same set and the same flags
    returns without error and leaves the store exactly as the first
    application left it. *)
Theorem flag_update_is_idempotent (m : Mailbox) (uid : bool) (seqSet : imap.SeqSet)
        (operation : imap.FlagsOp) (flags : list string) (db : DB) :
  healthy db -> wf db ->
  let update := IMAPMailbox.UpdateMessagesFlags m uid seqSet operation flags in
  update (after update db) = (Ok tt, after update db).
Proof.
  intros H Hwf update. unfold after, update.
  rewrite (UpdateMessagesFlags_healthy m uid seqSet operation flags db H). cbn [snd].
  set (listing := rows_of_mailbox (Mailbox_ID m) (tables db)).
  set (db1 := set_tables _ db).
  assert (healthy db1) as H1 by exact H.
  rewrite (UpdateMessagesFlags_healthy m uid seqSet operation flags db1 H1). f_equal.
  assert (rows_of_mailbox (Mailbox_ID m) (tables db1)
          = map (retouch seqSet flags 0 listing) listing) as Erows
      by apply rows_after_retouch.
  rewrite Erows. set (listing1 := map (retouch seqSet flags 0 listing) listing).
  assert (NoDup (map ID listing)) as N by (apply rows_of_mailbox_NoDup; exact Hwf).
  assert (NoDup (map ID listing1)) as N1.
  { unfold listing1. rewrite ids_after_retouch. exact N. }
  transitivity (set_tables (set_messages (messages (tables db1)) (tables db1)) db1);
    [|apply set_messages_same].
  f_equal. f_equal.
  change (messages (tables db1))
    with (map (retouch seqSet flags 0 listing) (messages (tables db))).
  rewrite map_map. apply map_ext_in. intros r Hr.
  destruct (Z.eq_dec (MailboxID r) (Mailbox_ID m)) as [Emb|Nmb].
  - assert (In r listing) as Hl by (apply rows_of_mailbox_In; split; assumption).
    apply In_nth_error in Hl. destruct Hl as [k Hk].
    rewrite (retouch_listed seqSet flags listing 0 k r N Hk).
    assert (nth_error listing1 k
            = Some (if imap.Contains seqSet (Go.uint32 (0 + Z.of_nat k + 1))
                    then written flags r r else r)) as Hk1.
    { unfold listing1. rewrite nth_error_map, Hk. simpl. f_equal.
      apply (retouch_listed seqSet flags listing 0 k r N Hk). }
    rewrite (retouch_listed seqSet flags listing1 0 k _ N1 Hk1).
    destruct (imap.Contains seqSet (Go.uint32 (0 + Z.of_nat k + 1)));
      [apply written_twice | reflexivity].
  - assert (~ In (ID r) (map ID listing)) as Hout.
    { intros Hin. apply in_map_iff in Hin. destruct Hin as [y [Ey Hy]].
      apply rows_of_mailbox_In in Hy. destruct Hy as [Hy Hymb].
      destruct Hwf as [Hid _].
      assert (y = r) by (apply (NoDup_map_inj ID (messages (tables db))); assumption).
      subst y. contradiction. }
    rewrite (retouch_foreign seqSet flags listing 0 r Hout).
    apply retouch_foreign. unfold listing1. rewrite ids_after_retouch. exact Hout.
Qed.

Lemma flag_update_is_idempotent_witness :
  IMAPMailbox.UpdateMessagesFlags
    inbox false [imap.mkSeq 1 2] imap.AddFlags [imap.DraftFlag]
    (after (IMAPMailbox.UpdateMessagesFlags inbox false [imap.mkSeq 1 2] imap.AddFlags
                                            [imap.DraftFlag]) three_letters)
  = (Ok tt,
     after (IMAPMailbox.UpdateMessagesFlags inbox false [imap.mkSeq 1 2] imap.AddFlags
                                            [imap.DraftFlag]) three_letters).
Proof.
  apply (flag_update_is_idempotent inbox false [imap.mkSeq 1 2] imap.AddFlags
                                   [imap.DraftFlag] three_letters);
    [reflexivity | apply wfb_wf; reflexivity].
Defined.

(** ** Deleting and updating what is not there *)

Lemma filter_keeps_everything {A : Type} (p : A -> bool) (l : list A) :
  (forall x, In x l -> p x = true) -> filter p l = l.
Proof.
  induction l as [|x l IH]; simpl; intros H; [reflexivity|].
  rewrite (H x) by (left; reflexivity). f_equal. apply IH.
  intros y Hy. apply H. right. exact Hy.
Qed.

Lemma drop_attachments_none (gone : Attachment -> bool) (t : Tables) :
  (forall a, In a (attachments t) -> gone a = false) -> drop_attachments gone t = t.
Proof.
  intros H. unfold drop_attachments. rewrite filter_keeps_everything.
  - destruct t; reflexivity.
  - intros a Ha. rewrite (H a Ha). reflexivity.
Qed.

Lemma drop_messages_none (fk : bool) (gone : Message -> bool) (t : Tables) :
  (forall m, In m (messages t) -> gone m = false) -> drop_messages fk gone t = t.
Proof.
  intros H. unfold drop_messages.
  rewrite (filter_none gone) by exact H.
  rewrite filter_keeps_everything by (intros m Hm; rewrite (H m Hm); reflexivity).
  assert (set_messages (messages t) t = t) as -> by (destruct t; reflexivity).
  destruct fk; [|reflexivity]. apply drop_attachments_none. reflexivity.
Qed.

Lemma drop_mailboxes_none (fk : bool) (gone : Mailbox -> bool) (t : Tables) :
  (forall m, In m (mailboxes t) -> gone m = false) -> drop_mailboxes fk gone t = t.
Proof.
  intros H. unfold drop_mailboxes.
  rewrite (filter_none gone) by exact H.
  rewrite filter_keeps_everything by (intros m Hm; rewrite (H m Hm); reflexivity).
  assert (set_mailboxes (mailboxes t) t = t) as -> by (destruct t; reflexivity).
  destruct fk; [|reflexivity]. apply drop_messages_none. reflexivity.
Qed.

Lemma drop_users_none (fk : bool) (gone : User -> bool) (t : Tables) :
  (forall u, In u (users t) -> gone u = false) -> drop_users fk gone t = t.
Proof.
  intros H. unfold drop_users.
  rewrite (filter_none gone) by exact H.
  rewrite filter_keeps_everything by (intros u Hu; rewrite (H u Hu); reflexivity).
  assert (set_users (users t) t = t) as -> by (destruct t; reflexivity).
  destruct fk; [|reflexivity]. apply drop_mailboxes_none. reflexivity.
Qed.

Lemma set_tables_same (db : DB) : set_tables (tables db) db = db.
Proof. destruct db; reflexivity. Qed.

Lemma absent_id {A : Type} (key : A -> Z) (id : Z) (l : list A) (x : A) :
  ~ In id (map key l) -> In x l -> (key x =? id) = false.
Proof.
  intros Hno Hx. apply Z.eqb_neq. intros E. apply Hno. rewrite <- E.
  apply in_map. exact Hx.
Qed.

(** X14.  On a working connection, deleting a user, a mailbox, a message or
    an attachment by an id that no row of the table has, and updating the
    flags of a message id that no row has, all return without error and
    leave the store exactly as it was: the storage does not report that
    nothing was affected. *)
Theorem absent_ids_are_accepted_silently (id : Z) (db : DB) :
  healthy db ->
  (~ In id (map User_ID (users (tables db))) ->
   Storage.DeleteUser id db = (Ok tt, db))
  /\ (~ In id (map Mailbox_ID (mailboxes (tables db))) ->
      Storage.DeleteMailbox id db = (Ok tt, db))
  /\ (~ In id (map ID (messages (tables db))) ->
      Storage.DeleteMessage id db = (Ok tt, db)
      /\ forall flags seen deleted draft,
          Storage.UpdateMessageFlags id flags seen deleted draft db = (Ok tt, db))
  /\ (~ In id (map Attachment_ID (attachments (tables db))) ->
      Storage.DeleteAttachment id db = (Ok tt, db)).
Proof.
  intros H. split; [|split; [|split]]; intros Hno.
  - unfold Storage.DeleteUser, wrap. rewrite Exec_healthy by exact H.
    unfold delete_user. rewrite drop_users_none, set_tables_same; [reflexivity|].
    intros u Hu. exact (absent_id User_ID id _ u Hno Hu).
  - unfold Storage.DeleteMailbox, wrap. rewrite Exec_healthy by exact H.
    unfold delete_mailbox. rewrite drop_mailboxes_none, set_tables_same; [reflexivity|].
    intros m Hm. exact (absent_id Mailbox_ID id _ m Hno Hm).
  - split.
    + rewrite DeleteMessage_healthy by exact H.
      rewrite drop_messages_none, set_tables_same; [reflexivity|].
      intros m Hm. exact (absent_id ID id _ m Hno Hm).
    + intros flags seen deleted draft.
      rewrite UpdateMessageFlags_healthy by exact H. unfold write_flags.
      f_equal.
      transitivity (set_tables (set_messages (messages (tables db)) (tables db)) db);
        [|apply set_messages_same].
      f_equal. f_equal.
      transitivity (map (fun x : Message => x) (messages (tables db)));
        [|apply map_id].
      apply map_ext_in. intros m Hm.
      rewrite (absent_id ID id _ m Hno Hm). reflexivity.
  - unfold Storage.DeleteAttachment, wrap. rewrite Exec_healthy by exact H.
    unfold delete_attachment. rewrite drop_attachments_none, set_tables_same;
      [reflexivity|].
    intros a Ha. exact (absent_id Attachment_ID id _ a Hno Ha).
Qed.

Lemma absent_ids_are_accepted_silently_witness :
  Storage.DeleteUser 99 with_attachment = (Ok tt, with_attachment)
  /\ Storage.DeleteMessage 99 with_attachment = (Ok tt, with_attachment).
Proof.
  destruct (absent_ids_are_accepted_silently 99 with_attachment eq_refl)
    as [U [_ [M _]]].
  split.
  - apply U. simpl. intros [X|[]]. discriminate.
  - apply M. simpl. intros [X|[]]. discriminate.
Defined.

(** ** Mailboxes through the IMAP user *)

Lemma IMAPUser_GetMailbox_healthy (u : User) (name : string) (db : DB) :
  healthy db ->
  IMAPUser.GetMailbox u name db
  = (match find (fun r => (UserID r =? User_ID u) && String.eqb (Name r) name)
                (mailboxes (tables db)) with
     | Some mailbox => Ok mailbox
     | None => Err (Wrap "falha ao obter caixa de entrada" ErrMailboxNotFound)
     end, db).
Proof.
  intros H. unfold IMAPUser.GetMailbox, wrap. rewrite GetMailbox_healthy by exact H.
  destruct (find _ (mailboxes (tables db))); reflexivity.
Qed.

(** X15.  A mailbox that the IMAP user has created on a working connection
    is found under its name, owned by that user, with the next id of the
    sequence and an empty path; creating the same name again is refused as a
    violation of the uniqueness constraint and leaves every table as it
    is. *)
Theorem created_mailbox_is_found_and_not_duplicated (u : User) (name : string)
        (db db' : DB) :
  healthy db ->
  IMAPUser.CreateMailbox u name db = (Ok tt, db') ->
  IMAPUser.GetMailbox u name db'
  = (Ok (mkMailbox (seq_mailboxes (seqs db) + 1) (User_ID u) name ""), db')
  /\ outcome (IMAPUser.CreateMailbox u name) db'
     = Err (Wrap "falha ao criar caixa de correio"
                 (UniqueViolation "mailboxes.user_id, mailboxes.name"))
  /\ tables (after (IMAPUser.CreateMailbox u name) db') = tables db'.
Proof.
  intros H. unfold IMAPUser.CreateMailbox at 1. unfold bind.
  destruct (Storage.CreateMailbox (mkMailbox 0 (User_ID u) name "") db)
    as [[stored|e] db1] eqn:C; [|discriminate].
  unfold ret. intros E. inversion E; subst db1.
  apply CreateMailbox_accepted in C.
  destruct C as [Hnew [Es [Eb [_ [_ [_ [_ Hh]]]]]]]. simpl in Hnew.
  assert (healthy db') as H' by (apply Hh; exact H).
  split.
  - rewrite IMAPUser_GetMailbox_healthy by exact H'. rewrite Eb.
    rewrite find_after_absent by exact Hnew. subst stored. simpl.
    rewrite Z.eqb_refl, String.eqb_refl. reflexivity.
  - unfold outcome, after, IMAPUser.CreateMailbox, Storage.CreateMailbox, bind, wrap.
    rewrite Exec_healthy by exact H'. unfold insert_mailbox, rejected.
    assert (existsb (fun r => (UserID r =? UserID (mkMailbox 0 (User_ID u) name ""))
                              && String.eqb (Name r) (Name (mkMailbox 0 (User_ID u) name "")))
                    (mailboxes (tables db')) = true) as X.
    { rewrite Eb, existsb_app. subst stored. simpl.
      rewrite Z.eqb_refl, String.eqb_refl. simpl. apply orb_true_r. }
    rewrite X. destruct (backend db'); split; reflexivity.
Qed.

Lemma created_mailbox_is_found_and_not_duplicated_witness :
  IMAPUser.GetMailbox (mkUser 1 "alice" "secret" "Alice" "alice@example.org"
                              (time.UTC 100) (time.UTC 100)) "Archive"
                      (after (IMAPUser.CreateMailbox
                                (mkUser 1 "alice" "secret" "Alice" "alice@example.org"
                                        (time.UTC 100) (time.UTC 100)) "Archive")
                             alice_on_postgres)
  = (Ok (mkMailbox 5 1 "Archive" ""),
     after (IMAPUser.CreateMailbox
              (mkUser 1 "alice" "secret" "Alice" "alice@example.org"
                      (time.UTC 100) (time.UTC 100)) "Archive")
           alice_on_postgres).
Proof.
  exact (proj1 (created_mailbox_is_found_and_not_duplicated
                  (mkUser 1 "alice" "secret" "Alice" "alice@example.org"
                          (time.UTC 100) (time.UTC 100)) "Archive"
                  alice_on_postgres
                  (after (IMAPUser.CreateMailbox
                            (mkUser 1 "alice" "secret" "Alice" "alice@example.org"
                                    (time.UTC 100) (time.UTC 100)) "Archive")
                         alice_on_postgres)
                  eq_refl eq_refl)).
Defined.

Lemma find_the_only_match {A : Type} (p : A -> bool) (l : list A) (v : A) :
  In v l -> p v = true -> (forall y, In y l -> p y = true -> y = v) ->
  find p l = Some v.
Proof.
  intros Hin Hp Honly. destruct (find p l) as [x|] eqn:F.
  - apply find_some in F. destruct F as [Hx Px]. f_equal. apply Honly; assumption.
  - pose proof (find_none _ _ F v Hin). congruence.
Qed.

Lemma UpdateMailbox_healthy (mailbox : Mailbox) (db : DB) :
  healthy db ->
  Storage.UpdateMailbox mailbox db
  = (match fst (update_mailbox mailbox db) with
     | Ok _ => Ok tt
     | Err e => Err (Wrap "falha ao atualizar caixa de correio" e)
     end, snd (update_mailbox mailbox db)).
Proof.
  intros H. unfold Storage.UpdateMailbox, wrap. rewrite Exec_healthy by exact H.
  destruct (update_mailbox mailbox db) as [[[]|e] db1]; reflexivity.
Qed.

(** X16.  A rename that succeeds on a working connection, in a store whose
    mailbox ids are distinct, changes the name of the one mailbox that was
    found under the old name and nothing else of it: the mailbox found under
    the new name has the same id, owner and path, and the [messages],
    [users] and [attachments] tables are untouched, so its messages stay
    with it. *)
Theorem renamed_mailbox_keeps_id_path_and_messages (u : User)
        (existingName newName : string) (db db' : DB) :
  healthy db ->
  NoDup (map Mailbox_ID (mailboxes (tables db))) ->
  IMAPUser.RenameMailbox u existingName newName db = (Ok tt, db') ->
  exists mailbox,
    IMAPUser.GetMailbox u existingName db = (Ok mailbox, db)
    /\ IMAPUser.GetMailbox u newName db'
       = (Ok (mkMailbox (Mailbox_ID mailbox) (User_ID u) newName (Path mailbox)), db')
    /\ map Mailbox_ID (mailboxes (tables db')) = map Mailbox_ID (mailboxes (tables db))
    /\ messages (tables db') = messages (tables db)
    /\ users (tables db') = users (tables db)
    /\ attachments (tables db') = attachments (tables db).
Proof.
  intros H Hpk. unfold IMAPUser.RenameMailbox, bind, wrap.
  rewrite GetMailbox_healthy by exact H.
  destruct (find _ (mailboxes (tables db))) as [mb|] eqn:F; [|discriminate].
  rewrite UpdateMailbox_healthy by exact H. unfold update_mailbox.
  cbn [Mailbox_ID Name Path].
  destruct (existsb _ (mailboxes (tables db))) eqn:U; [discriminate|].
  cbn [fst snd]. intros E. inversion E; subst db'. clear E.
  exists mb.
  split; [rewrite IMAPUser_GetMailbox_healthy by exact H; rewrite F; reflexivity|].
  apply find_some in F. destruct F as [Hin Hk].
  apply andb_true_iff in Hk. destruct Hk as [Hu _]. apply Z.eqb_eq in Hu.
  set (upd := fun r => if Mailbox_ID r =? Mailbox_ID mb
                       then Mailbox_rewrite
                              (mkMailbox (Mailbox_ID mb) (UserID mb) newName (Path mb)) r
                       else r).
  assert (upd mb = mkMailbox (Mailbox_ID mb) (User_ID u) newName (Path mb)) as Emb.
  { unfold upd. rewrite Z.eqb_refl. unfold Mailbox_rewrite. simpl. rewrite Hu.
    reflexivity. }
  split; [|split; [|repeat split]].
  - rewrite IMAPUser_GetMailbox_healthy by exact H. simpl. fold upd.
    rewrite (find_the_only_match _ _ (upd mb)); [rewrite Emb; reflexivity | | | ].
    + apply in_map. exact Hin.
    + rewrite Emb. simpl. rewrite Z.eqb_refl, String.eqb_refl. reflexivity.
    + intros y Hy Py. apply in_map_iff in Hy. destruct Hy as [r [<- Hr]].
      destruct (Z.eq_dec (Mailbox_ID r) (Mailbox_ID mb)) as [Eid|Nid].
      * assert (r = mb) as ->; [|reflexivity].
        apply (NoDup_map_inj Mailbox_ID (mailboxes (tables db))); assumption.
      * exfalso. apply Z.eqb_neq in Nid. unfold upd in Py. rewrite Nid in Py.
        apply andb_true_iff in Py. destruct Py as [Yu Yn]. apply Z.eqb_eq in Yu.
        assert (existsb
                  (fun r0 => (Mailbox_ID r0 =? Mailbox_ID mb)
                             && existsb (fun r' => negb (Mailbox_ID r' =? Mailbox_ID mb)
                                                   && (UserID r' =? UserID r0)
                                                   && String.eqb (Name r') newName)
                                        (mailboxes (tables db)))
                  (mailboxes (tables db)) = true) as X; [|congruence].
        apply existsb_exists. exists mb. split; [exact Hin|].
        rewrite Z.eqb_refl. simpl. apply existsb_exists. exists r.
        split; [exact Hr|]. rewrite Nid, Yu, Hu, Z.eqb_refl, Yn. reflexivity.
  - simpl. fold upd. rewrite map_map. apply map_ext. intros r. unfold upd.
    destruct (Mailbox_ID r =? Mailbox_ID mb); reflexivity.
Qed.

Lemma renamed_mailbox_keeps_id_path_and_messages_witness :
  exists mailbox,
    IMAPUser.GetMailbox (SMTPSession.user alice_session) "INBOX" one_letter
    = (Ok mailbox, one_letter)
    /\ IMAPUser.GetMailbox
         (SMTPSession.user alice_session) "Old mail"
         (after (IMAPUser.RenameMailbox (SMTPSession.user alice_session)
                                        "INBOX" "Old mail") one_letter)
       = (Ok (mkMailbox (Mailbox_ID mailbox) 1 "Old mail" (Path mailbox)),
          after (IMAPUser.RenameMailbox (SMTPSession.user alice_session)
                                        "INBOX" "Old mail") one_letter)
    /\ map Mailbox_ID
           (mailboxes (tables (after (IMAPUser.RenameMailbox
                                        (SMTPSession.user alice_session)
                                        "INBOX" "Old mail") one_letter)))
       = map Mailbox_ID (mailboxes (tables one_letter))
    /\ messages (tables (after (IMAPUser.RenameMailbox (SMTPSession.user alice_session)
                                                       "INBOX" "Old mail") one_letter))
       = messages (tables one_letter)
    /\ users (tables (after (IMAPUser.RenameMailbox (SMTPSession.user alice_session)
                                                    "INBOX" "Old mail") one_letter))
       = users (tables one_letter)
    /\ attachments (tables (after (IMAPUser.RenameMailbox
                                     (SMTPSession.user alice_session)
                                     "INBOX" "Old mail") one_letter))
       = attachments (tables one_letter).
Proof.
  apply (renamed_mailbox_keeps_id_path_and_messages
           (SMTPSession.user alice_session) "INBOX" "Old mail" one_letter
           (after (IMAPUser.RenameMailbox (SMTPSession.user alice_session)
                                          "INBOX" "Old mail") one_letter)).
  - reflexivity.
  - apply (distinct_NoDup Z.eqb); [intros; apply Z.eqb_eq | reflexivity].
  - reflexivity.
Defined.

(** X17.  On a working connection, renaming a mailbox to a name that another
    mailbox of the same user already has is refused as a violation of the
    uniqueness constraint, and the store is left exactly as it was. *)
Theorem rename_onto_existing_name_is_refused (u : User)
        (existingName newName : string) (mailbox other : Mailbox) (db : DB) :
  healthy db ->
  IMAPUser.GetMailbox u existingName db = (Ok mailbox, db) ->
  In other (mailboxes (tables db)) ->
  UserID other = User_ID u -> Name other = newName ->
  Mailbox_ID other <> Mailbox_ID mailbox ->
  IMAPUser.RenameMailbox u existingName newName db
  = (Err (Wrap "falha ao atualizar caixa de correio"
               (UniqueViolation "mailboxes.user_id, mailboxes.name")), db).
Proof.
  intros H G Hother Ou On Oid.
  rewrite IMAPUser_GetMailbox_healthy in G by exact H.
  unfold IMAPUser.RenameMailbox, bind, wrap.
  rewrite GetMailbox_healthy by exact H.
  destruct (find _ (mailboxes (tables db))) as [mb|] eqn:F; [|discriminate].
  inversion G; subst mb. clear G.
  apply find_some in F. destruct F as [Hin Hk].
  apply andb_true_iff in Hk. destruct Hk as [Hu _]. apply Z.eqb_eq in Hu.
  rewrite UpdateMailbox_healthy by exact H. unfold update_mailbox.
  cbn [Mailbox_ID Name Path].
  assert (existsb
            (fun r0 => (Mailbox_ID r0 =? Mailbox_ID mailbox)
                       && existsb (fun r' => negb (Mailbox_ID r' =? Mailbox_ID mailbox)
                                             && (UserID r' =? UserID r0)
                                             && String.eqb (Name r') newName)
                                  (mailboxes (tables db)))
            (mailboxes (tables db)) = true) as X.
  { apply existsb_exists. exists mailbox. split; [exact Hin|].
    rewrite Z.eqb_refl. simpl. apply existsb_exists. exists other.
    split; [exact Hother|]. apply Z.eqb_neq in Oid.
    rewrite Oid, Ou, Hu, Z.eqb_refl, On, String.eqb_refl. reflexivity. }
  rewrite X. reflexivity.
Qed.

Lemma rename_onto_existing_name_is_refused_witness :
  IMAPUser.RenameMailbox (SMTPSession.user alice_session) "Drafts" "Trash" one_letter
  = (Err (Wrap "falha ao atualizar caixa de correio"
               (UniqueViolation "mailboxes.user_id, mailboxes.name")), one_letter).
Proof.
  apply (rename_onto_existing_name_is_refused
           (SMTPSession.user alice_session) "Drafts" "Trash"
           (mkMailbox 3 1 "Drafts" "Drafts") (mkMailbox 4 1 "Trash" "Trash") one_letter);
    try reflexivity.
  - simpl. tauto.
  - discriminate.
Defined.

(** X18.  On a working connection, when the user has no mailbox of the given
    name, looking it up, deleting it and renaming it through the IMAP user
    all fail with [ErrMailboxNotFound] wrapped as [falha ao obter caixa de
    entrada], and the store is left exactly as it was. *)
Theorem missing_mailbox_is_reported (u : User) (name newName : string) (db : DB) :
  healthy db ->
  (forall mailbox, In mailbox (mailboxes (tables db)) ->
                   UserID mailbox = User_ID u -> Name mailbox <> name) ->
  let missing := Wrap "falha ao obter caixa de entrada" ErrMailboxNotFound in
  IMAPUser.GetMailbox u name db = (Err missing, db)
  /\ IMAPUser.DeleteMailbox u name db = (Err missing, db)
  /\ IMAPUser.RenameMailbox u name newName db = (Err missing, db).
Proof.
  intros H Hno missing.
  assert (find (fun r => (UserID r =? User_ID u) && String.eqb (Name r) name)
               (mailboxes (tables db)) = None) as F.
  { destruct (find _ (mailboxes (tables db))) as [mb|] eqn:F; [|reflexivity].
    apply find_some in F. destruct F as [Hin Hk].
    apply andb_true_iff in Hk. destruct Hk as [Hu Hn].
    apply Z.eqb_eq in Hu. apply String.eqb_eq in Hn.
    exfalso. exact (Hno mb Hin Hu Hn). }
  repeat split.
  - rewrite IMAPUser_GetMailbox_healthy by exact H. rewrite F. reflexivity.
  - unfold IMAPUser.DeleteMailbox, bind, wrap.
    rewrite GetMailbox_healthy by exact H. rewrite F. reflexivity.
  - unfold IMAPUser.RenameMailbox, bind, wrap.
    rewrite GetMailbox_healthy by exact H. rewrite F. reflexivity.
Qed.

Lemma missing_mailbox_is_reported_witness :
  IMAPUser.DeleteMailbox (SMTPSession.user alice_session) "Archive" one_letter
  = (Err (Wrap "falha ao obter caixa de entrada" ErrMailboxNotFound), one_letter).
Proof.
  destruct (missing_mailbox_is_reported
              (SMTPSession.user alice_session) "Archive" "Other" one_letter eq_refl)
    as [_ [D _]]; [|exact D].
  simpl. intros mailbox [<-|[<-|[<-|[<-|[]]]]]; simpl; intros; discriminate.
Defined.

Lemma mem_of_constant (x c : Z) (l : list Mailbox) :
  l <> [] -> (forall r, In r l -> Mailbox_ID r = c) ->
  mem x (map Mailbox_ID l) = (x =? c).
Proof.
  intros Hne Hall. unfold mem. destruct (x =? c) eqn:E.
  - destruct l as [|r l]; [contradiction|]. simpl.
    rewrite (Hall r) by (left; reflexivity). rewrite E. reflexivity.
  - destruct (existsb (Z.eqb x) (map Mailbox_ID l)) eqn:X; [|reflexivity].
    apply existsb_exists in X. destruct X as [i [Hi Ei]].
    apply in_map_iff in Hi. destruct Hi as [r [<- Hr]].
    rewrite (Hall r Hr) in Ei. congruence.
Qed.

(** X19.  A deletion by name that succeeds on a working connection removes
    the mailbox rows with the id that was found under the name and no other
    mailbox or user; with foreign keys enforced (PostgreSQL) the messages of
    that mailbox go with it and no other message does, without them (SQLite
    as this code opens it) every message and attachment stays. *)
Theorem mailbox_deleted_by_name (u : User) (name : string) (db db' : DB) :
  healthy db ->
  IMAPUser.DeleteMailbox u name db = (Ok tt, db') ->
  exists mailbox,
    IMAPUser.GetMailbox u name db = (Ok mailbox, db)
    /\ mailboxes (tables db')
       = filter (fun r => negb (Mailbox_ID r =? Mailbox_ID mailbox))
                (mailboxes (tables db))
    /\ users (tables db') = users (tables db)
    /\ messages (tables db')
       = (if fk_enforced db
          then filter (fun x => negb (MailboxID x =? Mailbox_ID mailbox))
                      (messages (tables db))
          else messages (tables db))
    /\ (fk_enforced db = false -> attachments (tables db') = attachments (tables db)).
Proof.
  intros H. unfold IMAPUser.DeleteMailbox, bind, wrap.
  rewrite GetMailbox_healthy by exact H.
  destruct (find _ (mailboxes (tables db))) as [mb|] eqn:F; [|discriminate].
  unfold Storage.DeleteMailbox, wrap. rewrite Exec_healthy by exact H.
  unfold delete_mailbox. intros E. inversion E; subst db'. clear E.
  exists mb.
  split; [rewrite IMAPUser_GetMailbox_healthy by exact H; rewrite F; reflexivity|].
  apply find_some in F. destruct F as [Hin _].
  unfold drop_mailboxes. destruct (fk_enforced db); cbv beta iota zeta.
  - cbn [tables set_tables].
    rewrite drop_messages_messages, drop_messages_users, drop_messages_mailboxes.
    simpl. repeat split; [|intros; discriminate].
    apply filter_ext. intros x. f_equal. apply mem_of_constant.
    + intros Hnil.
      assert (In mb (filter (fun m => Mailbox_ID m =? Mailbox_ID mb)
                            (mailboxes (tables db)))) as X
          by (apply filter_In; split; [exact Hin | apply Z.eqb_refl]).
      rewrite Hnil in X. exact X.
    + intros r Hr. apply filter_In in Hr. apply Z.eqb_eq. tauto.
  - repeat split.
Qed.

Lemma mailbox_deleted_by_name_witness :
  exists mailbox,
    IMAPUser.GetMailbox (SMTPSession.user alice_session) "INBOX" three_letters
    = (Ok mailbox, three_letters)
    /\ mailboxes (tables (after (IMAPUser.DeleteMailbox (SMTPSession.user alice_session)
                                                        "INBOX") three_letters))
       = filter (fun r => negb (Mailbox_ID r =? Mailbox_ID mailbox))
                (mailboxes (tables three_letters))
    /\ users (tables (after (IMAPUser.DeleteMailbox (SMTPSession.user alice_session)
                                                    "INBOX") three_letters))
       = users (tables three_letters)
    /\ messages (tables (after (IMAPUser.DeleteMailbox (SMTPSession.user alice_session)
                                                       "INBOX") three_letters))
       = (if fk_enforced three_letters
          then filter (fun x => negb (MailboxID x =? Mailbox_ID mailbox))
                      (messages (tables three_letters))
          else messages (tables three_letters))
    /\ (fk_enforced three_letters = false ->
        attachments (tables (after (IMAPUser.DeleteMailbox
                                      (SMTPSession.user alice_session) "INBOX")
                                   three_letters))
        = attachments (tables three_letters)).
Proof.
  apply (mailbox_deleted_by_name
           (SMTPSession.user alice_session) "INBOX" three_letters
           (after (IMAPUser.DeleteMailbox (SMTPSession.user alice_session) "INBOX")
                  three_letters));
    reflexivity.
Defined.

(** ** Deleting owners where foreign keys are enforced *)

(** X20.  On a working connection with foreign keys enforced (PostgreSQL, or
    SQLite once the pragma is on): deleting a stored user leaves no mailbox
    of that user, no message of such a mailbox and no attachment of such a
    message; deleting a stored mailbox leaves no message of it and no
    attachment of such a message; deleting a stored message leaves no
    attachment of it. *)
Theorem owner_deletions_cascade_with_foreign_keys (db : DB) :
  healthy db -> fk_enforced db = true ->
  (forall userID,
      In userID (map User_ID (users (tables db))) ->
      outcome (Storage.DeleteUser userID) db = Ok tt
      /\ ~ In userID (map User_ID (users (tables (after (Storage.DeleteUser userID) db))))
      /\ (forall mb, In mb (mailboxes (tables (after (Storage.DeleteUser userID) db))) ->
                     UserID mb <> userID)
      /\ (forall msg mb,
             In msg (messages (tables (after (Storage.DeleteUser userID) db))) ->
             In mb (mailboxes (tables db)) -> UserID mb = userID ->
             MailboxID msg <> Mailbox_ID mb)
      /\ (forall a msg mb,
             In a (attachments (tables (after (Storage.DeleteUser userID) db))) ->
             In msg (messages (tables db)) ->
             In mb (mailboxes (tables db)) -> UserID mb = userID ->
             MailboxID msg = Mailbox_ID mb ->
             MessageID a <> ID msg))
  /\ (forall mailboxID,
         In mailboxID (map Mailbox_ID (mailboxes (tables db))) ->
         outcome (Storage.DeleteMailbox mailboxID) db = Ok tt
         /\ (forall msg,
                In msg (messages (tables (after (Storage.DeleteMailbox mailboxID) db))) ->
                MailboxID msg <> mailboxID)
         /\ (forall a msg,
                In a (attachments (tables (after (Storage.DeleteMailbox mailboxID) db))) ->
                In msg (messages (tables db)) -> MailboxID msg = mailboxID ->
                MessageID a <> ID msg))
  /\ (forall messageID,
         In messageID (map ID (messages (tables db))) ->
         outcome (Storage.DeleteMessage messageID) db = Ok tt
         /\ (forall a,
                In a (attachments (tables (after (Storage.DeleteMessage messageID) db))) ->
                MessageID a <> messageID)).
Proof.
  intros H Hfk. split; [|split].
  - intros userID Hin. exact (DeleteUser_cascades userID db H Hfk Hin).
  - intros mailboxID Hin.
    destruct (DeleteMailbox_cascades mailboxID db H Hfk Hin) as [A [_ [B C]]].
    auto.
  - intros messageID Hin.
    destruct (DeleteMessage_cascades messageID db H Hfk Hin) as [A [_ B]].
    auto.
Qed.

Lemma owner_deletions_cascade_with_foreign_keys_witness :
  outcome (Storage.DeleteUser 1) postgres_with_attachment = Ok tt
  /\ tables (after (Storage.DeleteUser 1) postgres_with_attachment) = empty_tables
  /\ (forall a,
         In a (attachments (tables (after (Storage.DeleteMessage 1)
                                          postgres_with_attachment))) ->
         MessageID a <> 1).
Proof.
  destruct (owner_deletions_cascade_with_foreign_keys postgres_with_attachment
                                                      eq_refl eq_refl)
    as [U [_ M]].
  split; [|split].
  - apply U. simpl. tauto.
  - reflexivity.
  - apply M. simpl. tauto.
Defined.

(** ** The schema's uniqueness constraints hold in every reachable store *)

Lemma keeps_ret (P : DB -> Prop) {A : Type} (a : A) : keeps P (ret a).
Proof. intros db HP. exact HP. Qed.

Lemma keeps_fail (P : DB -> Prop) {A : Type} (e : error) : keeps P (@fail A e).
Proof. intros db HP. exact HP. Qed.

Lemma keeps_bind (P : DB -> Prop) {A B : Type} (m : M A) (k : A -> M B) :
  keeps P m -> (forall a, keeps P (k a)) -> keeps P (bind m k).
Proof.
  intros Hm Hk db HP. unfold after, bind. specialize (Hm db HP). unfold after in Hm.
  destruct (m db) as [[a|e] db1]; [apply Hk; exact Hm | exact Hm].
Qed.

Lemma keeps_wrap (P : DB -> Prop) {A : Type} (msg : string) (m : M A) :
  keeps P m -> keeps P (wrap msg m).
Proof.
  intros Hm db HP. unfold after, wrap. specialize (Hm db HP). unfold after in Hm.
  destruct (m db) as [[a|e] db1]; exact Hm.
Qed.

Lemma keeps_Exec (P : DB -> Prop) {A : Type} (q : DB -> res A * DB) :
  (forall b db, P db -> P (set_budget b db)) ->
  (forall db, P db -> P (snd (q db))) ->
  keeps P (Exec q).
Proof.
  intros Hb Hq db HP. unfold after, Exec.
  destruct (budget db) as [[|n]|]; [exact HP | | apply Hq; exact HP].
  apply Hq. apply Hb. exact HP.
Qed.

Lemma kept_rows_distinct {A K : Type} (key : A -> K) (keep : A -> bool)
      (rows kept : list A) :
  kept = filter keep rows -> NoDup (map key rows) -> NoDup (map key kept).
Proof.
  intros ->. induction rows as [|z rows IH]; simpl; intros N; [constructor|].
  inversion N as [|? ? Nz N']; subst.
  destruct (keep z); simpl; [|apply IH; exact N'].
  constructor; [|apply IH; exact N'].
  intros Hin. apply Nz. apply in_map_iff in Hin. destruct Hin as [x [Hx Hin]].
  apply filter_In in Hin. rewrite <- Hx. apply in_map. tauto.
Qed.

Lemma kept_rows_bounded {A : Type} (id : A -> Z) (keep : A -> bool)
      (rows kept : list A) (bound bound' : Z) :
  kept = filter keep rows -> bound <= bound' ->
  Forall (fun x => id x <= bound) rows -> Forall (fun x => id x <= bound') kept.
Proof.
  intros -> Hb F. apply Forall_forall. intros x Hx. apply filter_In in Hx.
  rewrite Forall_forall in F. specialize (F x (proj1 Hx)). simpl in F. lia.
Qed.

Lemma sound_users_kept (db db' : DB) (keep : User -> bool) :
  users (tables db') = filter keep (users (tables db)) ->
  seq_users (seqs db) <= seq_users (seqs db') ->
  sound_users db -> sound_users db'.
Proof.
  intros E Hs [N1 [N2 [N3 F]]]. unfold sound_users.
  repeat split; try (eapply kept_rows_distinct; [exact E | assumption]).
  eapply kept_rows_bounded; [exact E | exact Hs | exact F].
Qed.

Lemma sound_mailboxes_kept (db db' : DB) (keep : Mailbox -> bool) :
  mailboxes (tables db') = filter keep (mailboxes (tables db)) ->
  seq_mailboxes (seqs db) <= seq_mailboxes (seqs db') ->
  sound_mailboxes db -> sound_mailboxes db'.
Proof.
  intros E Hs [N1 [N2 F]]. unfold sound_mailboxes.
  repeat split; try (eapply kept_rows_distinct; [exact E | assumption]).
  eapply kept_rows_bounded; [exact E | exact Hs | exact F].
Qed.

Lemma sound_attachments_kept (db db' : DB) (keep : Attachment -> bool) :
  attachments (tables db') = filter keep (attachments (tables db)) ->
  seq_attachments (seqs db) <= seq_attachments (seqs db') ->
  sound_attachments db -> sound_attachments db'.
Proof.
  intros E Hs [N1 F]. unfold sound_attachments.
  split; [eapply kept_rows_distinct; [exact E | assumption]|].
  eapply kept_rows_bounded; [exact E | exact Hs | exact F].
Qed.

Lemma sound_shrunk (db db' : DB) :
  shrunk (tables db') (tables db) ->
  seq_users (seqs db) <= seq_users (seqs db') ->
  seq_mailboxes (seqs db) <= seq_mailboxes (seqs db') ->
  seq_messages (seqs db) <= seq_messages (seqs db') ->
  seq_attachments (seqs db) <= seq_attachments (seqs db') ->
  sound db -> sound db'.
Proof.
  intros [ku [kb [km [ka E]]]] S1 S2 S3 S4 [Su [Sb [Sm Sa]]].
  split; [|split; [|split]].
  - apply (sound_users_kept db db' ku); [rewrite E; reflexivity | exact S1 | exact Su].
  - apply (sound_mailboxes_kept db db' kb); [rewrite E; reflexivity | exact S2 | exact Sb].
  - apply (consistent_kept db db' km); [rewrite E; reflexivity | exact S3 | exact Sm].
  - apply (sound_attachments_kept db db' ka);
      [rewrite E; reflexivity | exact S4 | exact Sa].
Qed.

Lemma shrunk_same (t : Tables) : shrunk t t.
Proof.
  exists (fun _ => true), (fun _ => true), (fun _ => true), (fun _ => true).
  rewrite !filter_all. destruct t; reflexivity.
Qed.

Lemma shrunk_twice (t0 t1 t2 : Tables) : shrunk t2 t1 -> shrunk t1 t0 -> shrunk t2 t0.
Proof.
  intros [ku [kb [km [ka E2]]]] [ku' [kb' [km' [ka' E1]]]]. subst t2 t1. simpl.
  rewrite !filter_filter. do 4 eexists. reflexivity.
Qed.

Lemma shrunk_attachments (gone : Attachment -> bool) (t : Tables) :
  shrunk (drop_attachments gone t) t.
Proof.
  exists (fun _ => true), (fun _ => true), (fun _ => true), (fun a => negb (gone a)).
  rewrite !filter_all. reflexivity.
Qed.

Lemma shrunk_set_messages (keep : Message -> bool) (t : Tables) :
  shrunk (set_messages (filter keep (messages t)) t) t.
Proof.
  exists (fun _ => true), (fun _ => true), keep, (fun _ => true).
  rewrite !filter_all. reflexivity.
Qed.

Lemma shrunk_set_mailboxes (keep : Mailbox -> bool) (t : Tables) :
  shrunk (set_mailboxes (filter keep (mailboxes t)) t) t.
Proof.
  exists (fun _ => true), keep, (fun _ => true), (fun _ => true).
  rewrite !filter_all. reflexivity.
Qed.

Lemma shrunk_set_users (keep : User -> bool) (t : Tables) :
  shrunk (set_users (filter keep (users t)) t) t.
Proof.
  exists keep, (fun _ => true), (fun _ => true), (fun _ => true).
  rewrite !filter_all. reflexivity.
Qed.

Lemma shrunk_messages (fk : bool) (gone : Message -> bool) (t : Tables) :
  shrunk (drop_messages fk gone t) t.
Proof.
  unfold drop_messages. destruct fk; [|apply shrunk_set_messages].
  eapply shrunk_twice; [apply shrunk_attachments | apply shrunk_set_messages].
Qed.

Lemma shrunk_mailboxes (fk : bool) (gone : Mailbox -> bool) (t : Tables) :
  shrunk (drop_mailboxes fk gone t) t.
Proof.
  unfold drop_mailboxes. destruct fk; [|apply shrunk_set_mailboxes].
  eapply shrunk_twice; [apply shrunk_messages | apply shrunk_set_mailboxes].
Qed.

Lemma shrunk_users (fk : bool) (gone : User -> bool) (t : Tables) :
  shrunk (drop_users fk gone t) t.
Proof.
  unfold drop_users. destruct fk; [|apply shrunk_set_users].
  eapply shrunk_twice; [apply shrunk_mailboxes | apply shrunk_set_users].
Qed.

Lemma sound_any_budget (b : option nat) (db : DB) : sound db -> sound (set_budget b db).
Proof. exact (fun H => H). Qed.

Lemma sound_grown (db db' : DB) :
  tables db' = tables db ->
  seq_users (seqs db) <= seq_users (seqs db') ->
  seq_mailboxes (seqs db) <= seq_mailboxes (seqs db') ->
  seq_messages (seqs db) <= seq_messages (seqs db') ->
  seq_attachments (seqs db) <= seq_attachments (seqs db') ->
  sound db -> sound db'.
Proof.
  intros E. apply sound_shrunk. rewrite E. apply shrunk_same.
Qed.

Lemma absent_key {A K : Type} (key : A -> K) (eqb : K -> K -> bool) (k : K)
      (rows : list A) :
  (forall a b, eqb a b = true <-> a = b) ->
  existsb (fun r => eqb (key r) k) rows = false -> ~ In k (map key rows).
Proof.
  intros Heq Hno Hin. apply in_map_iff in Hin. destruct Hin as [r [<- Hr]].
  assert (existsb (fun r0 => eqb (key r0) (key r)) rows = true) as X; [|congruence].
  apply existsb_exists. exists r. split; [exact Hr|]. apply Heq. reflexivity.
Qed.

Lemma distinct_with_new_row {A K : Type} (key : A -> K) (rows : list A) (x : A) :
  NoDup (map key rows) -> ~ In (key x) (map key rows) ->
  NoDup (map key (rows ++ [x])).
Proof.
  intros N Hx. rewrite map_app. simpl. apply NoDup_app.
  - exact N.
  - constructor; [simpl; tauto | constructor].
  - intros k Hk [<-|[]]. contradiction.
Qed.

Lemma fresh_id {A : Type} (id : A -> Z) (rows : list A) (bound : Z) :
  Forall (fun x => id x <= bound) rows -> ~ In (bound + 1) (map id rows).
Proof.
  intros F Hin. apply in_map_iff in Hin. destruct Hin as [x [E Hx]].
  rewrite Forall_forall in F. specialize (F x Hx). simpl in F. lia.
Qed.

Lemma bounded_with_new_row {A : Type} (id : A -> Z) (rows : list A) (x : A)
      (bound : Z) :
  Forall (fun r => id r <= bound) rows -> id x = bound + 1 ->
  Forall (fun r => id r <= bound + 1) (rows ++ [x]).
Proof.
  intros F Ex. apply Forall_app. split.
  - eapply Forall_impl; [|exact F]. simpl. intros; lia.
  - constructor; [lia | constructor].
Qed.

Lemma sound_insert_user (u : User) (db : DB) :
  sound db -> sound (snd (insert_user u db)).
Proof.
  intros S. unfold insert_user, rejected, accepted.
  destruct (existsb (fun r => String.eqb (Username r) (Username u)) (users (tables db)))
    eqn:Hname.
  { destruct (backend db); [exact S|].
    apply (sound_grown db); simpl; try reflexivity; try lia; exact S. }
  destruct (existsb (fun r => String.eqb (Email r) (Email u)) (users (tables db)))
    eqn:Hmail.
  { destruct (backend db); [exact S|].
    apply (sound_grown db); simpl; try reflexivity; try lia; exact S. }
  destruct S as [[N1 [N2 [N3 F]]] [Sb [Sm Sa]]].
  split; [|split; [|split]].
  - unfold sound_users. simpl. repeat split.
    + apply distinct_with_new_row; [exact N1 | apply fresh_id; exact F].
    + apply distinct_with_new_row; [exact N2|].
      apply (absent_key Username String.eqb); [apply String.eqb_eq | exact Hname].
    + apply distinct_with_new_row; [exact N3|].
      apply (absent_key Email String.eqb); [apply String.eqb_eq | exact Hmail].
    + apply bounded_with_new_row; [exact F | reflexivity].
  - exact Sb.
  - exact Sm.
  - exact Sa.
Qed.

Lemma mailbox_key_eqb (a b : Z * string) :
  ((fst a =? fst b) && String.eqb (snd a) (snd b)) = true <-> a = b.
Proof.
  destruct a as [a1 a2], b as [b1 b2]. simpl.
  rewrite andb_true_iff, Z.eqb_eq, String.eqb_eq.
  split; [intros [-> ->]; reflexivity | intros E; inversion E; auto].
Qed.

Lemma sound_insert_mailbox (m : Mailbox) (db : DB) :
  sound db -> sound (snd (insert_mailbox m db)).
Proof.
  intros S. unfold insert_mailbox, rejected, accepted.
  destruct (existsb (fun r => (UserID r =? UserID m) && String.eqb (Name r) (Name m))
                    (mailboxes (tables db))) eqn:Hkey.
  { destruct (backend db); [exact S|].
    apply (sound_grown db); simpl; try reflexivity; try lia; exact S. }
  destruct (fk_enforced db && _).
  { destruct (backend db); [exact S|].
    apply (sound_grown db); simpl; try reflexivity; try lia; exact S. }
  destruct S as [Su [[N1 [N2 F]] [Sm Sa]]].
  split; [|split; [|split]].
  - exact Su.
  - unfold sound_mailboxes. simpl. repeat split.
    + apply distinct_with_new_row; [exact N1 | apply fresh_id; exact F].
    + apply distinct_with_new_row; [exact N2|].
      apply (absent_key mailbox_key
                        (fun a b => (fst a =? fst b) && String.eqb (snd a) (snd b)));
        [apply mailbox_key_eqb | exact Hkey].
    + apply bounded_with_new_row; [exact F | reflexivity].
  - exact Sm.
  - exact Sa.
Qed.

Lemma bounded_later {A : Type} (id : A -> Z) (rows : list A) (bound bound' : Z) :
  bound <= bound' ->
  Forall (fun r => id r <= bound) rows -> Forall (fun r => id r <= bound') rows.
Proof.
  intros Hb F. eapply Forall_impl; [|exact F]. simpl. intros; lia.
Qed.

Lemma sound_with_messages (db db' : DB) :
  users (tables db') = users (tables db) ->
  mailboxes (tables db') = mailboxes (tables db) ->
  attachments (tables db') = attachments (tables db) ->
  seq_users (seqs db) <= seq_users (seqs db') ->
  seq_mailboxes (seqs db) <= seq_mailboxes (seqs db') ->
  seq_attachments (seqs db) <= seq_attachments (seqs db') ->
  consistent db' -> sound db -> sound db'.
Proof.
  intros Eu Eb Ea S1 S2 S4 C [[U1 [U2 [U3 U4]]] [[B1 [B2 B3]] [_ [A1 A2]]]].
  split; [|split; [|split]].
  - unfold sound_users. rewrite Eu. repeat split; try assumption.
    apply (bounded_later User_ID _ _ _ S1 U4).
  - unfold sound_mailboxes. rewrite Eb. repeat split; try assumption.
    apply (bounded_later Mailbox_ID _ _ _ S2 B3).
  - exact C.
  - unfold sound_attachments. rewrite Ea. split; try assumption.
    apply (bounded_later Attachment_ID _ _ _ S4 A2).
Qed.

Lemma sound_insert_message (m : Message) (db : DB) :
  sound db -> sound (snd (insert_message m db)).
Proof.
  intros S. pose proof S as [_ [_ [Sm _]]].
  pose proof (consistent_insert_message m db Sm) as Sm'.
  revert Sm'. unfold insert_message, rejected, accepted.
  destruct (existsb _ (messages (tables db)));
    [|destruct (fk_enforced db && _)];
    try (destruct (backend db)); intros Sm';
    apply (sound_with_messages db); simpl; try reflexivity; try lia; assumption.
Qed.

Lemma sound_insert_attachment (a : Attachment) (db : DB) :
  sound db -> sound (snd (insert_attachment a db)).
Proof.
  intros S. unfold insert_attachment, rejected, accepted.
  destruct (fk_enforced db && _).
  { destruct (backend db); [exact S|].
    apply (sound_grown db); simpl; try reflexivity; try lia; exact S. }
  destruct S as [Su [Sb [Sm [N1 F]]]].
  split; [|split; [|split]].
  - exact Su.
  - exact Sb.
  - apply (consistent_same db); simpl; [reflexivity | lia | exact Sm].
  - unfold sound_attachments. simpl. split.
    + apply distinct_with_new_row; [exact N1 | apply fresh_id; exact F].
    + apply bounded_with_new_row; [exact F | reflexivity].
Qed.

Lemma same_id_same_row {A K : Type} (id : A -> K) (rows : list A) (a b : A) :
  NoDup (map id rows) -> In a rows -> In b rows -> id a = id b -> a = b.
Proof.
  induction rows as [|x rows IH]; simpl; intros N Ha Hb E; [contradiction|].
  inversion N as [|? ? Nx N']; subst.
  destruct Ha as [->|Ha], Hb as [->|Hb].
  - reflexivity.
  - exfalso. apply Nx. rewrite E. apply in_map. exact Hb.
  - exfalso. apply Nx. rewrite <- E. apply in_map. exact Ha.
  - apply IH; assumption.
Qed.

Lemma rewritten_rows_distinct {A K : Type} (key : A -> K) (hit : A -> bool)
      (f : A -> A) (rows : list A) :
  (forall a b, In a rows -> In b rows -> hit a = true -> hit b = true -> a = b) ->
  (forall a b, In a rows -> In b rows -> hit a = true -> hit b = false ->
               key (f a) <> key b) ->
  NoDup (map key rows) ->
  NoDup (map key (map (fun r => if hit r then f r else r) rows)).
Proof.
  induction rows as [|x rows IH]; simpl; intros Hone Hnew N; [constructor|].
  inversion N as [|? ? Nx N']; subst. constructor.
  - intros Hin. apply in_map_iff in Hin. destruct Hin as [y' [Ey Hy']].
    apply in_map_iff in Hy'. destruct Hy' as [y [<- Hy]].
    destruct (hit x) eqn:Hx, (hit y) eqn:Hh.
    + assert (x = y) as <- by (apply Hone; auto).
      apply Nx. apply in_map. exact Hy.
    + apply (Hnew x y); auto.
    + apply (Hnew y x); auto.
    + apply Nx. rewrite <- Ey. apply in_map. exact Hy.
  - apply IH; [| |exact N'].
    + intros a b Ha Hb. apply Hone; right; assumption.
    + intros a b Ha Hb. apply Hnew; right; assumption.
Qed.

Lemma rewritten_rows_same_keys {A K : Type} (key : A -> K) (hit : A -> bool)
      (f : A -> A) (rows : list A) :
  (forall r, key (f r) = key r) ->
  map key (map (fun r => if hit r then f r else r) rows) = map key rows.
Proof.
  intros Hf. rewrite map_map. apply map_ext. intros r.
  destruct (hit r); [apply Hf | reflexivity].
Qed.

Lemma rewritten_rows_bounded {A : Type} (id : A -> Z) (hit : A -> bool)
      (f : A -> A) (rows : list A) (bound : Z) :
  (forall r, id (f r) = id r) ->
  Forall (fun r => id r <= bound) rows ->
  Forall (fun r => id r <= bound) (map (fun r => if hit r then f r else r) rows).
Proof.
  intros Hf F. apply Forall_forall. intros r' Hr'. apply in_map_iff in Hr'.
  destruct Hr' as [r [<- Hr]]. rewrite Forall_forall in F. specialize (F r Hr).
  simpl in F. destruct (hit r); [rewrite Hf|]; exact F.
Qed.

Lemma sound_update_user (u : User) (db : DB) :
  sound db -> sound (snd (update_user u db)).
Proof.
  intros S. unfold update_user.
  destruct (existsb (fun r => User_ID r =? User_ID u) (users (tables db))) eqn:Hhit;
    [destruct (existsb (fun r => negb (User_ID r =? User_ID u)
                                 && String.eqb (Email r) (Email u))
                       (users (tables db))) eqn:Hdup|]; simpl;
    [exact S | |].
  - destruct S as [[N1 [N2 [N3 F]]] [Sb [Sm Sa]]].
    split; [|split; [|split]]; try assumption.
    unfold sound_users. simpl. repeat split.
    + rewrite rewritten_rows_same_keys; [exact N1 | reflexivity].
    + rewrite rewritten_rows_same_keys; [exact N2 | reflexivity].
    + apply rewritten_rows_distinct; [| |exact N3].
      * intros a b Ha Hb Ea Eb. apply Z.eqb_eq in Ea, Eb.
        apply (same_id_same_row User_ID (users (tables db))); congruence.
      * intros a b Ha Hb _ Eb E. simpl in E.
        assert (existsb (fun r => negb (User_ID r =? User_ID u)
                                  && String.eqb (Email r) (Email u))
                        (users (tables db)) = true) as X; [|congruence].
        apply existsb_exists. exists b. split; [exact Hb|].
        rewrite Eb. simpl. apply String.eqb_eq. symmetry. exact E.
    + apply rewritten_rows_bounded; [reflexivity | exact F].
  - destruct S as [[N1 [N2 [N3 F]]] [Sb [Sm Sa]]].
    split; [|split; [|split]]; try assumption.
    assert (map (fun r => if User_ID r =? User_ID u then User_rewrite u r else r)
                (users (tables db)) = users (tables db)) as Same.
    { transitivity (map (fun r => r) (users (tables db))); [|apply map_id].
      apply map_ext_in. intros r Hr.
      destruct (User_ID r =? User_ID u) eqn:E; [|reflexivity].
      assert (existsb (fun r => User_ID r =? User_ID u) (users (tables db)) = true)
        as X; [|congruence].
      apply existsb_exists. exists r. split; assumption. }
    unfold sound_users. simpl. rewrite Same. repeat split; assumption.
Qed.

Lemma sound_update_mailbox (m : Mailbox) (db : DB) :
  sound db -> sound (snd (update_mailbox m db)).
Proof.
  intros S. unfold update_mailbox.
  destruct (existsb _ (mailboxes (tables db))) eqn:Hdup; simpl; [exact S|].
  destruct S as [Su [[N1 [N2 F]] [Sm Sa]]].
  split; [|split; [|split]]; try assumption.
  unfold sound_mailboxes. simpl. repeat split.
  - rewrite rewritten_rows_same_keys; [exact N1 | reflexivity].
  - apply rewritten_rows_distinct; [| |exact N2].
    + intros a b Ha Hb Ea Eb. apply Z.eqb_eq in Ea, Eb.
      apply (same_id_same_row Mailbox_ID (mailboxes (tables db))); congruence.
    + intros a b Ha Hb Ea Eb E. unfold mailbox_key in E. simpl in E.
      inversion E as [[E1 E2]].
      rewrite <- not_true_iff_false in Hdup. apply Hdup.
      apply existsb_exists. exists a. split; [exact Ha|]. rewrite Ea. simpl.
      apply existsb_exists. exists b. split; [exact Hb|].
      rewrite Eb, E1, Z.eqb_refl. simpl. apply String.eqb_eq. symmetry. exact E2.
  - apply rewritten_rows_bounded; [reflexivity | exact F].
Qed.

Lemma sound_update_flags (messageID : Z) (flags : string)
      (seen deleted draft : bool) (db : DB) :
  sound db -> sound (snd (update_flags messageID flags seen deleted draft db)).
Proof.
  intros S. pose proof S as [_ [_ [Sm _]]].
  apply (sound_with_messages db); simpl; try reflexivity; try lia; [|exact S].
  apply (consistent_update_flags messageID flags seen deleted draft db Sm).
Qed.

Lemma sound_deleted (t : Tables) (db : DB) :
  shrunk t (tables db) -> sound db -> sound (set_tables t db).
Proof.
  intros H. apply sound_shrunk; simpl; try lia. exact H.
Qed.

Lemma keeps_sound_Exec {A : Type} (q : DB -> res A * DB) :
  (forall db, sound db -> sound (snd (q db))) -> keeps sound (Exec q).
Proof. apply keeps_Exec. intros b db S. exact S. Qed.

Lemma keeps_sound_read {A : Type} (q : DB -> res A * DB) :
  (forall db, snd (q db) = db) -> keeps sound (Exec q).
Proof. intros Hq. apply keeps_sound_Exec. intros db S. rewrite Hq. exact S. Qed.

Lemma keeps_sound_CreateMailbox (mailbox : Mailbox) :
  keeps sound (Storage.CreateMailbox mailbox).
Proof.
  unfold Storage.CreateMailbox. apply keeps_bind; [|intros id; apply keeps_ret].
  apply keeps_wrap, keeps_sound_Exec, sound_insert_mailbox.
Qed.

Lemma keeps_sound_create_defaults (userID : Z) (names : list string) :
  keeps sound (Storage.create_defaults userID names).
Proof.
  induction names as [|name rest IH]; simpl; [apply keeps_ret|].
  apply keeps_bind; [|intros _; exact IH].
  apply keeps_wrap, keeps_sound_CreateMailbox.
Qed.

Lemma keeps_sound_perform (c : call) : forall db, sound db -> sound (perform c db).
Proof.
  destruct c; simpl.
  - unfold Storage.CreateUser. apply keeps_bind.
    + apply keeps_wrap, keeps_sound_Exec, sound_insert_user.
    + intros id. apply keeps_bind; [apply keeps_sound_create_defaults|].
      intros _. apply keeps_ret.
  - unfold Storage.GetUser. apply keeps_bind.
    + apply keeps_wrap, keeps_sound_read. reflexivity.
    + intros [u|]; [apply keeps_ret | apply keeps_fail].
  - unfold Storage.UpdateUser. apply keeps_bind; [|intros _; apply keeps_ret].
    apply keeps_wrap, keeps_sound_Exec, sound_update_user.
  - unfold Storage.DeleteUser. apply keeps_wrap, keeps_sound_Exec.
    intros db. apply sound_deleted, shrunk_users.
  - unfold Storage.AuthenticateUser, Storage.GetUser. apply keeps_bind.
    + apply keeps_bind; [apply keeps_wrap, keeps_sound_read; reflexivity|].
      intros [u|]; [apply keeps_ret | apply keeps_fail].
    + intros u. destruct (negb _); [apply keeps_fail | apply keeps_ret].
  - apply keeps_sound_CreateMailbox.
  - unfold Storage.GetMailbox. apply keeps_bind.
    + apply keeps_wrap, keeps_sound_read. reflexivity.
    + intros [u|]; [apply keeps_ret | apply keeps_fail].
  - unfold Storage.ListMailboxes. apply keeps_wrap, keeps_sound_read. reflexivity.
  - unfold Storage.DeleteMailbox. apply keeps_wrap, keeps_sound_Exec.
    intros db. apply sound_deleted, shrunk_mailboxes.
  - unfold Storage.UpdateMailbox.
    apply keeps_wrap, keeps_sound_Exec, sound_update_mailbox.
  - unfold Storage.CreateMessage. apply keeps_bind; [|intros id; apply keeps_ret].
    apply keeps_wrap, keeps_sound_Exec, sound_insert_message.
  - unfold Storage.GetMessage. apply keeps_bind.
    + apply keeps_wrap, keeps_sound_read. reflexivity.
    + intros [u|]; [apply keeps_ret | apply keeps_fail].
  - unfold Storage.ListMessages. apply keeps_wrap, keeps_sound_read. reflexivity.
  - unfold Storage.UpdateMessageFlags.
    apply keeps_wrap, keeps_sound_Exec, sound_update_flags.
  - unfold Storage.DeleteMessage. apply keeps_wrap, keeps_sound_Exec.
    intros db. apply sound_deleted, shrunk_messages.
  - unfold Storage.CreateAttachment. apply keeps_bind; [|intros id; apply keeps_ret].
    apply keeps_wrap, keeps_sound_Exec, sound_insert_attachment.
  - unfold Storage.GetAttachments. apply keeps_wrap, keeps_sound_read. reflexivity.
  - unfold Storage.DeleteAttachment. apply keeps_wrap, keeps_sound_Exec.
    intros db. apply sound_deleted, shrunk_attachments.
Qed.

Lemma sound_when_new (db : DB) :
  tables db = empty_tables -> seqs db = fresh_seqs -> sound db.
Proof.
  intros Et Es. unfold sound, sound_users, sound_mailboxes, consistent, wf,
    sound_attachments. rewrite Et. simpl. repeat split; constructor.
Qed.

(** X21.  The uniqueness constraints of the schema are an invariant of the
    storage interface: from a store where user ids, usernames and emails,
    mailbox ids and (user, name) pairs, message ids and (mailbox, UID)
    pairs, and attachment ids are each without repetition and no id lies
    beyond its sequence, any sequence of storage calls, on either engine
    and with the connection failing at any point, leads to a store with
    the same property.  A new database is such a store. *)
Theorem storage_calls_keep_the_uniqueness_constraints (calls : list call) (db : DB) :
  sound db -> sound (run calls db).
Proof.
  unfold run. revert db. induction calls as [|c calls IH]; simpl; intros db S.
  - exact S.
  - apply IH. apply keeps_sound_perform. exact S.
Qed.

Lemma storage_calls_keep_the_uniqueness_constraints_witness :
  sound (set_budget (Some 7%nat) OpenSQLite)
  /\ sound (run [CallCreateUser time.zero alice;
                 CallCreateUser time.zero alice;
                 CallCreateMessage time.zero (letter 1 1 1000);
                 CallCreateMessage time.zero (letter 1 1 1000);
                 CallDeleteUser 1;
                 CallCreateUser time.zero bob]
                (set_budget (Some 7%nat) OpenSQLite)).
Proof.
  assert (sound (set_budget (Some 7%nat) OpenSQLite)) as S
    by (apply sound_when_new; reflexivity).
  split; [exact S|].
  apply storage_calls_keep_the_uniqueness_constraints. exact S.
Defined.

(** ** Referential integrity where foreign keys are enforced *)

Lemma fk_enforced_Exec {A : Type} (q : DB -> res A * DB) :
  (forall db, fk_enforced (snd (q db)) = fk_enforced db) ->
  forall db, fk_enforced (after (Exec q) db) = fk_enforced db.
Proof.
  intros Hq db. unfold after, Exec.
  destruct (budget db) as [[|n]|]; [reflexivity | | apply Hq].
  rewrite Hq. reflexivity.
Qed.

Lemma refs_kept_after_cascade {A B : Type} (ida : A -> Z) (ref : B -> Z)
      (gone : A -> bool) (parents : list A) (children : list B) (c : B) :
  (forall c, In c children -> In (ref c) (map ida parents)) ->
  In c (filter (fun c => negb (mem (ref c) (map ida (filter gone parents))))
               children) ->
  In (ref c) (map ida (filter (fun a => negb (gone a)) parents)).
Proof.
  intros Hown Hc. apply filter_In in Hc. destruct Hc as [Hc Hlive].
  specialize (Hown c Hc). apply in_map_iff in Hown. destruct Hown as [a [Ea Ha]].
  apply in_map_iff. exists a. split; [exact Ea|].
  apply filter_In. split; [exact Ha|].
  destruct (gone a) eqn:Hg; [|reflexivity].
  apply negb_true_iff in Hlive. rewrite <- not_true_iff_false in Hlive.
  exfalso. apply Hlive. apply mem_In. rewrite <- Ea. apply in_map.
  apply filter_In. split; assumption.
Qed.

Lemma integral_drop_attachments (gone : Attachment -> bool) (db : DB) :
  integral db -> integral (set_tables (drop_attachments gone (tables db)) db).
Proof.
  intros [I1 [I2 I3]]. repeat split; simpl; try assumption.
  intros a Ha. apply filter_In in Ha. apply I3. tauto.
Qed.

Lemma integral_drop_messages (gone : Message -> bool) (db : DB) :
  integral db -> integral (set_tables (drop_messages true gone (tables db)) db).
Proof.
  intros [I1 [I2 I3]]. repeat split; simpl; try assumption.
  - intros m Hm. apply filter_In in Hm. apply I2. tauto.
  - intros a Ha. apply (refs_kept_after_cascade ID MessageID gone _ _ a I3 Ha).
Qed.

Lemma integral_drop_mailboxes (gone : Mailbox -> bool) (db : DB) :
  integral db -> integral (set_tables (drop_mailboxes true gone (tables db)) db).
Proof.
  intros [I1 [I2 I3]]. repeat split; simpl.
  - intros m Hm. apply filter_In in Hm. apply I1. tauto.
  - intros m Hm. apply (refs_kept_after_cascade Mailbox_ID MailboxID gone _ _ m I2 Hm).
  - intros a Ha.
    apply (refs_kept_after_cascade ID MessageID _ _ _ a I3) in Ha.
    apply in_map_iff in Ha. destruct Ha as [m [Em Hm]].
    apply in_map_iff. exists m. split; [exact Em|].
    apply filter_In in Hm. apply filter_In. tauto.
Qed.

Lemma integral_drop_users (gone : User -> bool) (db : DB) :
  integral db -> integral (set_tables (drop_users true gone (tables db)) db).
Proof.
  intros [I1 [I2 I3]]. repeat split; simpl.
  - intros m Hm. apply (refs_kept_after_cascade User_ID UserID gone _ _ m I1 Hm).
  - intros m Hm.
    apply (refs_kept_after_cascade Mailbox_ID MailboxID _ _ _ m I2) in Hm.
    apply in_map_iff in Hm. destruct Hm as [b [Eb Hb]].
    apply in_map_iff. exists b. split; [exact Eb|].
    apply filter_In in Hb. apply filter_In. tauto.
  - intros a Ha.
    apply (refs_kept_after_cascade ID MessageID _ _ _ a I3) in Ha.
    apply in_map_iff in Ha. destruct Ha as [m [Em Hm]].
    apply in_map_iff. exists m. split; [exact Em|].
    apply filter_In in Hm. apply filter_In. tauto.
Qed.

Lemma integral_insert_user (u : User) (db : DB) :
  integral db -> integral (snd (insert_user u db)).
Proof.
  intros I. unfold insert_user, rejected, accepted.
  destruct (existsb _ (users (tables db)));
    [destruct (backend db); exact I|].
  destruct (existsb _ (users (tables db)));
    [destruct (backend db); exact I|].
  destruct I as [I1 [I2 I3]]. repeat split; simpl; try assumption.
  intros m Hm. rewrite map_app. apply in_or_app. left. apply I1. exact Hm.
Qed.

Lemma integral_insert_mailbox (m : Mailbox) (db : DB) :
  fk_enforced db = true -> integral db -> integral (snd (insert_mailbox m db)).
Proof.
  intros Hfk I. unfold insert_mailbox, rejected, accepted.
  destruct (existsb _ (mailboxes (tables db)));
    [destruct (backend db); exact I|].
  rewrite Hfk. simpl.
  destruct (mem (UserID m) (map User_ID (users (tables db)))) eqn:Hown; simpl;
    [|destruct (backend db); exact I].
  destruct I as [I1 [I2 I3]]. repeat split; simpl; try assumption.
  - intros b Hb. apply in_app_iff in Hb. destruct Hb as [Hb|[<-|[]]].
    + apply I1. exact Hb.
    + simpl. apply mem_In. exact Hown.
  - intros msg Hmsg. rewrite map_app. apply in_or_app. left. apply I2. exact Hmsg.
Qed.

Lemma integral_insert_message (m : Message) (db : DB) :
  fk_enforced db = true -> integral db -> integral (snd (insert_message m db)).
Proof.
  intros Hfk I. unfold insert_message, rejected, accepted.
  destruct (existsb _ (messages (tables db)));
    [destruct (backend db); exact I|].
  rewrite Hfk. simpl.
  destruct (mem (MailboxID m) (map Mailbox_ID (mailboxes (tables db)))) eqn:Hown;
    simpl; [|destruct (backend db); exact I].
  destruct I as [I1 [I2 I3]]. repeat split; simpl; try assumption.
  - intros b Hb. apply in_app_iff in Hb. destruct Hb as [Hb|[<-|[]]].
    + apply I2. exact Hb.
    + simpl. apply mem_In. exact Hown.
  - intros a Ha. rewrite map_app. apply in_or_app. left. apply I3. exact Ha.
Qed.

Lemma integral_insert_attachment (a : Attachment) (db : DB) :
  fk_enforced db = true -> integral db -> integral (snd (insert_attachment a db)).
Proof.
  intros Hfk I. unfold insert_attachment, rejected, accepted.
  rewrite Hfk. simpl.
  destruct (mem (MessageID a) (map ID (messages (tables db)))) eqn:Hown;
    simpl; [|destruct (backend db); exact I].
  destruct I as [I1 [I2 I3]]. repeat split; simpl; try assumption.
  intros b Hb. apply in_app_iff in Hb. destruct Hb as [Hb|[<-|[]]].
  - apply I3. exact Hb.
  - simpl. apply mem_In. exact Hown.
Qed.

Lemma integral_update_user (u : User) (db : DB) :
  integral db -> integral (snd (update_user u db)).
Proof.
  intros I. unfold update_user.
  destruct (existsb _ (users (tables db)) && _); simpl; [exact I|].
  destruct I as [I1 [I2 I3]]. repeat split; simpl; try assumption.
  rewrite rewritten_rows_same_keys; [exact I1 | reflexivity].
Qed.

Lemma integral_update_mailbox (m : Mailbox) (db : DB) :
  integral db -> integral (snd (update_mailbox m db)).
Proof.
  intros I. unfold update_mailbox.
  destruct (existsb _ (mailboxes (tables db))); simpl; [exact I|].
  destruct I as [I1 [I2 I3]]. repeat split; simpl; try assumption.
  - intros b Hb. apply in_map_iff in Hb. destruct Hb as [r [<- Hr]].
    specialize (I1 r Hr). destruct (Mailbox_ID r =? Mailbox_ID m); exact I1.
  - rewrite rewritten_rows_same_keys; [exact I2 | reflexivity].
Qed.

Lemma integral_update_flags (messageID : Z) (flags : string)
      (seen deleted draft : bool) (db : DB) :
  integral db ->
  integral (snd (update_flags messageID flags seen deleted draft db)).
Proof.
  intros [I1 [I2 I3]]. unfold update_flags, write_flags.
  repeat split; simpl; try assumption.
  - intros b Hb. apply in_map_iff in Hb. destruct Hb as [r [<- Hr]].
    specialize (I2 r Hr). destruct (ID r =? messageID); exact I2.
  - rewrite rewritten_rows_same_keys; [exact I3 | reflexivity].
Qed.

Lemma keeps_integrity_Exec {A : Type} (q : DB -> res A * DB) :
  (forall db, fk_enforced (snd (q db)) = fk_enforced db) ->
  (forall db, fk_enforced db = true -> integral db -> integral (snd (q db))) ->
  keeps referential (Exec q).
Proof.
  intros Hfk Hq. apply keeps_Exec.
  - intros b db H. exact H.
  - intros db [F I]. split; [rewrite Hfk; exact F | apply Hq; assumption].
Qed.

Lemma keeps_integrity_read {A : Type} (q : DB -> res A * DB) :
  (forall db, snd (q db) = db) ->
  keeps referential (Exec q).
Proof.
  intros Hq. apply keeps_integrity_Exec; intros db; rewrite Hq; auto.
Qed.

Lemma fk_enforced_insert_user (u : User) (db : DB) :
  fk_enforced (snd (insert_user u db)) = fk_enforced db.
Proof.
  unfold insert_user, rejected, accepted.
  repeat (destruct (existsb _ _)); destruct (backend db) eqn:E;
    unfold fk_enforced; simpl; rewrite ?E; reflexivity.
Qed.

Lemma fk_enforced_insert_mailbox (m : Mailbox) (db : DB) :
  fk_enforced (snd (insert_mailbox m db)) = fk_enforced db.
Proof.
  unfold insert_mailbox, rejected, accepted.
  destruct (existsb _ _); [|destruct (fk_enforced db && _)];
    destruct (backend db) eqn:E; unfold fk_enforced; simpl; rewrite ?E; reflexivity.
Qed.

Lemma fk_enforced_insert_message (m : Message) (db : DB) :
  fk_enforced (snd (insert_message m db)) = fk_enforced db.
Proof.
  unfold insert_message, rejected, accepted.
  destruct (existsb _ _); [|destruct (fk_enforced db && _)];
    destruct (backend db) eqn:E; unfold fk_enforced; simpl; rewrite ?E; reflexivity.
Qed.

Lemma fk_enforced_insert_attachment (a : Attachment) (db : DB) :
  fk_enforced (snd (insert_attachment a db)) = fk_enforced db.
Proof.
  unfold insert_attachment, rejected, accepted.
  destruct (fk_enforced db && _);
    destruct (backend db) eqn:E; unfold fk_enforced; simpl; rewrite ?E; reflexivity.
Qed.

Lemma fk_enforced_update_user (u : User) (db : DB) :
  fk_enforced (snd (update_user u db)) = fk_enforced db.
Proof. unfold update_user. destruct (_ && _); reflexivity. Qed.

Lemma fk_enforced_update_mailbox (m : Mailbox) (db : DB) :
  fk_enforced (snd (update_mailbox m db)) = fk_enforced db.
Proof. unfold update_mailbox. destruct (existsb _ _); reflexivity. Qed.

Lemma keeps_integrity_CreateMailbox (mailbox : Mailbox) :
  keeps referential (Storage.CreateMailbox mailbox).
Proof.
  unfold Storage.CreateMailbox. apply keeps_bind; [|intros id; apply keeps_ret].
  apply keeps_wrap, keeps_integrity_Exec;
    [apply fk_enforced_insert_mailbox | apply integral_insert_mailbox].
Qed.

Lemma keeps_integrity_create_defaults (userID : Z) (names : list string) :
  keeps referential (Storage.create_defaults userID names).
Proof.
  induction names as [|name rest IH]; simpl; [apply keeps_ret|].
  apply keeps_bind; [|intros _; exact IH].
  apply keeps_wrap, keeps_integrity_CreateMailbox.
Qed.

Lemma keeps_integrity_perform (c : call) (db : DB) :
  referential db -> referential (perform c db).
Proof.
  revert db. destruct c; simpl.
  - unfold Storage.CreateUser. apply keeps_bind.
    + apply keeps_wrap, keeps_integrity_Exec;
        [apply fk_enforced_insert_user | intros db _; apply integral_insert_user].
    + intros id. apply keeps_bind; [apply keeps_integrity_create_defaults|].
      intros _. apply keeps_ret.
  - unfold Storage.GetUser. apply keeps_bind.
    + apply keeps_wrap, keeps_integrity_read. reflexivity.
    + intros [u|]; [apply keeps_ret | apply keeps_fail].
  - unfold Storage.UpdateUser. apply keeps_bind; [|intros _; apply keeps_ret].
    apply keeps_wrap, keeps_integrity_Exec;
      [apply fk_enforced_update_user | intros db _; apply integral_update_user].
  - unfold Storage.DeleteUser. apply keeps_wrap, keeps_integrity_Exec.
    + reflexivity.
    + intros db F I. unfold delete_user. rewrite F. apply integral_drop_users, I.
  - unfold Storage.AuthenticateUser, Storage.GetUser. apply keeps_bind.
    + apply keeps_bind; [apply keeps_wrap, keeps_integrity_read; reflexivity|].
      intros [u|]; [apply keeps_ret | apply keeps_fail].
    + intros u. destruct (negb _); [apply keeps_fail | apply keeps_ret].
  - apply keeps_integrity_CreateMailbox.
  - unfold Storage.GetMailbox. apply keeps_bind.
    + apply keeps_wrap, keeps_integrity_read. reflexivity.
    + intros [u|]; [apply keeps_ret | apply keeps_fail].
  - unfold Storage.ListMailboxes. apply keeps_wrap, keeps_integrity_read. reflexivity.
  - unfold Storage.DeleteMailbox. apply keeps_wrap, keeps_integrity_Exec.
    + reflexivity.
    + intros db F I. unfold delete_mailbox. rewrite F.
      apply integral_drop_mailboxes, I.
  - unfold Storage.UpdateMailbox. apply keeps_wrap, keeps_integrity_Exec;
      [apply fk_enforced_update_mailbox | intros db _; apply integral_update_mailbox].
  - unfold Storage.CreateMessage. apply keeps_bind; [|intros id; apply keeps_ret].
    apply keeps_wrap, keeps_integrity_Exec;
      [apply fk_enforced_insert_message | apply integral_insert_message].
  - unfold Storage.GetMessage. apply keeps_bind.
    + apply keeps_wrap, keeps_integrity_read. reflexivity.
    + intros [u|]; [apply keeps_ret | apply keeps_fail].
  - unfold Storage.ListMessages. apply keeps_wrap, keeps_integrity_read. reflexivity.
  - unfold Storage.UpdateMessageFlags. apply keeps_wrap, keeps_integrity_Exec;
      [reflexivity | intros db _; apply integral_update_flags].
  - unfold Storage.DeleteMessage. apply keeps_wrap, keeps_integrity_Exec.
    + reflexivity.
    + intros db F I. unfold delete_message. rewrite F.
      apply integral_drop_messages, I.
  - unfold Storage.CreateAttachment. apply keeps_bind; [|intros id; apply keeps_ret].
    apply keeps_wrap, keeps_integrity_Exec;
      [apply fk_enforced_insert_attachment | apply integral_insert_attachment].
  - unfold Storage.GetAttachments. apply keeps_wrap, keeps_integrity_read.
    reflexivity.
  - unfold Storage.DeleteAttachment. apply keeps_wrap, keeps_integrity_Exec.
    + reflexivity.
    + intros db F I. apply integral_drop_attachments, I.
Qed.

(** X22.  Where foreign keys are enforced (PostgreSQL, or SQLite once the
    pragma is on), referential integrity is an invariant of the storage
    interface: if every mailbox names a stored user, every message a stored
    mailbox and every attachment a stored message, the same holds after any
    sequence of storage calls, with the connection failing at any point.  A
    new PostgreSQL database is such a store. *)
Theorem storage_calls_keep_referential_integrity (calls : list call) (db : DB) :
  fk_enforced db = true -> integral db -> integral (run calls db).
Proof.
  intros F I.
  assert (fk_enforced (run calls db) = true /\ integral (run calls db)) as [_ H];
    [|exact H].
  unfold run. revert db F I. induction calls as [|c calls IH]; simpl; intros db F I.
  - split; assumption.
  - destruct (keeps_integrity_perform c db (conj F I)) as [F' I'].
    apply IH; assumption.
Qed.

Lemma storage_calls_keep_referential_integrity_witness :
  fk_enforced OpenPostgres = true
  /\ integral OpenPostgres
  /\ integral (run [CallCreateUser time.zero alice;
                    CallCreateMessage time.zero (letter 1 1 1000);
                    CallDeleteMailbox 1;
                    CallCreateMessage time.zero (letter 1 1 1000);
                    CallDeleteUser 1]
                   OpenPostgres).
Proof.
  assert (integral OpenPostgres) as I
    by (repeat split; simpl; intros x []).
  split; [reflexivity|]. split; [exact I|].
  apply storage_calls_keep_referential_integrity; [reflexivity | exact I].
Defined.

(** ** Searching by sequence number and by UID *)

Lemma numbered_position (listing : list Message) (i s : Z) (r : Message) :
  0 <= i -> i + Go.len listing < 2 ^ 32 ->
  In (s, r) (numbered i listing)
  <-> i < s /\ nth_error listing (Z.to_nat (s - i - 1)) = Some r.
Proof.
  revert i. unfold Go.len. induction listing as [|msg rest IH]; intros i Hi Hlen.
  - simpl. split; [contradiction|]. intros [_ E].
    destruct (Z.to_nat (s - i - 1)); discriminate.
  - simpl List.length in Hlen. cbn [numbered In].
    rewrite uint32_small by lia. rewrite IH by lia. split.
    + intros [E|[Hs Hn]].
      * inversion E; subst. split; [lia|].
        replace (i + 1 - i - 1) with 0 by lia. reflexivity.
      * split; [lia|].
        replace (s - i - 1) with (Z.succ (s - (i + 1) - 1)) by lia.
        rewrite Z2Nat.inj_succ by lia. exact Hn.
    + intros [Hs Hn]. destruct (Z.eq_dec s (i + 1)) as [->|Hne].
      * left. replace (i + 1 - i - 1) with 0 in Hn by lia. simpl in Hn. congruence.
      * right. split; [lia|].
        replace (s - i - 1) with (Z.succ (s - (i + 1) - 1)) in Hn by lia.
        rewrite Z2Nat.inj_succ in Hn by lia. exact Hn.
Qed.

(** X23.  On a working connection and a mailbox of fewer than 2^32 messages,
    a search returns, without changing the store, the sequence numbers in
    strictly ascending order of exactly the listed messages that pass the
    tests of the loop; the same search by UID returns, position by position,
    the ids of those same messages; and the header, body and text criteria
    play no part in either result. *)
Theorem search_by_number_and_by_uid_agree (m : Mailbox)
        (criteria : imap.SearchCriteria) (db : DB) :
  healthy db ->
  Go.len (rows_of_mailbox (Mailbox_ID m) (tables db)) < 2 ^ 32 ->
  exists seqs uids,
    IMAPMailbox.SearchMessages m false criteria db = (Ok seqs, db)
    /\ IMAPMailbox.SearchMessages m true criteria db = (Ok uids, db)
    /\ StronglySorted Z.lt seqs
    /\ List.length uids = List.length seqs
    /\ (forall s,
           In s seqs
           <-> exists r,
               1 <= s
               /\ nth_error (rows_of_mailbox (Mailbox_ID m) (tables db))
                            (Z.to_nat (s - 1)) = Some r
               /\ IMAPMailbox.selected criteria s r = true)
    /\ (forall k s,
           nth_error seqs k = Some s ->
           exists r,
             nth_error (rows_of_mailbox (Mailbox_ID m) (tables db))
                       (Z.to_nat (s - 1)) = Some r
             /\ nth_error uids k = Some (Go.uint32 (ID r)))
    /\ (forall uid header body text,
           IMAPMailbox.SearchMessages
             m uid
             (imap.mkSearchCriteria
                (imap.Criteria_SeqNum criteria) (imap.Criteria_Uid criteria)
                (imap.Since criteria) (imap.Before criteria)
                (imap.Criteria_Seen criteria) (imap.Criteria_Unseen criteria)
                (imap.Criteria_Deleted criteria) (imap.Criteria_Undeleted criteria)
                (imap.Criteria_Draft criteria) (imap.Criteria_Undraft criteria)
                header body text) db
           = IMAPMailbox.SearchMessages m uid criteria db).
Proof.
  intros H Hlen.
  set (rows := rows_of_mailbox (Mailbox_ID m) (tables db)) in *.
  assert (forall s r, In (s, r) (numbered 0 rows)
                      <-> 1 <= s /\ nth_error rows (Z.to_nat (s - 1)) = Some r)
    as Hpos.
  { intros s r. rewrite numbered_position by lia.
    replace (s - 0 - 1) with (s - 1) by lia. split; intros [A B]; split; auto; lia. }
  exists (IMAPMailbox.search_loop 0 rows false criteria),
         (IMAPMailbox.search_loop 0 rows true criteria).
  split; [|split; [|split; [|split; [|split; [|split]]]]].
  - unfold IMAPMailbox.SearchMessages, bind, wrap.
    rewrite ListMessages_healthy by exact H. reflexivity.
  - unfold IMAPMailbox.SearchMessages, bind, wrap.
    rewrite ListMessages_healthy by exact H. reflexivity.
  - apply search_loop_above; [lia | exact Hlen].
  - rewrite !search_loop_numbered, !length_map. reflexivity.
  - intros s. rewrite search_loop_numbered. rewrite in_map_iff. split.
    + intros [[s' r] [E Hin]]. simpl in E. subst s'.
      apply filter_In in Hin. destruct Hin as [Hin Hsel]. simpl in Hsel.
      apply Hpos in Hin. exists r. tauto.
    + intros [r [Hs [Hn Hsel]]]. exists (s, r). split; [reflexivity|].
      apply filter_In. split; [apply Hpos; tauto | exact Hsel].
  - intros k s Hk. rewrite search_loop_numbered in Hk. rewrite nth_error_map in Hk.
    destruct (nth_error (filter _ (numbered 0 rows)) k) as [[s' r]|] eqn:Hp;
      [|discriminate].
    simpl in Hk. inversion Hk; subst s'. exists r. split.
    + apply nth_error_In in Hp. apply filter_In in Hp. apply Hpos. tauto.
    + rewrite search_loop_numbered, nth_error_map, Hp. reflexivity.
  - intros uid header body text. unfold IMAPMailbox.SearchMessages, bind, wrap.
    rewrite ListMessages_healthy by exact H. unfold ret.
    rewrite !search_loop_numbered. reflexivity.
Qed.

Lemma search_by_number_and_by_uid_agree_witness :
  exists seqs uids,
    IMAPMailbox.SearchMessages inbox false no_criteria first_flagged
    = (Ok seqs, first_flagged)
    /\ IMAPMailbox.SearchMessages inbox true no_criteria first_flagged
       = (Ok uids, first_flagged)
    /\ List.length uids = List.length seqs.
Proof.
  destruct (search_by_number_and_by_uid_agree inbox no_criteria first_flagged)
    as [seqs [uids [A [B [_ [C _]]]]]];
    [reflexivity | vm_compute; reflexivity |].
  exists seqs, uids. auto.
Defined.

(** ** Attachments *)



(** ** Changing a user *)



